(** * odoo-mcp: the MCP host of [src/mcp.ts] and the tools of [src/tools.ts]

    A shallow embedding of the protocol core of the repository: the
    canonical payload serialisation and the staged-action store
    ([ActionStateStore]), the WebSocket frame codec with the connection's
    data handler ([encodeFrame], [decodeFrame], [WebSocketConnection]), the
    dispatcher of the [Host] with its tool registry, and, of the tools, the
    masking and sanitising helpers and [createTool] on the store.

    Conventions.
    - A JavaScript [Map] keyed by strings is a [gmap string _]; the event
      ledger, an array that only grows, is a list (oldest event first).
    - [Date.now()] and [crypto.randomUUID()] are inputs of the operations
      that call them: the clock reading is a [Z] (milliseconds), the drawn
      identifier a [string].
    - A method that throws returns [Throw e] together with the store as it
      stands at the [throw]; the store is threaded explicitly.
    - A [Buffer] is a [list Z] of bytes, lengths and offsets are [Z].
    - An [async] function is cut at its [await]: one function for what runs
      up to it, one for what runs from it on, on the store as it is then;
      the calls of executions that overlap are separate steps on the
      store. *)

From Stdlib Require Import ZArith Lia String Ascii List DecimalString.
From Stdlib Require DecimalPos DecimalZ.
From stdpp Require Import base option list sorting strings gmap.
Import ListNotations.

#[local] Set Warnings "-register-all".

Local Open Scope Z_scope.
Local Open Scope string_scope.

(** ** JSON values *)

(** [JSON.stringify] on a number primitive is a built-in of the runtime; the
    number type and its rendering are an interface of the model. *)
Class JsonNumber (number : Type) := stringifyNumber : number → string.

(** The closed set of value variants a payload is made of.  An object is the
    list of its own enumerable properties in insertion order; its keys are
    pairwise distinct (see [wf_value]). *)
Inductive value (number : Type) : Type :=
  | JNull
  | JBool (b : bool)
  | JNumber (n : number)
  | JString (s : string)
  | JArray (items : list (value number))
  | JObject (entries : list (string * value number)).

Arguments JNull {number}.
Arguments JBool {number} b.
Arguments JNumber {number} n.
Arguments JString {number} s.
Arguments JArray {number} items.
Arguments JObject {number} entries.

Definition dquote : ascii := "034"%char.
Definition backslash : ascii := "092"%char.

Definition hex_digit (n : N) : ascii :=
  ascii_of_N (if (n <? 10)%N then 48 + n else 87 + n)%N.

(** One code unit of [JSON.stringify] on a string (QuoteJSONString). *)
Definition quote_char (c : ascii) : string :=
  let n := N_of_ascii c in
  if (n =? 34)%N then String backslash (String dquote "")
  else if (n =? 92)%N then String backslash (String backslash "")
  else if (n =? 8)%N then String backslash "b"
  else if (n =? 12)%N then String backslash "f"
  else if (n =? 10)%N then String backslash "n"
  else if (n =? 13)%N then String backslash "r"
  else if (n =? 9)%N then String backslash "t"
  else if (n <? 32)%N then
    String backslash ("u00" +:+ String (hex_digit (n / 16)) (String (hex_digit (n mod 16)) ""))
  else String c "".

Fixpoint quote_body (s : string) : string :=
  match s with
  | EmptyString => ""
  | String c rest => quote_char c +:+ quote_body rest
  end.

(** [JSON.stringify(s)] for a string [s]. *)
Definition stringifyString (s : string) : string :=
  String dquote (quote_body s +:+ String dquote "").

(** [Array.prototype.join]. *)
Definition join (sep : string) (parts : list string) : string :=
  String.concat sep parts.

(** [Object.keys(value)]: the own keys.  The enumeration order of the
    runtime does not matter below, the keys are sorted at once. *)
Definition keys {A} (entries : list (string * A)) : list string :=
  entries.*1.

(** [value[key]]: the property stored under [key]. *)
Fixpoint property {A} (key : string) (entries : list (string * A)) : option A :=
  match entries with
  | [] => None
  | (k, v) :: rest => if decide (k = key) then Some v else property key rest
  end.

(** [Array.prototype.sort()] without comparator: ascending order of the
    strings, compared code unit by code unit. *)
Definition sort (ks : list string) : list string := merge_sort String.le ks.

Section Canonical.
Context {number : Type} `{!JsonNumber number}.

(** One [`${JSON.stringify(key)}:${...}`] of [stableStringify]; a key with
    no property renders as the template renders [undefined]. *)
Definition entry_text (texts : list (string * string)) (key : string) : string :=
  stringifyString key +:+ ":" +:+ default "undefined" (property key texts).

(** [ActionStateStore.stableStringify].  The recursive calls on the
    properties are made once per entry and looked up by key afterwards
    ([stableStringify_object] states the source's order of evaluation). *)
Fixpoint stableStringify (v : value number) : string :=
  match v with
  | JNull => "null"
  | JBool b => if b then "true" else "false"
  | JNumber n => stringifyNumber n
  | JString s => stringifyString s
  | JArray items => "[" +:+ join "," (map stableStringify items) +:+ "]"
  | JObject entries =>
      let texts := map (λ e, let '(k, x) := e in (k, stableStringify x)) entries in
      "{" +:+ join "," (map (entry_text texts) (sort (keys entries))) +:+ "}"
  end.

(** [ActionStateStore.computeSignature]. *)
Definition computeSignature (sessionId tool : string) (payload : value number) : string :=
  sessionId +:+ ":" +:+ tool +:+ ":" +:+ stableStringify payload.

(** Keys of an object are pairwise distinct, at every depth. *)
Fixpoint wf_value (v : value number) : Prop :=
  match v with
  | JArray items => fold_right (λ x P, wf_value x ∧ P) True items
  | JObject entries =>
      NoDup (keys entries) ∧
      fold_right (λ e P, wf_value e.2 ∧ P) True entries
  | _ => True
  end.

(** Equality of payloads as trees: arrays position by position, objects
    as sets of key/value pairs whatever the insertion order. *)
Inductive same_tree : value number → value number → Prop :=
  | same_null : same_tree JNull JNull
  | same_bool b : same_tree (JBool b) (JBool b)
  | same_number n : same_tree (JNumber n) (JNumber n)
  | same_string s : same_tree (JString s) (JString s)
  | same_array xs ys :
      Forall2 same_tree xs ys → same_tree (JArray xs) (JArray ys)
  | same_object es es' fs :
      Forall2 (λ e f, e.1 = f.1 ∧ same_tree e.2 f.2) es es' →
      es' ≡ₚ fs →
      same_tree (JObject es) (JObject fs).
End Canonical.

(** ** Reading a canonical text *)

(** The characters of a number in a JSON text: digits, signs, the point
    and the exponent mark. *)
Definition number_char (c : ascii) : bool :=
  let n := N_of_ascii c in
  ((48 <=? n) && (n <=? 57) || (n =? 43) || (n =? 45) || (n =? 46) || (n =? 69)
   || (n =? 101))%N.

(** The characters that follow a value in a canonical text: the comma, the
    closing bracket and the closing brace. *)
Definition closer (c : ascii) : bool :=
  let n := N_of_ascii c in ((n =? 44) || (n =? 93) || (n =? 125))%N.

Fixpoint all_chars (p : ascii → bool) (s : string) : bool :=
  match s with
  | EmptyString => true
  | String c rest => p c && all_chars p rest
  end.

(** A text that may follow a value: nothing, or a text that begins with a
    closer. *)
Definition closes (r : string) : Prop :=
  match r with
  | EmptyString => True
  | String c _ => closer c = true
  end.

(** The variant of a value, and the variant that the first character of a
    canonical text announces. *)
Definition variant {number} (v : value number) : nat :=
  match v with
  | JNull => 0
  | JBool _ => 1
  | JNumber _ => 2
  | JString _ => 3
  | JArray _ => 4
  | JObject _ => 5
  end.

Definition announces (c : ascii) : nat :=
  let n := N_of_ascii c in
  if (n =? 110)%N then 0
  else if ((n =? 116) || (n =? 102))%N then 1
  else if number_char c then 2
  else if (n =? 34)%N then 3
  else if (n =? 91)%N then 4
  else if (n =? 123)%N then 5
  else 6.

(** The value of a hexadecimal digit as [hex_digit] writes it. *)
Definition hex_value (c : ascii) : N :=
  let n := N_of_ascii c in if (n <? 58)%N then (n - 48)%N else (n - 87)%N.

(** The code unit at the front of the body of a quoted string, with the
    rest of the text: what [quote_char] wrote, read back. *)
Definition unquote_char (s : string) : option (ascii * string) :=
  match s with
  | EmptyString => None
  | String c rest =>
      if negb (N_of_ascii c =? 92)%N then Some (c, rest) else
      match rest with
      | EmptyString => None
      | String e rest =>
          let n := N_of_ascii e in
          if (n =? 34)%N then Some (dquote, rest)
          else if (n =? 92)%N then Some (backslash, rest)
          else if (n =? 98)%N then Some (ascii_of_N 8, rest)
          else if (n =? 102)%N then Some (ascii_of_N 12, rest)
          else if (n =? 110)%N then Some (ascii_of_N 10, rest)
          else if (n =? 114)%N then Some (ascii_of_N 13, rest)
          else if (n =? 116)%N then Some (ascii_of_N 9, rest)
          else
            match rest with
            | String _ (String _ (String h (String l rest))) =>
                Some (ascii_of_N (16 * hex_value h + hex_value l), rest)
            | _ => None
            end
      end
  end.

(** Every number of a payload, at every depth, is one that [exact]
    accepts.  [exact] stands for the numbers that [JSON.stringify] writes
    as a number text of their own; it writes NaN and the infinities as
    [null]. *)
Fixpoint exact_value {number} (exact : number → bool) (v : value number) : Prop :=
  match v with
  | JNumber n => exact n = true
  | JArray items => fold_right (λ x P, exact_value exact x ∧ P) True items
  | JObject entries => fold_right (λ e P, exact_value exact e.2 ∧ P) True entries
  | _ => True
  end.

(** A payload with distinct keys in every object and exact numbers only. *)
Definition proper {number} `{!JsonNumber number} (exact : number → bool)
    (v : value number) : Prop :=
  wf_value v ∧ exact_value exact v.

(** The canonical text of a value, followed by a text that may follow a
    value, determines the value as a tree and what follows. *)
Definition determined {number} `{!JsonNumber number} (exact : number → bool)
    (v1 : value number) : Prop :=
  ∀ v2 r1 r2, proper exact v1 → proper exact v2 → closes r1 → closes r2 →
    stableStringify v1 +:+ r1 = stableStringify v2 +:+ r2 →
    same_tree v1 v2 ∧ r1 = r2.

(** ** The staged-action store: data *)

Inductive ActionStage := StagePlan | StageDryRun | StageConfirm.

(** The [metadata] object of a stage record; an absent key is [None]. *)
Record Metadata := {
  requestedBy : option string;
  approvedBy : option string;
  approvedAt : option Z;
  confirmedBy : option string;
  confirmedAt : option Z;
  expiresAt : option Z;
}.

Record ActionStageRecord (number : Type) := {
  actionId : string;
  mode : ActionStage;
  sessionId : string;
  tool : string;
  payload : value number;
  result : value number;
  timestamp : Z;
  metadata : Metadata;
}.

Arguments actionId {number} _.
Arguments mode {number} _.
Arguments sessionId {number} _.
Arguments tool {number} _.
Arguments payload {number} _.
Arguments result {number} _.
Arguments timestamp {number} _.
Arguments metadata {number} _.

Record ActionLifecycle (number : Type) := {
  lc_actionId : string;
  lc_sessionId : string;
  lc_tool : string;
  lc_payload : value number;
  signature : string;
  plan : option (ActionStageRecord number);
  dryRun : option (ActionStageRecord number);
  confirm : option (ActionStageRecord number);
}.

Arguments lc_actionId {number} _.
Arguments lc_sessionId {number} _.
Arguments lc_tool {number} _.
Arguments lc_payload {number} _.
Arguments signature {number} _.
Arguments plan {number} _.
Arguments dryRun {number} _.
Arguments confirm {number} _.

(** Events of the ledger ([InMemoryEventStore]). *)
Inductive Event (number : Type) :=
  | ActionRecorded (stage : ActionStage) (actionId sessionId tool : string)
      (payload result : value number) (metadata : Metadata) (timestamp : Z)
  | SessionInitialized (sessionId : string) (client : value number) (timestamp : Z).

Arguments ActionRecorded {number} _ _ _ _ _ _ _ _.
Arguments SessionInitialized {number} _ _ _.

(** The [type] field of an event. *)
Definition event_type {number} (e : Event number) : string :=
  match e with
  | ActionRecorded StagePlan _ _ _ _ _ _ _ => "action_plan_recorded"
  | ActionRecorded StageDryRun _ _ _ _ _ _ _ => "action_dry_run_recorded"
  | ActionRecorded StageConfirm _ _ _ _ _ _ _ => "action_confirm_recorded"
  | SessionInitialized _ _ _ => "session_initialized"
  end.

(** [ActionStateStore] with the [InMemoryEventStore] it writes to. *)
Record Store (number : Type) := {
  lifecycles : gmap string (ActionLifecycle number);
  signatureIndex : gmap string string;
  events : list (Event number);
}.

Arguments lifecycles {number} _.
Arguments signatureIndex {number} _.
Arguments events {number} _.

(** The errors the store throws. *)
Inductive StoreError :=
  | PlanRequired
  | PlanMetadataMissing
  | SessionMismatch
  | UnknownActionRerun
  | ToolMismatch
  | PayloadDiffers
  | DryRunRequired
  | NotApproved
  | ApprovalExpired
  | AlreadyConfirmed
  | UnknownAction.

Definition error_message (e : StoreError) : string :=
  match e with
  | PlanRequired => "A prior plan run is required before dry_run."
  | PlanMetadataMissing => "Plan metadata missing for this action."
  | SessionMismatch => "Action session mismatch."
  | UnknownActionRerun => "Unknown action. Please re-run plan and dry_run."
  | ToolMismatch => "Action tool mismatch."
  | PayloadDiffers => "Confirmation payload differs from the approved dry_run."
  | DryRunRequired => "A matching dry_run approval is required before confirmation."
  | NotApproved => "Dry_run has not been approved."
  | ApprovalExpired => "Dry_run approval has expired. Please run a new dry_run."
  | AlreadyConfirmed => "Action already confirmed."
  | UnknownAction => "Unknown action."
  end.

Inductive outcome (A : Type) :=
  | Return (a : A)
  | Throw (e : StoreError).

Arguments Return {A} a.
Arguments Throw {A} e.

(** A method of the store: from the store before the call to the store
    after it (at the [throw], when it throws) and what the call gave. *)
Definition Method (number A : Type) : Type := Store number → Store number * outcome A.

#[global] Instance method_ret {number} : MRet (Method number) :=
  λ A a st, (st, Return a).

#[global] Instance method_bind {number} : MBind (Method number) :=
  λ A B k m st,
    match m st with
    | (st', Return a) => k a st'
    | (st', Throw e) => (st', Throw e)
    end.

Definition throw {number A} (e : StoreError) : Method number A := λ st, (st, Throw e).

Definition gets {number A} (f : Store number → A) : Method number A := λ st, (st, Return (f st)).

Definition modify {number} (f : Store number → Store number) : Method number unit :=
  λ st, (f st, Return tt).

(** JavaScript truthiness of a string that may be [undefined]. *)
Definition truthy (s : option string) : bool :=
  match s with
  | Some s => negb (String.eqb s "")
  | None => false
  end.

Definition DEFAULT_APPROVAL_TTL_MS : Z := 5 * 60 * 1000.

(** Updates of the three parts of the store. *)
Definition set_lifecycles {number} (f : gmap string (ActionLifecycle number) → gmap string (ActionLifecycle number))
    (st : Store number) : Store number :=
  {| lifecycles := f (lifecycles st); signatureIndex := signatureIndex st; events := events st |}.

Definition set_signatureIndex {number} (f : gmap string string → gmap string string)
    (st : Store number) : Store number :=
  {| lifecycles := lifecycles st; signatureIndex := f (signatureIndex st); events := events st |}.

(** [InMemoryEventStore.append]. *)
Definition append {number} (e : Event number) (st : Store number) : Store number :=
  {| lifecycles := lifecycles st; signatureIndex := signatureIndex st; events := events st ++ [e] |}.

(** ** The staged-action store: methods *)

Section ActionStateStore.
Context {number : Type} `{!JsonNumber number}.

(** [ActionStateStore.recordPlan]; [uuid] is what [crypto.randomUUID()]
    returns and [now] what [Date.now()] returns. *)
Definition recordPlan (sessionId tool : string) (payload result : value number)
    (requestedBy : option string) (uuid : string) (now : Z)
    : Method number (ActionStageRecord number) :=
  let actionId := uuid in
  let sig := computeSignature sessionId tool payload in
  let timestamp := now in
  let planRecord :=
    {| actionId := actionId; mode := StagePlan; sessionId := sessionId; tool := tool;
       payload := payload; result := result; timestamp := timestamp;
       metadata := {| requestedBy := requestedBy; approvedBy := None; approvedAt := None;
                      confirmedBy := None; confirmedAt := None; expiresAt := None |} |} in
  let lifecycle :=
    {| lc_actionId := actionId; lc_sessionId := sessionId; lc_tool := tool;
       lc_payload := payload; signature := sig;
       plan := Some planRecord; dryRun := None; confirm := None |} in
  existing ← gets (λ st, signatureIndex st !! sig);
  (if truthy existing
   then modify (set_lifecycles (delete (default "" existing)))
   else mret tt);;
  modify (set_lifecycles <[actionId := lifecycle]>);;
  modify (set_signatureIndex <[sig := actionId]>);;
  modify (append (ActionRecorded StagePlan actionId sessionId tool payload result
                    (metadata planRecord) timestamp));;
  mret planRecord.

(** [ActionStateStore.recordDryRun]. *)
Definition recordDryRun (sessionId tool : string) (payload result : value number)
    (approvedBy : option string) (approvalTtlMs : option Z) (now : Z)
    : Method number (ActionStageRecord number) :=
  let sig := computeSignature sessionId tool payload in
  found ← gets (λ st, signatureIndex st !! sig);
  if negb (truthy found) then throw PlanRequired else
  let actionId := default "" found in
  lifecycle ← gets (λ st, lifecycles st !! actionId);
  match lifecycle with
  | None => throw PlanMetadataMissing
  | Some lifecycle =>
    match plan lifecycle with
    | None => throw PlanMetadataMissing
    | Some planRecord =>
      if negb (String.eqb (lc_sessionId lifecycle) sessionId) then throw SessionMismatch else
      let timestamp := now in
      let expiresAt := timestamp + default DEFAULT_APPROVAL_TTL_MS approvalTtlMs in
      let dryRunRecord :=
        {| actionId := actionId; mode := StageDryRun; sessionId := sessionId; tool := tool;
           payload := payload; result := result; timestamp := timestamp;
           metadata := {| requestedBy := requestedBy (metadata planRecord);
                          approvedBy := approvedBy; approvedAt := Some timestamp;
                          confirmedBy := None; confirmedAt := None;
                          expiresAt := Some expiresAt |} |} in
      let lifecycle' :=
        {| lc_actionId := lc_actionId lifecycle; lc_sessionId := lc_sessionId lifecycle;
           lc_tool := lc_tool lifecycle; lc_payload := payload;
           signature := signature lifecycle; plan := plan lifecycle;
           dryRun := Some dryRunRecord; confirm := confirm lifecycle |} in
      modify (set_lifecycles <[actionId := lifecycle']>);;
      modify (append (ActionRecorded StageDryRun actionId sessionId tool payload result
                        (metadata dryRunRecord) timestamp));;
      mret dryRunRecord
    end
  end.

(** The test [expiresAt && expiresAt < Date.now()] of [validateConfirm]:
    an absent or zero expiry never expires. *)
Definition expired (expiresAt : option Z) (now : Z) : bool :=
  match expiresAt with
  | Some e => negb (e =? 0)%Z && (e <? now)%Z
  | None => false
  end.

(** [ActionStateStore.validateConfirm]. *)
Definition validateConfirm (actionId sessionId tool : string) (payload : value number)
    (now : Z) : Method number (ActionStageRecord number) :=
  lifecycle ← gets (λ st, lifecycles st !! actionId);
  match lifecycle with
  | None => throw UnknownActionRerun
  | Some lifecycle =>
    if negb (String.eqb (lc_tool lifecycle) tool) then throw ToolMismatch else
    if negb (String.eqb (lc_sessionId lifecycle) sessionId) then throw SessionMismatch else
    let expectedSignature := computeSignature sessionId tool payload in
    if negb (String.eqb expectedSignature (signature lifecycle)) then throw PayloadDiffers else
    match dryRun lifecycle with
    | None => throw DryRunRequired
    | Some dryRunRecord =>
      if negb (truthy (approvedBy (metadata dryRunRecord))) then throw NotApproved else
      if expired (expiresAt (metadata dryRunRecord)) now then throw ApprovalExpired else
      if bool_decide (is_Some (confirm lifecycle)) then throw AlreadyConfirmed else
      mret dryRunRecord
    end
  end.

(** [ActionStateStore.recordConfirm]. *)
Definition recordConfirm (actionId sessionId tool : string) (payload result : value number)
    (confirmedBy : option string) (now : Z)
    : Method number (ActionStageRecord number) :=
  lifecycle ← gets (λ st, lifecycles st !! actionId);
  match lifecycle with
  | None => throw UnknownAction
  | Some lifecycle =>
    let timestamp := now in
    let confirmRecord :=
      {| actionId := actionId; mode := StageConfirm; sessionId := sessionId; tool := tool;
         payload := payload; result := result; timestamp := timestamp;
         metadata := {| requestedBy := plan lifecycle ≫= (λ p, requestedBy (metadata p));
                        approvedBy := dryRun lifecycle ≫= (λ d, approvedBy (metadata d));
                        approvedAt := dryRun lifecycle ≫= (λ d, approvedAt (metadata d));
                        confirmedBy := confirmedBy; confirmedAt := Some timestamp;
                        expiresAt := dryRun lifecycle ≫= (λ d, expiresAt (metadata d)) |} |} in
    let lifecycle' :=
      {| lc_actionId := lc_actionId lifecycle; lc_sessionId := lc_sessionId lifecycle;
         lc_tool := lc_tool lifecycle; lc_payload := lc_payload lifecycle;
         signature := signature lifecycle; plan := plan lifecycle;
         dryRun := dryRun lifecycle; confirm := Some confirmRecord |} in
    modify (set_lifecycles <[actionId := lifecycle']>);;
    modify (set_signatureIndex (delete (signature lifecycle)));;
    modify (append (ActionRecorded StageConfirm actionId sessionId tool payload result
                      (metadata confirmRecord) timestamp));;
    mret confirmRecord
  end.
End ActionStateStore.

(** ** Sequences of calls on the store *)

(** A call on the store.  [CallConfirm] is short for [validateConfirm]
    followed at once, when it returned, by [recordConfirm] with the same
    arguments: the confirm branch of a tool of [src/tools.ts] when no other
    call is made on the store while the tool awaits the connector.  The
    calls of executions that overlap are separate steps
    ([CallValidateConfirm], [CallRecordConfirm]) in the order they are
    made. *)
Inductive Call (number : Type) :=
  | CallRecordPlan (sessionId tool : string) (payload result : value number)
      (requestedBy : option string) (uuid : string) (now : Z)
  | CallRecordDryRun (sessionId tool : string) (payload result : value number)
      (approvedBy : option string) (approvalTtlMs : option Z) (now : Z)
  | CallValidateConfirm (actionId sessionId tool : string) (payload : value number) (now : Z)
  | CallRecordConfirm (actionId sessionId tool : string) (payload result : value number)
      (confirmedBy : option string) (now : Z)
  | CallConfirm (actionId sessionId tool : string) (payload result : value number)
      (confirmedBy : option string) (validatedAt recordedAt : Z).

Arguments CallRecordPlan {number} _ _ _ _ _ _ _.
Arguments CallRecordDryRun {number} _ _ _ _ _ _ _.
Arguments CallValidateConfirm {number} _ _ _ _ _.
Arguments CallRecordConfirm {number} _ _ _ _ _ _ _.
Arguments CallConfirm {number} _ _ _ _ _ _ _ _.

Section Calls.
Context {number : Type} `{!JsonNumber number}.

(** The store after a call (at the [throw], if it throws). *)
Definition run_call (call : Call number) (st : Store number) : Store number :=
  match call with
  | CallRecordPlan s t p r by_ uuid now => (recordPlan s t p r by_ uuid now st).1
  | CallRecordDryRun s t p r by_ ttl now => (recordDryRun s t p r by_ ttl now st).1
  | CallValidateConfirm a s t p now => (validateConfirm a s t p now st).1
  | CallRecordConfirm a s t p r by_ now => (recordConfirm a s t p r by_ now st).1
  | CallConfirm a s t p r by_ now1 now2 =>
      match validateConfirm a s t p now1 st with
      | (st', Return _) => (recordConfirm a s t p r by_ now2 st').1
      | (st', Throw _) => st'
      end
  end.

Definition run_calls (calls : list (Call number)) (st : Store number) : Store number :=
  foldl (λ st call, run_call call st) st calls.

(** The stage and the action of every action event of a ledger, in the
    order of the ledger. *)
Definition recorded_stages (log : list (Event number)) : list (ActionStage * string) :=
  omap (λ e, match e with
             | ActionRecorded stage A _ _ _ _ _ _ => Some (stage, A)
             | SessionInitialized _ _ _ => None
             end) log.

(** The confirm stage held under [A], if the lifecycle is held at all. *)
Definition confirm_stage (A : string) (st : Store number)
    : option (ActionStageRecord number) :=
  lifecycles st !! A ≫= confirm.
End Calls.

(** ** The store and the ledger it shares with the host *)

(** A step on the store and its ledger: a call on the store, or an event
    that another part of the host appends to the same ledger. *)
Inductive Step (number : Type) :=
  | Invoke (call : Call number)
  | Log (e : Event number).

Arguments Invoke {number} _.
Arguments Log {number} _.

Section Steps.
Context {number : Type} `{!JsonNumber number}.

Definition run_step (step : Step number) (st : Store number) : Store number :=
  match step with
  | Invoke call => run_call call st
  | Log e => append e st
  end.

Definition run_steps (steps : list (Step number)) (st : Store number) : Store number :=
  foldl (λ st step, run_step step st) st steps.

(** [new ActionStateStore(eventStore)] on a ledger that holds [log]. *)
Definition new_store (log : list (Event number)) : Store number :=
  {| lifecycles := ∅; signatureIndex := ∅; events := log |}.

(** An event that is not one of the three the store appends. *)
Definition foreign (e : Event number) : Prop :=
  match e with
  | ActionRecorded _ _ _ _ _ _ _ _ => False
  | SessionInitialized _ _ _ => True
  end.

(** A step of a run in which every [recordConfirm] is made at once after
    the [validateConfirm] of the same execution has returned, with no other
    call on the store in between; the other parts of the host append events
    of their own. *)
Definition confirms_at_once (step : Step number) : Prop :=
  match step with
  | Invoke (CallRecordConfirm _ _ _ _ _ _ _) => False
  | Invoke _ => True
  | Log e => foreign e
  end.

(** The action a step validates: that of a [validateConfirm] that returns
    on [st]. *)
Definition validates (step : Step number) (st : Store number) : option string :=
  match step with
  | Invoke (CallValidateConfirm a s t p now)
  | Invoke (CallConfirm a s t p _ _ now _) =>
      match (validateConfirm a s t p now st).2 with
      | Return _ => Some a
      | Throw _ => None
      end
  | _ => None
  end.

(** The steps as the tools of [src/tools.ts] make them, however their
    executions overlap: [recordConfirm] is called on an action only after a
    [validateConfirm] on that action has returned, any number of steps
    earlier; the other parts of the host append events of their own.
    [validated] has the actions validated so far. *)
Fixpoint confirms_validated (steps : list (Step number)) (st : Store number)
    (validated : list string) : Prop :=
  match steps with
  | [] => True
  | step :: steps =>
      match step with
      | Invoke (CallRecordConfirm a _ _ _ _ _ _) => a ∈ validated
      | Invoke _ => True
      | Log e => foreign e
      end
      ∧ confirms_validated steps (run_step step st)
          (match validates step st with
           | Some a => a :: validated
           | None => validated
           end)
  end.

(** A step that draws [A] as the identifier of a new plan. *)
Definition draws (A : string) (step : Step number) : Prop :=
  match step with
  | Invoke (CallRecordPlan _ _ _ _ _ uuid _) => uuid = A
  | _ => False
  end.

(** Every identifier [crypto.randomUUID()] gives to [recordPlan] in
    [steps] is non-empty and not held by the store at that time. *)
Fixpoint fresh_uuids (steps : list (Step number)) (st : Store number) : Prop :=
  match steps with
  | [] => True
  | step :: steps =>
      match step with
      | Invoke (CallRecordPlan _ _ _ _ _ uuid _) => uuid ≠ "" ∧ lifecycles st !! uuid = None
      | _ => True
      end
      ∧ fresh_uuids steps (run_step step st)
  end.

(** A step that records a dry_run on the lifecycle [A]: a [recordDryRun]
    that returns a stage record of [A]. *)
Definition renews (A : string) (step : Step number) (st : Store number) : Prop :=
  match step with
  | Invoke (CallRecordDryRun s t p r by_ ttl now) =>
      match (recordDryRun s t p r by_ ttl now st).2 with
      | Return d => actionId d = A
      | Throw _ => False
      end
  | _ => False
  end.

(** No step of [steps], made one after the other from [st], records a
    dry_run on [A]. *)
Fixpoint no_new_dry_run (A : string) (steps : list (Step number)) (st : Store number)
    : Prop :=
  match steps with
  | [] => True
  | step :: steps => ¬ renews A step st ∧ no_new_dry_run A steps (run_step step st)
  end.
End Steps.

(** ** The audit trail in the ledger *)

Section Audit.
Context {number : Type}.

(** Before position [i] the ledger [log] has a plan event and, after it, a
    dry_run event of the action [A], the latter approved by [approver]. *)
Definition approved_before (log : list (Event number)) (i : nat) (A : string)
    (approver : option string) : Prop :=
  ∃ j k s1 t1 p1 r1 m1 ts1 s0 t0 p0 r0 m0 ts0,
    (k < j < i)%nat
    ∧ log !! j = Some (ActionRecorded StageDryRun A s1 t1 p1 r1 m1 ts1)
    ∧ approvedBy m1 = approver
    ∧ log !! k = Some (ActionRecorded StagePlan A s0 t0 p0 r0 m0 ts0).

(** Every confirm event of [log] names a non-empty approver and comes after
    a plan event and a dry_run event of its action with that approver. *)
Definition audited (log : list (Event number)) : Prop :=
  ∀ i A s t p r m ts,
    log !! i = Some (ActionRecorded StageConfirm A s t p r m ts) →
    truthy (approvedBy m) = true ∧ approved_before log i A (approvedBy m).

(** Before position [i] the ledger has a plan event and, after it, a
    dry_run event of the action [A] with a non-empty approver. *)
Definition approval_before (log : list (Event number)) (i : nat) (A : string) : Prop :=
  ∃ approver, truthy approver = true ∧ approved_before log i A approver.

(** Every confirm event of [log] comes after a plan event and an approved
    dry_run event of its action. *)
Definition confirms_approved (log : list (Event number)) : Prop :=
  ∀ i A s t p r m ts,
    log !! i = Some (ActionRecorded StageConfirm A s t p r m ts) →
    approval_before log i A.

(** The ledger has the plan event of every lifecycle the store holds and,
    after it, the event of the dry_run stage the lifecycle has. *)
Definition covered (st : Store number) : Prop :=
  ∀ id lc, lifecycles st !! id = Some lc →
    ∃ k s0 t0 p0 r0 m0 ts0,
      events st !! k = Some (ActionRecorded StagePlan id s0 t0 p0 r0 m0 ts0)
      ∧ ∀ d, dryRun lc = Some d →
          ∃ j s1 t1 p1 r1 ts1,
            (k < j)%nat
            ∧ events st !! j = Some (ActionRecorded StageDryRun id s1 t1 p1 r1 (metadata d) ts1).

(** Every entry of the signature index names a lifecycle the store holds:
    one with that signature and a plan stage, and not yet confirmed. *)
Definition index_sound (st : Store number) : Prop :=
  ∀ sig id, signatureIndex st !! sig = Some id →
    id ≠ ""
    ∧ ∃ lc, lifecycles st !! id = Some lc ∧ signature lc = sig
            ∧ is_Some (plan lc) ∧ confirm lc = None.

End Audit.

(** ** The frame codec and the connection *)

Module WebSocket.

Local Close Scope string_scope.
Local Open Scope Z_scope.

(** [buffer.length]. *)
Definition blength (buffer : list Z) : Z := Z.of_nat (length buffer).

(** The elements of a [Buffer] are bytes. *)
Definition is_bytes (buffer : list Z) : Prop := Forall (λ b, 0 ≤ b < 256) buffer.

(** [buffer[i]], read where the source has checked the length. *)
Definition byte (buffer : list Z) (i : Z) : Z := nth (Z.to_nat i) buffer 0.

(** [buffer.subarray(start, end)] for [0 <= start]; both bounds are clamped
    to the length of the buffer. *)
Definition subarray (buffer : list Z) (start stop : Z) : list Z :=
  take (Z.to_nat (stop - start)) (drop (Z.to_nat start) buffer).

(** [buffer.subarray(start)]. *)
Definition subarray_from (buffer : list Z) (start : Z) : list Z :=
  drop (Z.to_nat start) buffer.

Definition readUInt16BE (buffer : list Z) (offset : Z) : Z :=
  byte buffer offset * 2 ^ 8 + byte buffer (offset + 1).

Definition readUInt32BE (buffer : list Z) (offset : Z) : Z :=
  byte buffer offset * 2 ^ 24 + byte buffer (offset + 1) * 2 ^ 16
  + byte buffer (offset + 2) * 2 ^ 8 + byte buffer (offset + 3).

(** The two bytes [writeUInt16BE(value, _)] stores. *)
Definition writeUInt16BE (value : Z) : list Z :=
  [Z.land (Z.shiftr value 8) 0xff; Z.land value 0xff].

(** The four bytes [writeUInt32BE(value, _)] stores, for a value below
    [2 ^ 32]; the runtime raises a RangeError above. *)
Definition writeUInt32BE (value : Z) : list Z :=
  [Z.land (Z.shiftr value 24) 0xff; Z.land (Z.shiftr value 16) 0xff;
   Z.land (Z.shiftr value 8) 0xff; Z.land value 0xff].

Record DecodedFrame := {
  fin : bool;
  opcode : Z;
  payload : list Z;
  totalLength : Z;
}.

(** What [decodeFrame] gives: a frame, [null], or the error it throws. *)
Inductive Decoded :=
  | Frame (frame : DecodedFrame)
  | Null
  | FrameTooLarge.

(** [applyMask]. *)
Definition applyMask (buffer mask : list Z) : list Z :=
  imap (λ i b, Z.lxor b (nth (i mod 4)%nat mask 0)) buffer.

(** The last part of [decodeFrame], once the length field is read. *)
Definition decodePayload (buffer : list Z) (fin : bool) (opcode : Z) (masked : bool)
    (payloadLength offset : Z) : Decoded :=
  if masked then
    if blength buffer <? offset + 4 then Null else
    let maskingKey := subarray buffer offset (offset + 4) in
    let offset := offset + 4 in
    if blength buffer <? offset + payloadLength then Null else
    Frame {| fin := fin; opcode := opcode;
             payload := applyMask (subarray buffer offset (offset + payloadLength)) maskingKey;
             totalLength := offset + payloadLength |}
  else
    if blength buffer <? offset + payloadLength then Null else
    Frame {| fin := fin; opcode := opcode;
             payload := subarray buffer offset (offset + payloadLength);
             totalLength := offset + payloadLength |}.

(** [decodeFrame]. *)
Definition decodeFrame (buffer : list Z) : Decoded :=
  if blength buffer <? 2 then Null else
  let firstByte := byte buffer 0 in
  let secondByte := byte buffer 1 in
  let fin := negb (Z.land firstByte 0x80 =? 0)%Z in
  let opcode := Z.land firstByte 0x0f in
  let masked := negb (Z.land secondByte 0x80 =? 0)%Z in
  let payloadLength := Z.land secondByte 0x7f in
  let offset := 2 in
  if (payloadLength =? 126)%Z then
    if blength buffer <? offset + 2 then Null else
    decodePayload buffer fin opcode masked (readUInt16BE buffer offset) (offset + 2)
  else if (payloadLength =? 127)%Z then
    if blength buffer <? offset + 8 then Null else
    let high := readUInt32BE buffer offset in
    let low := readUInt32BE buffer (offset + 4) in
    if negb (high =? 0)%Z then FrameTooLarge else
    decodePayload buffer fin opcode masked low (offset + 8)
  else decodePayload buffer fin opcode masked payloadLength offset.

(** [encodeFrame]. *)
Definition encodeFrame (payload : list Z) (opcode : Z) : list Z :=
  let fin := 0x80 in
  let firstByte := Z.lor fin (Z.land opcode 0x0f) in
  let '(lengthByte, extendedLength) :=
    if blength payload <? 126 then (blength payload, None)
    else if blength payload <? 65536 then (126, Some (writeUInt16BE (blength payload)))
    else (127, Some (writeUInt32BE 0 ++ writeUInt32BE (blength payload))) in
  let secondByte := lengthByte in
  let baseHeader := [firstByte; secondByte] in
  let header :=
    match extendedLength with
    | Some extended => baseHeader ++ extended
    | None => baseHeader
    end in
  header ++ payload.

(** [decodeCloseFrame]: the status code and the bytes of the reason. *)
Definition decodeCloseFrame (payload : list Z) : Z * list Z :=
  if blength payload <? 2 then (1005, [])
  else (readUInt16BE payload 0, if 2 <? blength payload then subarray_from payload 2 else []).

(** The bytes of a string of the source, one per character. *)
Fixpoint utf8 (s : string) : list Z :=
  match s with
  | EmptyString => []
  | String c rest => Z.of_N (N_of_ascii c) :: utf8 rest
  end.

(** Events a connection emits to its listeners.  In [handleData] the text
    of a message stands for the payload [toString('utf8')] is given (the
    text itself on a payload of bytes below 128); [handleData_heard] takes
    the decoding as [toString]. *)
Inductive ConnectionEvent :=
  | Message (text : list Z)
  | Closed (code : Z) (reason : list Z).

(** A [WebSocketConnection] with the socket it owns: the buffers given to
    [socket.write] in order, whether [socket.end] was called, and the
    events given to [emit] in order.  The listeners of [emit] are the
    host's; they neither read nor write [buffer] and [closed].  [emit],
    [dispatch], [drain] and [handleData] below are the connection on its
    own, with listeners that return without calling [send]; what the
    listeners of the host add (answers written through [send], an
    exception that ends [handleData]) is in [emit_message],
    [dispatch_heard], [drain_heard] and [handleData_heard]. *)
Record Connection := {
  buffer : list Z;
  closed : bool;
  written : list (list Z);
  ended : bool;
  emitted : list ConnectionEvent;
}.

Definition set_buffer (b : list Z) (c : Connection) : Connection :=
  {| buffer := b; closed := closed c; written := written c; ended := ended c;
     emitted := emitted c |}.

Definition socket_write (data : list Z) (c : Connection) : Connection :=
  {| buffer := buffer c; closed := closed c; written := written c ++ [data];
     ended := ended c; emitted := emitted c |}.

Definition socket_end (c : Connection) : Connection :=
  {| buffer := buffer c; closed := closed c; written := written c; ended := true;
     emitted := emitted c |}.

Definition set_closed (c : Connection) : Connection :=
  {| buffer := buffer c; closed := true; written := written c; ended := ended c;
     emitted := emitted c |}.

Definition emit (e : ConnectionEvent) (c : Connection) : Connection :=
  {| buffer := buffer c; closed := closed c; written := written c; ended := ended c;
     emitted := emitted c ++ [e] |}.

(** [WebSocketConnection.send]. *)
Definition send (data : list Z) (c : Connection) : Connection :=
  if closed c then c else socket_write (encodeFrame data 0x1) c.

(** Whether [WebSocketConnection.close] throws: on an open connection
    [payload.writeUInt16BE(code, 0)] raises a RangeError for a code outside
    0..65535. *)
Definition close_throws (code : Z) (c : Connection) : bool :=
  negb (closed c) && negb ((0 <=? code)%Z && (code <? 65536)%Z).

(** [WebSocketConnection.close]; the socket is ended from the callback of
    the write.  When [writeUInt16BE] throws ([close_throws]), nothing was
    written and [closed] was not set: the connection is as it was. *)
Definition close (code : Z) (reason : string) (c : Connection) : Connection :=
  if closed c then c else
  if negb ((0 <=? code)%Z && (code <? 65536)%Z) then c else
  let payload := writeUInt16BE code ++ utf8 reason in
  let frame := encodeFrame payload 0x8 in
  set_closed (socket_end (socket_write frame c)).

(** How a call of [handleData] ends: the loop ran out of complete frames
    ([break]), the handler returned from inside the loop, [decodeFrame]
    threw, or the model's fuel ran out ([loop_fuel] excludes it). *)
Inductive Exit := Drained | Returned | Threw | OutOfFuel.

(** The [switch (frame.opcode)] of [handleData], after the buffer is
    trimmed: the connection after the case, and whether the loop goes on
    ([true], the case ended in [break]) or the handler returns. *)
Definition dispatch (frame : DecodedFrame) (c : Connection) : Connection * bool :=
  if (opcode frame =? 0x1)%Z then
    if negb (fin frame)
    then (close 1003 "Fragmented frames are not supported"%string c, false)
    else (emit (Message (payload frame)) c, true)
  else if (opcode frame =? 0x8)%Z then
    let '(code, reason) := decodeCloseFrame (payload frame) in
    (socket_end (set_closed (emit (Closed code reason) c)), false)
  else if (opcode frame =? 0x9)%Z then
    (socket_write (encodeFrame (payload frame) 0xA) c, true)
  else if (opcode frame =? 0xA)%Z then
    (c, true)
  else (close 1003 "Unsupported WebSocket opcode"%string c, false).

(** The [while (true)] loop of [handleData]. *)
Fixpoint drain (fuel : nat) (c : Connection) : Connection * Exit :=
  match fuel with
  | O => (c, OutOfFuel)
  | S fuel =>
    match decodeFrame (buffer c) with
    | Null => (c, Drained)
    | FrameTooLarge => (c, Threw)
    | Frame frame =>
      let c := set_buffer (subarray_from (buffer c) (totalLength frame)) c in
      match dispatch frame c with
      | (c, true) => drain fuel c
      | (c, false) => (c, Returned)
      end
    end
  end.

(** The loop with the fuel it needs: every decoded frame takes at least
    two bytes off the buffer, so its length bounds the iterations. *)
Definition loop (c : Connection) : Connection * Exit :=
  drain (S (length (buffer c))) c.

(** [WebSocketConnection.handleData]. *)
Definition handleData (chunk : list Z) (c : Connection) : Connection * Exit :=
  loop (set_buffer (buffer c ++ chunk) c).

(** The socket's [data] events one after the other: [handleData] is called
    for each chunk on the connection the previous call left; nothing in
    [handleData] looks at [closed] before it decodes. *)
Fixpoint feed (chunks : list (list Z)) (c : Connection) : Connection :=
  match chunks with
  | [] => c
  | chunk :: rest => feed rest (handleData chunk c).1
  end.

(** A connection as its constructor leaves it. *)
Definition fresh : Connection :=
  {| buffer := []; closed := false; written := []; ended := false; emitted := [] |}.

(** [WebSocketConnection.handleSocketEnd]. *)
Definition handleSocketEnd (c : Connection) : Connection :=
  if closed c then c
  else emit (Closed 1006 (utf8 "Socket closed unexpectedly")) (set_closed c).

(** *** The connection with the listeners of the host

    [emit] calls the listeners registered with [on] one after the other
    and has no [try]: a listener that throws ends [emit] and, with it, the
    method that called it.  The host registers one listener for each event
    ([handleUpgrade]).  Its 'message' listener, [handleIncomingMessage], is
    given [payload.toString('utf8')], answers through [connection.send]
    and can throw; its 'close' listener, [handleSessionClosed], sends
    nothing.  [L] is what the listeners close over (the host and its
    session); a listener gives the state it leaves, the data it passed to
    [send] in order, and whether it then threw. *)
Section Listeners.
Context {L : Type}.

(** The UTF-16 code units of [payload.toString('utf8')]. *)
Variable toString : list Z → list Z.
Variable on_message : list Z → L → L * list (list Z) * bool.
Variable on_close : Z → list Z → L → L * bool.

(** [this.emit('message', text)]: the event, then the [send]s of the
    listener on the connection as it is. *)
Definition emit_message (text : list Z) (l : L) (c : Connection) : L * Connection * bool :=
  let '(l', sent, throws) := on_message text l in
  (l', foldl (λ c data, send data c) (emit (Message text) c) sent, throws).

(** [this.emit('close', { code, reason })]. *)
Definition emit_close (code : Z) (reason : list Z) (l : L) (c : Connection)
    : L * Connection * bool :=
  let '(l', throws) := on_close code reason l in (l', emit (Closed code reason) c, throws).

(** The [switch (frame.opcode)] of [handleData] with the listeners: [None]
    when the case ends in [break], the way the handler is left otherwise. *)
Definition dispatch_heard (frame : DecodedFrame) (l : L) (c : Connection)
    : L * Connection * option Exit :=
  if (opcode frame =? 0x1)%Z then
    if negb (fin frame)
    then (l, close 1003 "Fragmented frames are not supported"%string c, Some Returned)
    else
      let '(l', c', throws) := emit_message (toString (payload frame)) l c in
      (l', c', if throws then Some Threw else None)
  else if (opcode frame =? 0x8)%Z then
    let '(code, reason) := decodeCloseFrame (payload frame) in
    let '(l', c', throws) := emit_close code (toString reason) l c in
    if throws then (l', c', Some Threw)
    else (l', socket_end (set_closed c'), Some Returned)
  else if (opcode frame =? 0x9)%Z then
    (l, socket_write (encodeFrame (payload frame) 0xA) c, None)
  else if (opcode frame =? 0xA)%Z then
    (l, c, None)
  else (l, close 1003 "Unsupported WebSocket opcode"%string c, Some Returned).

(** The [while (true)] loop of [handleData] with the listeners. *)
Fixpoint drain_heard (fuel : nat) (l : L) (c : Connection) : L * Connection * Exit :=
  match fuel with
  | O => (l, c, OutOfFuel)
  | S fuel =>
    match decodeFrame (buffer c) with
    | Null => (l, c, Drained)
    | FrameTooLarge => (l, c, Threw)
    | Frame frame =>
      let c := set_buffer (subarray_from (buffer c) (totalLength frame)) c in
      match dispatch_heard frame l c with
      | (l, c, None) => drain_heard fuel l c
      | (l, c, Some exit) => (l, c, exit)
      end
    end
  end.

(** [WebSocketConnection.handleData] with the listeners, with the fuel of
    [loop]. *)
Definition handleData_heard (chunk : list Z) (l : L) (c : Connection)
    : L * Connection * Exit :=
  drain_heard (S (length (buffer c ++ chunk))) l (set_buffer (buffer c ++ chunk) c).

(** Whole text, ping and pong frames taken one after the other, as
    [handleData] is meant to treat them: a text is emitted, a ping is
    answered by a pong with its payload, a pong is ignored; a listener that
    throws stops the run.  The result has the frames not handled and
    whether a listener threw. *)
Fixpoint handled (frames : list (Z * list Z)) (l : L) (c : Connection)
    : L * Connection * list (Z * list Z) * bool :=
  match frames with
  | [] => (l, c, [], false)
  | (op, p) :: rest =>
    if (op =? 0x1)%Z then
      let '(l', c', throws) := emit_message (toString p) l c in
      if throws then (l', c', rest, true) else handled rest l' c'
    else if (op =? 0x9)%Z then handled rest l (socket_write (encodeFrame p 0xA) c)
    else handled rest l c
  end.

End Listeners.

End WebSocket.

(** ** The host: sessions and [initialize] *)

Module Host.

(** A registered tool, as the catalogue shows it ([execute] left out). *)
Record Tool (number : Type) := {
  name : string;
  description : string;
  inputSchema : value number;
}.

Arguments name {number} _.
Arguments description {number} _.
Arguments inputSchema {number} _.

(** A parsed request that passed the envelope test of
    [handleIncomingMessage]; an absent [id] or [params] is [None]. *)
Record JsonRpcRequest (number : Type) := {
  id : option (value number);
  method : string;
  params : option (value number);
}.

Arguments id {number} _.
Arguments method {number} _.
Arguments params {number} _.

(** The objects [sendResponse] and [sendError] serialise and hand to
    [connection.send]. *)
Inductive Outgoing (number : Type) :=
  | Response (id result : value number)
  | ErrorResponse (id : value number) (code : Z) (message : string).

Arguments Response {number} _ _.
Arguments ErrorResponse {number} _ _ _.

(** A session; [outbox] lists what was handed to its connection's [send],
    oldest first. *)
Record Session (number : Type) := {
  session_id : string;
  initialized : bool;
  clientInfo : option (value number);
  outbox : list (Outgoing number);
}.

Arguments session_id {number} _.
Arguments initialized {number} _.
Arguments clientInfo {number} _.
Arguments outbox {number} _.

Section Initialize.
Context {number : Type}.

(** [message.id ?? null]. *)
Definition id_or_null (message : JsonRpcRequest number) : value number :=
  default JNull (id message).

(** [message.params?.client ?? null]: only an object has properties of
    its own. *)
Definition client_or_null (message : JsonRpcRequest number) : value number :=
  match params message with
  | Some (JObject entries) => default JNull (property "client" entries)
  | _ => JNull
  end.

Definition sendResponse (id result : value number) (session : Session number) : Session number :=
  {| session_id := session_id session; initialized := initialized session;
     clientInfo := clientInfo session;
     outbox := (outbox session ++ [Response id result])%list |}.

Definition sendError (id : value number) (code : Z) (message : string)
    (session : Session number) : Session number :=
  {| session_id := session_id session; initialized := initialized session;
     clientInfo := clientInfo session;
     outbox := (outbox session ++ [ErrorResponse id code message])%list |}.

(** One entry of the catalogue: name, description and schema only. *)
Definition catalogue_entry (tool : Tool number) : value number :=
  JObject [("name", JString (name tool)); ("description", JString (description tool));
           ("inputSchema", inputSchema tool)].

(** The result of a successful [initialize]. *)
Definition initialize_result (tools : list (Tool number)) : value number :=
  JObject
    [("protocolVersion", JString "2024-05-22");
     ("capabilities",
       JObject [("tools", JObject [("list", JBool true); ("call", JBool true);
                                  ("streaming", JBool true)])]);
     ("tools", JArray (map catalogue_entry tools))].

(** [Host.handleInitialize] on the registry's tools (in insertion order),
    a session and the ledger. *)
Definition handleInitialize (tools : list (Tool number)) (message : JsonRpcRequest number)
    (now : Z) (state : Session number * list (Event number))
    : Session number * list (Event number) :=
  let '(session, ledger) := state in
  if initialized session then
    (sendError (id_or_null message) (-32600) "Session already initialized" session, ledger)
  else
    let session :=
      {| session_id := session_id session; initialized := true;
         clientInfo := Some (client_or_null message); outbox := outbox session |} in
    let ledger :=
      (ledger ++ [SessionInitialized (session_id session) (client_or_null message) now])%list in
    (sendResponse (id_or_null message) (initialize_result tools) session, ledger).

(** [initialize] requests handled one after the other, each with the clock
    reading of its arrival. *)
Fixpoint initialize_all (tools : list (Tool number))
    (requests : list (JsonRpcRequest number * Z))
    (state : Session number * list (Event number))
    : Session number * list (Event number) :=
  match requests with
  | [] => state
  | (message, now) :: rest =>
      initialize_all tools rest (handleInitialize tools message now state)
  end.

End Initialize.

End Host.

(** ** The dispatcher of the host *)

Module Dispatch.
Import Host.

(** *** [ToolRegistry] *)

Section Registry.
Context {number : Type}.

(** [Map.prototype.set] on the entries of the map, in insertion order: the
    value of a key the map has is replaced where it stands, a new key goes
    to the end. *)
Fixpoint set (tool : Tool number) (tools : list (Tool number)) : list (Tool number) :=
  match tools with
  | [] => [tool]
  | t :: rest =>
      if String.eqb (name t) (name tool) then tool :: rest else t :: set tool rest
  end.

(** [ToolRegistry.add]. *)
Definition add (new : list (Tool number)) (tools : list (Tool number)) : list (Tool number) :=
  foldl (λ tools tool, set tool tools) tools new.

(** [ToolRegistry.get]. *)
Definition get (toolName : string) (tools : list (Tool number)) : option (Tool number) :=
  List.find (λ t, String.eqb (name t) toolName) tools.
End Registry.

(** *** Messages, events and the state of a session *)

(** What is handed to [connection.send], before [JSON.stringify]: the
    payload of [sendResponse], of [sendError] (with the [data] of the
    error, if any) and of [sendNotification]. *)
Inductive Wire (number : Type) :=
  | Response (id result : value number)
  | Error (id : value number) (code : Z) (message : string) (data : option (value number))
  | Notification (method : string) (params : value number).

Arguments Response {number} _ _.
Arguments Error {number} _ _ _ _.
Arguments Notification {number} _ _.

(** The events the dispatcher appends to the ledger. *)
Inductive HostEvent (number : Type) :=
  | SessionInitialized (sessionId : string) (client : value number) (timestamp : Z)
  | ToolInvocationStarted (sessionId tool invocationId : string) (arguments : value number)
      (timestamp : Z)
  | ToolInvocationCompleted (sessionId tool invocationId : string) (timestamp : Z)
  | ToolInvocationFailed (sessionId tool invocationId error : string) (timestamp : Z).

Arguments SessionInitialized {number} _ _ _.
Arguments ToolInvocationStarted {number} _ _ _ _ _.
Arguments ToolInvocationCompleted {number} _ _ _ _.
Arguments ToolInvocationFailed {number} _ _ _ _ _.

(** A session with what was sent on its connection and the ledger, both
    oldest first. *)
Record State (number : Type) := {
  peer_id : string;
  peer_initialized : bool;
  peer_clientInfo : option (value number);
  sent : list (Wire number);
  ledger : list (HostEvent number);
}.

Arguments peer_id {number} _.
Arguments peer_initialized {number} _.
Arguments peer_clientInfo {number} _.
Arguments sent {number} _.
Arguments ledger {number} _.

(** A call of [tool.execute] that [handleCallTool] has made: the tool, the
    arguments and the context it was given, and the identifiers under which
    its end is reported. *)
Record Invocation (number : Type) := {
  invoked : Tool number;
  arguments : value number;
  context_sessionId : string;
  context_clientInfo : option (value number);
  request_id : value number;
  invocationId : string;
}.

Arguments invoked {number} _.
Arguments arguments {number} _.
Arguments context_sessionId {number} _.
Arguments context_clientInfo {number} _.
Arguments request_id {number} _.
Arguments invocationId {number} _.

(** What [handleIncomingMessage] does: it returns, having started a tool
    or not, or it throws a [TypeError]. *)
Inductive Handled (number : Type) :=
  | Returned (state : State number) (started : option (Invocation number))
  | TypeError.

Arguments Returned {number} _ _.
Arguments TypeError {number}.

(** How [tool.execute] ends: with a value; with an iterator that yields
    chunks and then ends or throws; or by throwing. *)
Inductive ToolOutcome (number : Type) :=
  | Resolved (result : value number)
  | Iterated (chunks : list (value number)) (thrown : option string)
  | Rejected (message : string).

Arguments Resolved {number} _.
Arguments Iterated {number} _ _.
Arguments Rejected {number} _.

Section Dispatcher.
Context {number : Type} `{!JsonNumber number}.

Definition send (wire : Wire number) (state : State number) : State number :=
  {| peer_id := peer_id state; peer_initialized := peer_initialized state;
     peer_clientInfo := peer_clientInfo state;
     sent := (sent state ++ [wire])%list; ledger := ledger state |}.

Definition log (event : HostEvent number) (state : State number) : State number :=
  {| peer_id := peer_id state; peer_initialized := peer_initialized state;
     peer_clientInfo := peer_clientInfo state;
     sent := sent state; ledger := (ledger state ++ [event])%list |}.

Definition sendResponse (id result : value number) : State number → State number :=
  send (Response id result).

Definition sendError (id : value number) (code : Z) (message : string)
    (data : option (value number)) : State number → State number :=
  send (Error id code message data).

Definition sendNotification (method : string) (params : value number)
    : State number → State number :=
  send (Notification method params).

(** The catalogue [handleInitialize] and [handleListTools] send. *)
Definition catalogue (tools : list (Tool number)) : value number :=
  JArray (map catalogue_entry tools).

(** [Host.handleInitialize] on the state of the dispatcher. *)
Definition handleInitialize (tools : list (Tool number)) (message : JsonRpcRequest number)
    (now : Z) (state : State number) : State number :=
  if peer_initialized state then
    sendError (id_or_null message) (-32600) "Session already initialized" None state
  else
    let state :=
      {| peer_id := peer_id state; peer_initialized := true;
         peer_clientInfo := Some (client_or_null message);
         sent := sent state; ledger := ledger state |} in
    let state := log (SessionInitialized (peer_id state) (client_or_null message) now) state in
    sendResponse (id_or_null message) (initialize_result tools) state.

(** [Host.handleListTools]. *)
Definition handleListTools (tools : list (Tool number)) (message : JsonRpcRequest number)
    (state : State number) : State number :=
  if negb (peer_initialized state) then
    sendError (id_or_null message) (-32001) "Session not initialized" None state
  else
    sendResponse (id_or_null message) (JObject [("tools", catalogue tools)]) state.

(** [String(id)] on a value that is not a string. *)
Fixpoint to_string (v : value number) : string :=
  match v with
  | JNull => "null"
  | JBool b => if b then "true" else "false"
  | JNumber n => stringifyNumber n
  | JString s => s
  | JArray items =>
      join "," (map (λ x, match x with JNull => "" | _ => to_string x end) items)
  | JObject _ => "[object Object]"
  end.

(** [message.params?.name] and [message.params?.arguments]: only an object
    has these properties. *)
Definition param (key : string) (message : JsonRpcRequest number) : option (value number) :=
  match params message with
  | Some (JObject entries) => property key entries
  | _ => None
  end.

(** [Host.handleCallTool], up to the call of [tool.execute]. *)
Definition handleCallTool (tools : list (Tool number)) (message : JsonRpcRequest number)
    (now : Z) (state : State number) : State number * option (Invocation number) :=
  if negb (peer_initialized state) then
    (sendError (id_or_null message) (-32001) "Session not initialized" None state, None)
  else
    let id := id_or_null message in
    match id with
    | JNull =>
        (sendError JNull (-32600) "Tool invocation requires a request id" None state, None)
    | _ =>
      match param "name" message with
      | Some (JString toolName) =>
        match get toolName tools with
        | None =>
            (sendError id (-32601) ("Unknown tool: " +:+ toolName) None state, None)
        | Some tool =>
            let invocationId := match id with JString s => s | _ => to_string id end in
            let args :=
              match param "arguments" message with
              | None | Some JNull => JObject []
              | Some args => args
              end in
            (log (ToolInvocationStarted (peer_id state) (name tool) invocationId args now)
               state,
             Some {| invoked := tool; arguments := args;
                     context_sessionId := peer_id state;
                     context_clientInfo := peer_clientInfo state;
                     request_id := id; invocationId := invocationId |})
        end
      | _ => (sendError id (-32602) "Missing tool name" None state, None)
      end
    end.

(** The [switch] of [handleIncomingMessage] on a request that passed the
    envelope test. *)
Definition route (tools : list (Tool number)) (message : JsonRpcRequest number)
    (now : Z) (state : State number) : State number * option (Invocation number) :=
  if String.eqb (method message) "initialize" then
    (handleInitialize tools message now state, None)
  else if String.eqb (method message) "tools/list" then
    (handleListTools tools message state, None)
  else if String.eqb (method message) "tools/call" then
    handleCallTool tools message now state
  else if String.eqb (method message) "ping" then
    (sendResponse (id_or_null message) (JObject [("pong", JBool true)]) state, None)
  else
    (sendError (id_or_null message) (-32601) ("Method not found: " +:+ method message) None
       state, None).

(** [Host.handleIncomingMessage]; [parsed] is what [JSON.parse(raw)] gives,
    [None] when it throws. *)
Definition handleIncomingMessage (tools : list (Tool number)) (raw : string)
    (parsed : option (value number)) (now : Z) (state : State number) : Handled number :=
  match parsed with
  | None =>
      Returned
        (sendError JNull (-32700) "Invalid JSON received from client"
           (Some (JObject [("raw", JString raw)])) state)
        None
  | Some JNull => TypeError
  | Some (JObject entries) =>
      match property "jsonrpc" entries, property "method" entries with
      | Some (JString version), Some (JString method) =>
          if String.eqb version "2.0" then
            let '(state, started) :=
              route tools
                {| id := property "id" entries; method := method;
                   params := property "params" entries |}
                now state in
            Returned state started
          else
            Returned
              (sendError (default JNull (property "id" entries)) (-32600) "Invalid request"
                 None state)
              None
      | _, _ =>
          Returned
            (sendError (default JNull (property "id" entries)) (-32600) "Invalid request"
               None state)
            None
      end
  | Some _ => Returned (sendError JNull (-32600) "Invalid request" None state) None
  end.

Definition stream (invocation : Invocation number) (chunks : list (value number))
    (state : State number) : State number :=
  foldl
    (λ state chunk,
       sendNotification "tools/stream"
         (JObject [("invocationId", JString (invocationId invocation)); ("chunk", chunk)])
         state)
    state chunks.

(** The end of the [try] block. *)
Definition completed (invocation : Invocation number) (now : Z) (state : State number)
    : State number :=
  log (ToolInvocationCompleted (context_sessionId invocation) (name (invoked invocation))
         (invocationId invocation) now)
    state.

(** The [catch] of the invocation. *)
Definition failed (invocation : Invocation number) (message : string) (now : Z)
    (state : State number) : State number :=
  sendError (request_id invocation) (-32000) message None
    (log (ToolInvocationFailed (context_sessionId invocation) (name (invoked invocation))
            (invocationId invocation) message now)
       state).

(** The branch of a result with [isAsyncIterable(result) ||
    isStreamableIterable(result)]: the chunks are sent as they are yielded,
    until the iterator ends or throws. *)
Definition streaming (invocation : Invocation number) (chunks : list (value number))
    (thrown : option string) (now : Z) (state : State number) : State number :=
  let state := stream invocation chunks state in
  match thrown with
  | None =>
      completed invocation now
        (sendResponse (request_id invocation)
           (JObject [("status", JString "completed"); ("streamed", JBool true)]) state)
  | Some message => failed invocation message now state
  end.

(** The rest of [Host.handleCallTool], once [tool.execute] has ended with
    [outcome].  Of the values a tool returns, the arrays are iterable. *)
Definition complete (invocation : Invocation number) (outcome : ToolOutcome number)
    (now : Z) (state : State number) : State number :=
  match outcome with
  | Resolved (JArray items) => streaming invocation items None now state
  | Iterated chunks thrown => streaming invocation chunks thrown now state
  | Resolved result =>
      completed invocation now
        (sendResponse (request_id invocation)
           (JObject [("status", JString "completed"); ("result", result)]) state)
  | Rejected message => failed invocation message now state
  end.


(** The [id] of a payload that answers a request. *)
Definition answers (wire : Wire number) : option (value number) :=
  match wire with
  | Response id _ => Some id
  | Error id _ _ _ => Some id
  | Notification _ _ => None
  end.

(** [message.id ?? null] on what [JSON.parse] gave. *)
Definition id_of (parsed : option (value number)) : value number :=
  match parsed with
  | Some (JObject entries) => default JNull (property "id" entries)
  | _ => JNull
  end.
End Dispatcher.

End Dispatch.

(** ** The tools of [src/tools.ts] *)

Module Tools.

(** *** The tables of [src/config.ts] *)

(** [ALLOWED_MODELS]: for each model its fields and whether it is writable,
    in the order of the object literal. *)
Definition ALLOWED_MODELS : list (string * (list string * bool)) :=
  [("res.partner",
     (["id"; "name"; "display_name"; "email"; "phone"; "mobile"; "company_name"; "type";
       "street"; "city"; "zip"; "country_id"; "is_company"; "parent_id"; "category_id"],
      true));
   ("sale.order",
     (["id"; "name"; "state"; "partner_id"; "amount_total"; "currency_id"; "date_order";
       "team_id"; "company_id"; "user_id"],
      true));
   ("account.move",
     (["id"; "name"; "state"; "move_type"; "partner_id"; "invoice_date"; "amount_total";
       "currency_id"; "payment_state"; "company_id"],
      false));
   ("product.product",
     (["id"; "name"; "list_price"; "standard_price"; "type"; "categ_id"; "uom_id";
       "company_id"; "default_code"],
      false));
   ("stock.picking",
     (["id"; "name"; "state"; "partner_id"; "scheduled_date"; "picking_type_id";
       "location_id"; "location_dest_id"; "company_id"],
      false));
   ("mrp.production",
     (["id"; "name"; "state"; "product_id"; "product_qty"; "date_planned_start";
       "date_planned_finished"; "company_id"],
      false))].

Definition PII_FIELDS : list string :=
  ["email"; "phone"; "mobile"; "street"; "street2"; "zip"; "city"].

(** [Object.keys(ALLOWED_MODELS)]. *)
Definition SAFE_MODELS : list string := keys ALLOWED_MODELS.

(** [ALLOWED_MODELS[model].writable], for a model of the table. *)
Definition writable (model : string) : bool :=
  match property model ALLOWED_MODELS with
  | Some (_, w) => w
  | None => false
  end.

Definition WRITABLE_MODELS : list string := List.filter writable SAFE_MODELS.

Definition EXECUTION_MODES : list string := ["plan"; "dry_run"; "confirm"].

(** *** The helpers *)

(** What a function that may throw gives: its value, or the message of the
    [Error] it throws. *)
Inductive Result (A : Type) :=
  | Ok (a : A)
  | Thrown (message : string).

Arguments Ok {A} a.
Arguments Thrown {A} message.

#[global] Instance result_ret : MRet Result := λ A a, Ok a.

#[global] Instance result_bind : MBind Result :=
  λ A B k m,
    match m with
    | Ok a => k a
    | Thrown message => Thrown message
    end.

(** [Array.prototype.includes] on an array of strings. *)
Definition includes (xs : list string) (x : string) : bool := bool_decide (x ∈ xs).

Definition assertModelAllowed (model : string) : Result unit :=
  if includes SAFE_MODELS model then Ok tt
  else Thrown ("Model " +:+ String dquote model +:+ String dquote " is not in the whitelist.").

Definition assertModelWritable (model : string) : Result unit :=
  if includes WRITABLE_MODELS model then Ok tt
  else Thrown ("Model " +:+ String dquote model +:+
               String dquote " is not allowed for write operations.").

Definition assertExecutionMode (mode : string) : Result unit :=
  if includes EXECUTION_MODES mode then Ok tt
  else Thrown ("Execution mode must be one of: " +:+ join ", " EXECUTION_MODES).

(** [String.prototype.repeat]. *)
Fixpoint string_repeat (s : string) (count : nat) : string :=
  match count with
  | O => ""
  | S count => s +:+ string_repeat s count
  end.

(** [maskString]; a string is the sequence of its code units. *)
Definition maskString (value : string) : string :=
  if (String.length value <=? 2)%nat then string_repeat "*" (String.length value)
  else
    let visiblePrefix := substring 0 1 value in
    let visibleSuffix := substring (String.length value - 1) 1 value in
    visiblePrefix +:+ string_repeat "*" (Nat.max (String.length value - 2) 1)
      +:+ visibleSuffix.

Section Values.
Context {number : Type}.

(** [sanitizeValues]; [values] is [None] when the input has no such
    property.  Every caller has checked the model with
    [assertModelAllowed]; for a model that is not a key of the table the
    read of [fields] fails. *)
Definition sanitizeValues (model : string) (values : option (value number))
    : Result (value number) :=
  match values with
  | Some (JObject entries) =>
      match property model ALLOWED_MODELS with
      | None => Thrown "Cannot read properties of undefined (reading 'fields')"
      | Some (allowedFields, _) =>
          let sanitizedEntries := List.filter (λ e, includes allowedFields e.1) entries in
          if (length sanitizedEntries =? 0)%nat
          then Thrown ("No allowed fields provided for model " +:+ model +:+ ".")
          else Ok (JObject sanitizedEntries)
      end
  | _ => Thrown "Values must be provided as an object."
  end.

(** [maskValue].  On an object it calls [maskRecord], whose object case is
    written out here ([maskValue_object] states the call). *)
Fixpoint maskValue (key : string) (v : value number) : value number :=
  match v with
  | JNull => v
  | JArray items => JArray (map (maskValue key) items)
  | JObject entries => JObject (map (λ e, (e.1, maskValue e.1 e.2)) entries)
  | JString s => if includes PII_FIELDS key then JString (maskString s) else v
  | _ => v
  end.

(** [maskRecord]. *)
Fixpoint maskRecord (record : value number) : value number :=
  match record with
  | JArray items => JArray (map maskRecord items)
  | JObject entries => JObject (map (λ e, (e.1, maskValue e.1 e.2)) entries)
  | _ => record
  end.

Definition maskRecords (records : list (value number)) : list (value number) :=
  map maskRecord records.

(** [summarizeAction]. *)
Definition summarizeAction (action : string) (payload : value number) : value number :=
  JObject
    [("action", JString action);
     ("payload", payload);
     ("note",
       JString ("This is a dry-run/plan response. Execute with mode=" +:+
                String dquote "confirm" +:+ String dquote " to apply changes."))].

(** The part of [ToolExecutionContext] that is not the store:
    [clientInfo] is [None] when [undefined]. *)
Record ToolExecutionContext := {
  context_sessionId : string;
  context_clientInfo : option (value number);
}.

(** [typeof x === 'string' && x.length > 0] on a property of [info]. *)
Definition filled (x : option (value number)) : option string :=
  match x with
  | Some (JString s) => if (0 <? String.length s)%nat then Some s else None
  | _ => None
  end.

(** [resolveActor]. *)
Definition resolveActor (context : ToolExecutionContext) : string :=
  match context_clientInfo context with
  | Some (JString info) =>
      if (0 <? String.length info)%nat then info else context_sessionId context
  | Some (JObject info) =>
      match filled (property "name" info) with
      | Some s => s
      | None =>
        match filled (property "id" info) with
        | Some s => s
        | None =>
          match filled (property "login" info) with
          | Some s => s
          | None => context_sessionId context
          end
        end
      end
  | _ => context_sessionId context
  end.
End Values.

Arguments ToolExecutionContext : clear implicits.

(** *** [createTool] *)

(** The input of [createTool.execute]; a property the input does not have
    is [None]. *)
Record CreateInput (number : Type) := {
  input_model : string;
  input_values : option (value number);
  input_mode : string;
  input_action_id : option (value number);
}.

Arguments input_model {number} _.
Arguments input_values {number} _.
Arguments input_mode {number} _.
Arguments input_action_id {number} _.

(** What the environment gives to one execution: the identifier
    [crypto.randomUUID()] draws, the clock at the first call on the store
    and at [recordConfirm], what [odooConnector.checkAccessRights] answers
    ([None] when it throws) and what [odooConnector.create] answers. *)
Record World (number : Type) := {
  uuid : string;
  now : Z;
  later : Z;
  access : option bool;
  created : Result (value number);
}.

Arguments uuid {number} _.
Arguments now {number} _.
Arguments later {number} _.
Arguments access {number} _.
Arguments created {number} _.

(** The calls made on the connector. *)
Inductive RemoteCall (number : Type) :=
  | CheckAccessRights (model operation : string)
  | Create (model : string) (values : value number).

Arguments CheckAccessRights {number} _ _.
Arguments Create {number} _ _.

(** The object [execute] returns; the properties of [summary] are spread
    into it, an [undefined] property is [None]. *)
Inductive Reply (number : Type) :=
  | PlanReply (summary : value number) (action_id : string) (requested_by : option string)
  | DryRunReply (summary : value number) (action_id : string)
      (requested_by approved_by approved_at expires_at : option string)
  | ConfirmReply (id : value number) (action_id : string)
      (requested_by approved_by approved_at expires_at confirmed_by confirmed_at
         : option string)
      (approval_approved_by approval_approved_at approval_expires_at : option string)
  | ErrorReply (error : string).

Arguments PlanReply {number} _ _ _.
Arguments DryRunReply {number} _ _ _ _ _ _.
Arguments ConfirmReply {number} _ _ _ _ _ _ _ _ _ _ _.
Arguments ErrorReply {number} _.

Section CreateTool.
Context {number : Type} `{!JsonNumber number}.
(** [new Date(timestamp).toISOString()] on a time value a [Date] can hold. *)
Context (toISOString : Z → string).

(** The range of the time values of a [Date], in milliseconds from the
    epoch; beyond it the date is invalid. *)
Definition MAX_TIME_VALUE : Z := 8640000000000000.

Definition valid_time (timestamp : Z) : bool :=
  (- MAX_TIME_VALUE <=? timestamp)%Z && (timestamp <=? MAX_TIME_VALUE)%Z.

(** [formatIso]; [toISOString] throws a RangeError on an invalid date. *)
Definition formatIso (timestamp : option Z) : Result (option string) :=
  match timestamp with
  | None => Ok None
  | Some t => if valid_time t then Ok (Some (toISOString t)) else Thrown "Invalid time value"
  end.

(** [checkDryRunAccess]: the answer of the connector, [false] when it
    throws. *)
Definition checkDryRunAccess (world : World number) : bool := default false (access world).

(** The [catch] of [createTool.execute]. *)
Definition failed (message : string) : Reply number :=
  ErrorReply ("Failed to execute create: " +:+ message).

Definition caught (reply : Result (Reply number)) : Reply number :=
  match reply with
  | Ok reply => reply
  | Thrown message => failed message
  end.

(** An execution suspended at its [await], with what it has computed. *)
Inductive Pending :=
  | AwaitAccess (model : string) (sanitizedValues payload : value number) (actor : string)
  | AwaitCreate (model : string) (sanitizedValues payload : value number) (actor : string)
      (action_id : string) (dryRunRecord : ActionStageRecord number).

(** How the synchronous part of an execution ends: with the object
    returned, or at an [await] on a call of the connector. *)
Inductive Started :=
  | Finished (reply : Reply number)
  | Awaiting (pending : Pending) (call : RemoteCall number).

(** [createTool.execute] up to its first [await]: the checks, then the
    whole of plan mode, or the call of [checkDryRunAccess] of dry_run mode,
    or [validateConfirm] and the call of [odooConnector.create] of confirm
    mode. *)
Definition start (input : CreateInput number) (context : ToolExecutionContext number)
    (world : World number) (st : Store number) : Store number * Started :=
  let model := input_model input in
  let mode := input_mode input in
  let checked :=
    assertModelAllowed model;;
    assertModelWritable model;;
    assertExecutionMode mode;;
    sanitizeValues model (input_values input) in
  match checked with
  | Thrown message => (st, Finished (failed message))
  | Ok sanitizedValues =>
    let payload := JObject [("model", JString model); ("values", sanitizedValues)] in
    let actor := resolveActor context in
    if String.eqb mode "plan" then
      let summary :=
        summarizeAction "plan:create"
          (JObject [("model", JString model); ("values", sanitizedValues)]) in
      match recordPlan (context_sessionId context) "odoo.create" payload summary
              (Some actor) (uuid world) (now world) st with
      | (st', Return record) =>
          (st', Finished (PlanReply summary (actionId record) (requestedBy (metadata record))))
      | (st', Throw e) => (st', Finished (failed (error_message e)))
      end
    else if String.eqb mode "dry_run" then
      (st, Awaiting (AwaitAccess model sanitizedValues payload actor)
             (CheckAccessRights model "create"))
    else
      match filled (input_action_id input) with
      | None => (st, Finished (failed "Confirmation requires a valid action_id from dry_run."))
      | Some action_id =>
        match validateConfirm action_id (context_sessionId context) "odoo.create" payload
                (now world) st with
        | (st', Throw e) => (st', Finished (failed (error_message e)))
        | (st', Return dryRunRecord) =>
            (st', Awaiting (AwaitCreate model sanitizedValues payload actor action_id
                              dryRunRecord)
                    (Create model sanitizedValues))
        end
      end
  end.

(** [createTool.execute] from its [await] on, on the store as it is when the
    connector has answered: [recordDryRun] and the object of dry_run mode,
    or [recordConfirm] and the object of confirm mode.  The dates of the
    object are rendered after the call on the store, inside the same
    [try]. *)
Definition resume (context : ToolExecutionContext number) (world : World number)
    (pending : Pending) (st : Store number) : Store number * Reply number :=
  match pending with
  | AwaitAccess model sanitizedValues payload actor =>
      let allowed := checkDryRunAccess world in
      let summary :=
        summarizeAction "dry_run:create"
          (JObject [("model", JString model); ("allowed", JBool allowed);
                    ("values", maskRecord sanitizedValues)]) in
      match recordDryRun (context_sessionId context) "odoo.create" payload summary
              (Some actor) None (now world) st with
      | (st', Return record) =>
          (st',
           caught (
             approved_at ← formatIso (approvedAt (metadata record));
             expires_at ← formatIso (expiresAt (metadata record));
             mret (DryRunReply summary (actionId record)
                     (requestedBy (metadata record)) (approvedBy (metadata record))
                     approved_at expires_at)))
      | (st', Throw e) => (st', failed (error_message e))
      end
  | AwaitCreate model sanitizedValues payload actor action_id dryRunRecord =>
      match created world with
      | Thrown message => (st, failed message)
      | Ok id =>
        match recordConfirm action_id (context_sessionId context) "odoo.create" payload
                (JObject [("id", id)]) (Some actor) (later world) st with
        | (st', Return record) =>
            (st',
             caught (
               approved_at ← formatIso (approvedAt (metadata record));
               expires_at ← formatIso (expiresAt (metadata record));
               confirmed_at ← formatIso (Some (default (timestamp record)
                                                 (confirmedAt (metadata record))));
               approval_approved_at ← formatIso (approvedAt (metadata dryRunRecord));
               approval_expires_at ← formatIso (expiresAt (metadata dryRunRecord));
               mret (ConfirmReply id action_id
                       (requestedBy (metadata record)) (approvedBy (metadata record))
                       approved_at expires_at
                       (confirmedBy (metadata record)) confirmed_at
                       (approvedBy (metadata dryRunRecord))
                       approval_approved_at approval_expires_at)))
        | (st', Throw e) => (st', failed (error_message e))
        end
      end
  end.

(** One execution of [createTool.execute] with no other call on the store
    while it awaits the connector: the store after it, the object returned
    and the calls made on the connector.  The host does not serialise the
    invocations ([handleCallTool] starts each without awaiting it): between
    [start] and [resume] of one execution others may run on the same store. *)
Definition execute (input : CreateInput number) (context : ToolExecutionContext number)
    (world : World number) (st : Store number)
    : Store number * Reply number * list (RemoteCall number) :=
  match start input context world st with
  | (st', Finished reply) => (st', reply, [])
  | (st', Awaiting pending call) =>
      let '(st'', reply) := resume context world pending st' in (st'', reply, [call])
  end.
End CreateTool.

End Tools.

(** ** A concrete number type and sample data *)

(** Integers written in full in decimal.  [JSON.stringify] writes so the
    integers a number holds exactly ([safe_integer]); it writes the numbers
    from 1e21 on with an exponent, and NaN and the infinities as [null]:
    the instance stands for the rendering of the runtime on the safe
    integers only, and the samples stay among them. *)
#[global] Instance Z_JsonNumber : JsonNumber Z :=
  λ z, DecimalString.NilZero.string_of_int (Z.to_int z).

(** [Number.isSafeInteger]. *)
Definition safe_integer (z : Z) : bool :=
  (- 9007199254740991 <=? z)%Z && (z <=? 9007199254740991)%Z.

(** The empty store. *)
Definition empty_store : Store Z :=
  {| lifecycles := ∅; signatureIndex := ∅; events := [] |}.

Definition sample_payload : value Z :=
  JObject [("amount", JNumber 10); ("tags", JArray [JString "a"; JNull])].

Definition sample_payload_reordered : value Z :=
  JObject [("tags", JArray [JString "a"; JNull]); ("amount", JNumber 10)].

Definition other_payload : value Z := JObject [("amount", JNumber 11)].

(** A masked text frame with fin = 0 carrying the bytes of "he". *)
Definition fragment_frame : list Z :=
  [0x01; 0x82; 0x11; 0x22; 0x33; 0x44; 0x79; 0x47]%Z.

(** A masked text frame with fin = 1 carrying the bytes of "hi". *)
Definition text_frame : list Z :=
  [0x81; 0x82; 0x01; 0x02; 0x03; 0x04; 0x69; 0x6b]%Z.

(** Whether a call returned. *)
Definition returned {A} (o : outcome A) : bool :=
  match o with
  | Return _ => true
  | Throw _ => false
  end.

(** The store after one plan of [sample_payload], drawn as "id-1". *)
Definition planned_store : Store Z :=
  (recordPlan "s1" "odoo.create" sample_payload JNull (Some "alice") "id-1" 1000
     empty_store).1.

(** The dry_run of that plan with a ttl of 0, made at the clock reading
    1000, and the store after it. *)
Definition zero_ttl_dry_run : Store Z * outcome (ActionStageRecord Z) :=
  recordDryRun "s1" "odoo.create" sample_payload JNull (Some "bob") (Some 0%Z) 1000
    planned_store.

Definition zero_ttl_record : ActionStageRecord Z :=
  {| actionId := "id-1"; mode := StageDryRun; sessionId := "s1"; tool := "odoo.create";
     payload := sample_payload; result := JNull; timestamp := 1000;
     metadata := {| requestedBy := Some "alice"; approvedBy := Some "bob";
                    approvedAt := Some 1000%Z; confirmedBy := None; confirmedAt := None;
                    expiresAt := Some 1000%Z |} |}.

(** Steps after the dry_run of "id-1" that record no dry_run on it: a
    confirm attempt, the plan and the dry_run of another payload, an event
    of the host and a bare [recordConfirm] on "id-1". *)
Definition later_steps : list (Step Z) :=
  [Invoke (CallValidateConfirm "id-1" "s1" "odoo.create" sample_payload 1001);
   Invoke (CallRecordPlan "s1" "odoo.create" other_payload JNull None "id-2" 1002);
   Invoke (CallRecordDryRun "s1" "odoo.create" other_payload JNull (Some "bob") None 1002);
   Log (SessionInitialized "s2" JNull 1003);
   Invoke (CallRecordConfirm "id-1" "s1" "odoo.create" sample_payload (JNumber 1%Z)
             (Some "carol") 1004)].

(** A session as the upgrade leaves it, and an [initialize] request. *)
Definition new_session : Host.Session Z :=
  {| Host.session_id := "s1"; Host.initialized := false; Host.clientInfo := None;
     Host.outbox := [] |}.

Definition initialize_request : Host.JsonRpcRequest Z :=
  {| Host.id := Some (JNumber 1%Z); Host.method := "initialize";
     Host.params := Some (JObject [("client", JObject [("name", JString "Reviewer")])]) |}.

Definition echo_tool : Host.Tool Z :=
  {| Host.name := "echo"; Host.description := "Echoes its input";
     Host.inputSchema := JObject [("type", JString "object")] |}.

(** A plan, an event of the host, the dry_run and the checked confirm of
    one action. *)
Definition audit_steps : list (Step Z) :=
  [Invoke (CallRecordPlan "s1" "odoo.create" sample_payload JNull (Some "alice") "id-1" 1000);
   Log (SessionInitialized "s2" JNull 1001);
   Invoke (CallRecordDryRun "s1" "odoo.create" sample_payload JNull (Some "bob") None 1002);
   Invoke (CallConfirm "id-1" "s1" "odoo.create" sample_payload (JNumber 7%Z) (Some "carol")
             2000 2001)].

(** Calls of executions that overlap: the plan and the dry_run by bob of
    one action, a [validateConfirm] that returns, a second dry_run of the
    action without an approver, and then the [recordConfirm] of the
    execution that validated. *)
Definition overlapped_steps : list (Step Z) :=
  [Invoke (CallRecordPlan "s1" "odoo.create" sample_payload JNull (Some "alice") "id-1" 1000);
   Invoke (CallRecordDryRun "s1" "odoo.create" sample_payload JNull (Some "bob") None 1002);
   Invoke (CallValidateConfirm "id-1" "s1" "odoo.create" sample_payload 2000);
   Invoke (CallRecordDryRun "s1" "odoo.create" sample_payload JNull None None 2001);
   Invoke (CallRecordConfirm "id-1" "s1" "odoo.create" sample_payload (JNumber 7%Z)
             (Some "carol") 2002)].

(** The store after the plan and an approved dry_run of it. *)
Definition approved_store : Store Z :=
  (recordDryRun "s1" "odoo.create" sample_payload JNull (Some "bob") None 1001
     planned_store).1.

(** The text null in bytes; [JSON.parse] gives null for it and
    [handleIncomingMessage] throws a TypeError reading [message.jsonrpc]. *)
Definition null_text : list Z := [0x6e; 0x75; 0x6c; 0x6c].

(** A 'message' listener in the manner of [handleIncomingMessage]: it
    throws on the text null and answers any other text with one message
    (here the text itself). *)
Definition sample_on_message (text : list Z) (l : unit) : unit * list (list Z) * bool :=
  if bool_decide (text = null_text) then (l, [], true) else (l, [text], false).

Definition sample_on_close (code : Z) (reason : list Z) (l : unit) : unit * bool :=
  (l, false).

(** [toString('utf8')] on bytes below 128: the code units are the bytes. *)
Definition ascii_toString (payload : list Z) : list Z := payload.

(** A stand-in for the rendering of dates. *)
Definition sample_toISOString (timestamp : Z) : string := stringifyNumber timestamp.

(** Inputs of [odoo.create] for a partner; "vat" is not a field of the
    model. *)
Definition create_values : value Z :=
  JObject [("name", JString "Ada"); ("vat", JString "X1"); ("email", JString "ada@example.org")].

Definition create_sanitized : value Z :=
  JObject [("name", JString "Ada"); ("email", JString "ada@example.org")].

Definition create_input (mode : string) (action_id : option (value Z)) : Tools.CreateInput Z :=
  {| Tools.input_model := "res.partner"; Tools.input_values := Some create_values;
     Tools.input_mode := mode; Tools.input_action_id := action_id |}.

Definition create_context : Tools.ToolExecutionContext Z :=
  {| Tools.context_sessionId := "s1";
     Tools.context_clientInfo := Some (JObject [("name", JString "Reviewer")]) |}.

(** The environment of an execution at the clock reading [now]. *)
Definition world (now : Z) (created : Tools.Result (value Z)) : Tools.World Z :=
  {| Tools.uuid := "id-1"; Tools.now := now; Tools.later := now + 1;
     Tools.access := Some true; Tools.created := created |}.

(** The store after the plan and the dry_run of that input. *)
Definition create_approved_store : Store Z :=
  (Tools.execute sample_toISOString (create_input "dry_run" None) create_context
     (world 2000 (Tools.Ok JNull))
     (Tools.execute sample_toISOString (create_input "plan" None) create_context
        (world 1000 (Tools.Ok JNull)) empty_store).1.1).1.1.

(** The calls on the store of two confirms of "id-1" that overlap: each
    validates at its start and records when the connector has answered. *)
Definition overlapping_confirm_calls : list (Call Z) :=
  let payload := JObject [("model", JString "res.partner"); ("values", create_sanitized)] in
  [CallValidateConfirm "id-1" "s1" "odoo.create" payload 3000;
   CallValidateConfirm "id-1" "s1" "odoo.create" payload 3500;
   CallRecordConfirm "id-1" "s1" "odoo.create" payload (JObject [("id", JNumber 42%Z)])
     (Some "Reviewer") 3001;
   CallRecordConfirm "id-1" "s1" "odoo.create" payload (JObject [("id", JNumber 43%Z)])
     (Some "Reviewer") 3501].


(** That session once initialised. *)
Definition ready_peer : Dispatch.State Z :=
  {| Dispatch.peer_id := "s1"; Dispatch.peer_initialized := true;
     Dispatch.peer_clientInfo := Some JNull; Dispatch.sent := []; Dispatch.ledger := [] |}.


Definition call_message : value Z :=
  JObject [("jsonrpc", JString "2.0"); ("id", JNumber 2%Z); ("method", JString "tools/call");
           ("params", JObject [("name", JString "echo");
                               ("arguments", JObject [("text", JString "hi")])])].

(** * Properties *)

(** ** Strings *)

Lemma append_nil_l (s : string) : "" +:+ s = s.
Proof. done. Qed.

Lemma append_cons (a : ascii) (s1 s2 : string) : String a s1 +:+ s2 = String a (s1 +:+ s2).
Proof. done. Qed.

Ltac str_simpl := repeat (rewrite ?append_cons, ?append_nil_l in *; simpl in *).

Lemma length_append (s1 s2 : string) :
  (String.length (s1 +:+ s2) = String.length s1 + String.length s2)%nat.
Proof. induction s1 as [|a s1 IH]; str_simpl; [done|]. by rewrite IH. Qed.

Lemma append_assoc (s1 s2 s3 : string) : (s1 +:+ s2) +:+ s3 = s1 +:+ (s2 +:+ s3).
Proof. induction s1 as [|a s1 IH]; str_simpl; [done|]. by rewrite IH. Qed.

Lemma append_inv_head (s x y : string) : s +:+ x = s +:+ y → x = y.
Proof. induction s as [|a s IH]; str_simpl; [done|]. intros [= H]. auto. Qed.

(** ** Canonical serialisation *)

Section CanonicalFacts.
Context {number : Type} `{!JsonNumber number}.

(** Induction on a value with the hypotheses for the items of an array and
    the properties of an object. *)
Fixpoint value_nested_ind (P : value number → Prop)
    (Hnull : P JNull) (Hbool : ∀ b, P (JBool b)) (Hnum : ∀ n, P (JNumber n))
    (Hstr : ∀ s, P (JString s))
    (Harr : ∀ items, Forall P items → P (JArray items))
    (Hobj : ∀ entries, Forall (λ e, P e.2) entries → P (JObject entries))
    (v : value number) {struct v} : P v :=
  let rec := value_nested_ind P Hnull Hbool Hnum Hstr Harr Hobj in
  match v with
  | JNull => Hnull
  | JBool b => Hbool b
  | JNumber n => Hnum n
  | JString s => Hstr s
  | JArray items =>
      Harr items
        ((fix go (l : list (value number)) : Forall P l :=
            match l with
            | [] => @List.Forall_nil _ P
            | x :: l' => @List.Forall_cons _ P x l' (rec x) (go l')
            end) items)
  | JObject entries =>
      Hobj entries
        ((fix go (l : list (string * value number)) : Forall (λ e, P e.2) l :=
            match l with
            | [] => @List.Forall_nil _ (λ e, P e.2)
            | e :: l' => @List.Forall_cons _ (λ e, P e.2) e l' (rec e.2) (go l')
            end) entries)
  end.

Lemma wf_value_array (items : list (value number)) :
  wf_value (JArray items) ↔ Forall wf_value items.
Proof.
  simpl. induction items as [|x items IH]; simpl.
  - split; [constructor | done].
  - rewrite Forall_cons. by rewrite IH.
Qed.

Lemma wf_value_object (entries : list (string * value number)) :
  wf_value (JObject entries) ↔
  NoDup (keys entries) ∧ Forall (λ e, wf_value e.2) entries.
Proof.
  simpl. apply and_iff_compat_l.
  induction entries as [|e entries IH]; simpl.
  - split; [constructor | done].
  - rewrite Forall_cons. by rewrite IH.
Qed.

(** Sorting depends on the keys only, not on the order they come in. *)
Lemma sort_permutation (ks ks' : list string) : ks ≡ₚ ks' → sort ks = sort ks'.
Proof.
  intros Hperm. unfold sort.
  apply (StronglySorted_unique String.le).
  - apply StronglySorted_merge_sort; apply _.
  - apply StronglySorted_merge_sort; apply _.
  - by rewrite !merge_sort_Permutation.
Qed.

Lemma property_fmap {A B} (f : A → B) (key : string) (entries : list (string * A)) :
  property key (map (λ e, let '(k, x) := e in (k, f x)) entries) = f <$> property key entries.
Proof.
  induction entries as [|[k x] entries IH]; simpl; [done|].
  by destruct (decide (k = key)).
Qed.

Lemma property_None {A} (key : string) (entries : list (string * A)) :
  key ∉ keys entries → property key entries = None.
Proof.
  induction entries as [|[k x] entries IH]; simpl; [done|].
  rewrite not_elem_of_cons. intros [Hne Hnotin].
  destruct (decide (k = key)); [congruence | auto].
Qed.

(** With distinct keys the property under a key does not depend on the
    insertion order. *)
Lemma property_permutation {A} (key : string) (entries entries' : list (string * A)) :
  NoDup (keys entries) → entries ≡ₚ entries' →
  property key entries = property key entries'.
Proof.
  intros Hnodup Hperm. revert Hnodup.
  induction Hperm as [|[k x] l l' Hperm IH|[k1 x1] [k2 x2] l|l l' l'' H1 IH1 H2 IH2];
    simpl; intros Hnodup.
  - done.
  - apply NoDup_cons in Hnodup as [_ Hnodup].
    destruct (decide (k = key)); auto.
  - apply NoDup_cons in Hnodup as [Hnotin _].
    rewrite not_elem_of_cons in Hnotin. destruct Hnotin as [Hne _].
    destruct (decide (k1 = key)), (decide (k2 = key)); congruence.
  - rewrite IH1 by done. apply IH2.
    unfold keys in *. by rewrite <- H1.
Qed.

(** [stableStringify] on an object, in the order the source evaluates it:
    sort the keys, then serialise [value[key]] for each of them. *)
Lemma stableStringify_object (entries : list (string * value number)) :
  stableStringify (JObject entries) =
  "{" +:+ join ","
    (map (λ key, stringifyString key +:+ ":" +:+
                 default "undefined" (stableStringify <$> property key entries))
         (sort (keys entries))) +:+ "}".
Proof.
  simpl. do 3 f_equal. apply map_ext. intros key.
  unfold entry_text. by rewrite property_fmap.
Qed.

Lemma same_tree_keys (es es' : list (string * value number)) :
  Forall2 (λ e f, e.1 = f.1 ∧ same_tree e.2 f.2) es es' → keys es = keys es'.
Proof.
  unfold keys. induction 1 as [|e f es es' [Hk _] _ IH]; csimpl; [done | by f_equal].
Qed.

(** Well-formedness of the right-hand tree is enough: equal trees have the
    same keys. *)
Lemma stableStringify_same_tree (v1 : value number) :
  ∀ v2, wf_value v2 → same_tree v1 v2 → stableStringify v1 = stableStringify v2.
Proof.
  induction v1 as [| | | |items IH|entries IH] using value_nested_ind;
    intros v2 Hwf Hsame; inversion Hsame; subst; try done.
  - (* arrays, item by item *)
    apply wf_value_array in Hwf.
    match goal with H : Forall2 same_tree _ _ |- _ => rename H into Hitems end.
    assert (Hmap : map stableStringify items = map stableStringify ys).
    { clear Hsame. induction Hitems as [|x y xs ys Hxy Hrest IHrest]; simpl; [done|].
      apply Forall_cons in IH as [IHx IHxs]. apply Forall_cons in Hwf as [Hy Hys].
      f_equal; auto. }
    simpl. by rewrite Hmap.
  - (* objects *)
    match goal with
    | H : Forall2 _ entries ?es', H' : ?es' ≡ₚ ?fs |- _ =>
        rename H into Hpoint; rename H' into Hperm; rename es' into mid; rename fs into fs0
    end.
    apply wf_value_object in Hwf as [Hnodup Hwfs].
    assert (Hwfmid : Forall (λ e, wf_value e.2) mid) by (by rewrite Hperm).
    assert (Hnodupmid : NoDup (keys mid)) by (unfold keys; by rewrite Hperm).
    set (g := λ e : string * value number, let '(k, x) := e in (k, stableStringify x)).
    assert (Htexts : map g entries = map g mid).
    { clear Hperm Hnodupmid Hsame. revert IH Hwfmid.
      induction Hpoint as [|[k x] [k' y] es es' [Hk Hxy] Hrest IHrest]; simpl;
        intros IH Hwfmid; [done|].
      apply Forall_cons in IH as [IHx IHes]. apply Forall_cons in Hwfmid as [Hy Hes'].
      simpl in *. subst k'. f_equal; [f_equal; auto | auto]. }
    assert (Hkeys : keys (map g mid) = keys mid).
    { unfold keys. rewrite <- list_fmap_compose. apply list_fmap_ext. by intros ? [??]. }
    assert (Hentry : ∀ key, entry_text (map g mid) key = entry_text (map g fs0) key).
    { intros key. unfold entry_text. f_equal. f_equal. f_equal.
      apply property_permutation; [by rewrite Hkeys | by apply Permutation_map]. }
    simpl. fold g. rewrite Htexts, (same_tree_keys _ _ Hpoint).
    rewrite (sort_permutation (keys mid) (keys fs0)) by (unfold keys; by rewrite Hperm).
    by rewrite (map_ext _ _ Hentry).
Qed.

(** C5.  Payloads that are equal as trees (arrays item by item, objects as
    sets of key/value pairs with distinct keys) have the same canonical
    text, hence the same signature for a session and tool. *)
Theorem canonical_order_independent (sessionId tool : string) (v1 v2 : value number) :
  wf_value v1 → wf_value v2 → same_tree v1 v2 →
  stableStringify v1 = stableStringify v2
  ∧ computeSignature sessionId tool v1 = computeSignature sessionId tool v2.
Proof.
  intros _ Hwf Hsame.
  pose proof (stableStringify_same_tree v1 v2 Hwf Hsame) as Heq.
  split; [done|]. unfold computeSignature. by rewrite Heq.
Qed.

End CanonicalFacts.

(** ** The canonical text determines the payload *)

Section CanonicalInjective.
Context {number : Type} `{!JsonNumber number}.
Local Open Scope list_scope.

Lemma unquote_quote (c : ascii) (rest : string) :
  unquote_char (quote_char c +:+ rest) = Some (c, rest).
Proof. by destruct c as [[] [] [] [] [] [] [] []]. Qed.

Lemma quote_char_head (c : ascii) (rest rest' : string) :
  quote_char c +:+ rest ≠ String dquote rest'.
Proof. by destruct c as [[] [] [] [] [] [] [] []]. Qed.

(** The body of a quoted string ends at the first quotation mark that is
    not escaped. *)
Lemma quote_body_inj (s1 s2 r1 r2 : string) :
  quote_body s1 +:+ String dquote r1 = quote_body s2 +:+ String dquote r2 →
  s1 = s2 ∧ r1 = r2.
Proof.
  revert s2. induction s1 as [|c1 s1 IH]; intros [|c2 s2]; simpl.
  - str_simpl. by intros [= ->].
  - rewrite append_assoc. intros H. symmetry in H. by apply quote_char_head in H.
  - rewrite append_assoc. intros H. by apply quote_char_head in H.
  - rewrite !append_assoc. intros H.
    pose proof (f_equal unquote_char H) as Hfront.
    rewrite !unquote_quote in Hfront. injection Hfront as -> Hrest.
    destruct (IH _ Hrest) as [-> ->]. done.
Qed.

Lemma stringifyString_inj (s1 s2 r1 r2 : string) :
  stringifyString s1 +:+ r1 = stringifyString s2 +:+ r2 → s1 = s2 ∧ r1 = r2.
Proof.
  unfold stringifyString. rewrite !append_cons, !append_assoc. str_simpl.
  intros [= H]. by apply quote_body_inj.
Qed.

Lemma closer_not_number (c : ascii) : closer c = true → number_char c = false.
Proof. by destruct c as [[] [] [] [] [] [] [] []]. Qed.

Lemma number_announced (c : ascii) : number_char c = true → announces c = 2%nat.
Proof. by destruct c as [[] [] [] [] [] [] [] []]. Qed.

Lemma announced_not_closer (c : ascii) : announces c ≠ 6%nat → closer c = false.
Proof. by destruct c as [[] [] [] [] [] [] [] []]. Qed.

(** A number ends where the characters of numbers end. *)
Lemma number_text_inj (a b r1 r2 : string) :
  all_chars number_char a = true → all_chars number_char b = true →
  closes r1 → closes r2 →
  a +:+ r1 = b +:+ r2 → a = b ∧ r1 = r2.
Proof.
  revert b. induction a as [|c a IH]; intros [|c' b]; simpl; str_simpl.
  - done.
  - intros _ [Hc' _]%andb_true_iff Hr1 _ ->. simpl in Hr1.
    apply closer_not_number in Hr1. congruence.
  - intros [Hc _]%andb_true_iff _ _ Hr2 <-. simpl in Hr2.
    apply closer_not_number in Hr2. congruence.
  - intros [_ Ha]%andb_true_iff [_ Hb]%andb_true_iff Hr1 Hr2 [= -> H].
    destruct (IH _ Ha Hb Hr1 Hr2 H) as [-> ->]. done.
Qed.

(** The rendering of numbers is a built-in of the runtime; what the
    reading needs of it, for the numbers [exact] accepts: different numbers
    have different texts, and the text of a number is not empty and made of
    characters of numbers.  [JSON.stringify] does so on the finite numbers
    (with 0 and -0 taken as one number); it writes NaN and the infinities
    as [null]. *)
Variable exact : number → bool.
Hypothesis number_inj :
  ∀ n m : number, exact n = true → exact m = true →
    stringifyNumber n = stringifyNumber m → n = m.
Hypothesis number_text :
  ∀ n : number, exact n = true →
    stringifyNumber n ≠ "" ∧ all_chars number_char (stringifyNumber n) = true.

Lemma proper_array (items : list (value number)) :
  proper exact (JArray items) ↔ Forall (proper exact) items.
Proof.
  unfold proper. simpl. induction items as [|x items IH]; simpl.
  - split; [constructor | done].
  - rewrite Forall_cons, <- IH. tauto.
Qed.

Lemma proper_object (entries : list (string * value number)) :
  proper exact (JObject entries) ↔
  NoDup (keys entries) ∧ Forall (λ e, proper exact e.2) entries.
Proof.
  unfold proper. simpl.
  assert (Hall : fold_right (λ e P, wf_value e.2 ∧ P) True entries
                 ∧ fold_right (λ e P, exact_value exact e.2 ∧ P) True entries
                 ↔ Forall (λ e, wf_value e.2 ∧ exact_value exact e.2) entries).
  { induction entries as [|e entries IH]; simpl.
    - split; [constructor | done].
    - rewrite Forall_cons, <- IH. tauto. }
  rewrite <- Hall. tauto.
Qed.

Lemma join_cons (sep x : string) (xs : list string) (rest : string) :
  join sep (x :: xs) +:+ rest =
  x +:+ match xs with
        | [] => rest
        | _ :: _ => sep +:+ join sep xs +:+ rest
        end.
Proof.
  unfold join. destruct xs as [|y xs]; simpl; [done|].
  by rewrite !append_assoc.
Qed.

(** The first character of a canonical text announces the variant of the
    value. *)
Lemma stableStringify_announces (v : value number) (r : string) :
  exact_value exact v →
  ∃ c rest, stableStringify v +:+ r = String c rest ∧ announces c = variant v.
Proof.
  intros Hexact.
  destruct v as [|[]|n|s|items|entries]; simpl; str_simpl; try by eexists _, _.
  destruct (number_text n Hexact) as [Hne Hchars].
  destruct (stringifyNumber n) as [|c rest]; [done|]. simpl in Hchars.
  apply andb_true_iff in Hchars as [Hc _]. str_simpl.
  eexists _, _. split; [done|]. by apply number_announced.
Qed.

Lemma stableStringify_not_closer (v : value number) (r : string) (c : ascii) (rest : string) :
  exact_value exact v → closer c = true → stableStringify v +:+ r ≠ String c rest.
Proof.
  intros Hexact Hc H.
  destruct (stableStringify_announces v r Hexact) as (c' & rest' & H' & Hann).
  rewrite H in H'. injection H' as <- _.
  assert (closer c = false); [|congruence].
  apply announced_not_closer. rewrite Hann. by destruct v.
Qed.

Lemma items_determined (items : list (value number)) :
  Forall (determined exact) items → Forall (proper exact) items →
  ∀ items2 r1 r2, Forall (proper exact) items2 →
    join "," (map stableStringify items) +:+ String "]" r1
    = join "," (map stableStringify items2) +:+ String "]" r2 →
    Forall2 same_tree items items2 ∧ r1 = r2.
Proof.
  induction items as [|x xs IH]; intros Hdet Hwf [|y ys] r1 r2 Hwf2.
  - str_simpl. intros [= ->]. by split; [constructor|].
  - simpl map. rewrite join_cons. unfold join at 1. simpl. str_simpl. intros H. symmetry in H.
    apply Forall_cons in Hwf2 as [[_ Hy] _].
    by apply stableStringify_not_closer in H.
  - simpl map. rewrite join_cons. unfold join at 2. simpl. str_simpl. intros H.
    apply Forall_cons in Hwf as [[_ Hx] _].
    by apply stableStringify_not_closer in H.
  - apply Forall_cons in Hdet as [Hx Hxs]. apply Forall_cons in Hwf as [Hwx Hwxs].
    apply Forall_cons in Hwf2 as [Hwy Hwys].
    simpl map. rewrite !join_cons. intros H.
    apply Hx in H as [Hxy Hrest]; [|done|done|by destruct xs|by destruct ys].
    destruct xs as [|x' xs], ys as [|y' ys]; simpl in Hrest; str_simpl; try done.
    + injection Hrest as ->. split; [|done]. by repeat constructor.
    + injection Hrest as Hrest.
      destruct (IH Hxs Hwxs (y' :: ys) r1 r2 Hwys Hrest) as [Hall ->].
      split; [|done]. by constructor.
Qed.

Lemma property_elem {A} (key : string) (entries : list (string * A)) (x : A) :
  property key entries = Some x → (key, x) ∈ entries.
Proof.
  induction entries as [|[k y] entries IH]; simpl; [done|].
  destruct (decide (k = key)) as [->|]; [intros [= ->]; apply list_elem_of_here|].
  intros H. apply list_elem_of_further. auto.
Qed.

Lemma elem_property {A} (key : string) (entries : list (string * A)) (x : A) :
  NoDup (keys entries) → (key, x) ∈ entries → property key entries = Some x.
Proof.
  induction entries as [|[k y] entries IH]; simpl; [by intros _ ?%elem_of_nil|].
  intros [Hnotin Hnodup]%NoDup_cons [[= -> ->]|Hin]%elem_of_cons.
  - by rewrite decide_True.
  - destruct (decide (k = key)) as [->|]; [|auto].
    exfalso. apply Hnotin. unfold keys. by apply (list_elem_of_fmap_2 fst _ _ Hin).
Qed.

Lemma key_property {A} (key : string) (entries : list (string * A)) :
  key ∈ keys entries → ∃ x, property key entries = Some x.
Proof.
  induction entries as [|[k y] entries IH]; simpl; [by intros ?%elem_of_nil|].
  intros [->|Hin]%elem_of_cons.
  - rewrite decide_True by done. eauto.
  - destruct (decide (k = key)); eauto.
Qed.

(** The text of the properties of an object, key by key. *)
Lemma properties_determined (es1 es2 : list (string * value number)) (ks1 : list string) :
  (∀ k x, k ∈ ks1 → property k es1 = Some x → determined exact x ∧ proper exact x) →
  (∀ k, k ∈ ks1 → k ∈ keys es1) →
  ∀ ks2 r1 r2,
    (∀ k, k ∈ ks2 → ∃ y, property k es2 = Some y ∧ proper exact y) →
    join "," (map (λ key, stringifyString key +:+ ":" +:+
                          default "undefined" (stableStringify <$> property key es1)) ks1)
      +:+ String "}" r1
    = join "," (map (λ key, stringifyString key +:+ ":" +:+
                            default "undefined" (stableStringify <$> property key es2)) ks2)
      +:+ String "}" r2 →
    ks1 = ks2
    ∧ (∀ k, k ∈ ks1 → ∃ x y, property k es1 = Some x ∧ property k es2 = Some y
                                ∧ same_tree x y)
    ∧ r1 = r2.
Proof.
  induction ks1 as [|k1 ks1 IH]; intros Hdet Hkeys [|k2 ks2] r1 r2 Hes2.
  - str_simpl. intros [= ->]. split; [done|]. split; [|done]. by intros k ?%elem_of_nil.
  - simpl map. rewrite join_cons. unfold join at 1. simpl.
    unfold stringifyString. str_simpl. done.
  - simpl map. rewrite join_cons. unfold join at 2. simpl.
    unfold stringifyString. str_simpl. done.
  - simpl map. rewrite !join_cons, !append_assoc. intros H.
    apply stringifyString_inj in H as [<- H]. str_simpl. injection H as H.
    destruct (key_property k1 es1) as [x Hx]; [apply Hkeys, list_elem_of_here|].
    destruct (Hes2 k1) as (y & Hy & Hwy); [apply list_elem_of_here|].
    destruct (Hdet k1 x) as [Hdx Hwx]; [apply list_elem_of_here|done|].
    rewrite Hx, Hy in H. simpl in H. rewrite ?append_assoc in H.
    apply Hdx in H as [Hxy Hrest]; [|done|done|by destruct ks1|by destruct ks2].
    assert (Hhere : ∀ k, k ∈ [k1] → ∃ x y, property k es1 = Some x ∧ property k es2 = Some y
                                            ∧ same_tree x y).
    { intros k ->%list_elem_of_singleton. eauto. }
    destruct ks1 as [|k1' ks1], ks2 as [|k2' ks2]; simpl in Hrest; str_simpl; try done.
    + injection Hrest as ->. done.
    + injection Hrest as Hrest.
      destruct (IH (λ k x Hk, Hdet k x (list_elem_of_further _ _ _ Hk))
                  (λ k Hk, Hkeys k (list_elem_of_further _ _ _ Hk))
                  (k2' :: ks2) r1 r2
                  (λ k Hk, Hes2 k (list_elem_of_further _ _ _ Hk)) Hrest)
        as (Hks & Hall & ->).
      split; [by rewrite Hks|]. split; [|done].
      intros k [->|Hk]%elem_of_cons; [apply Hhere, list_elem_of_here|by apply Hall].
Qed.

(** Objects with distinct keys, the same keys and equal properties are
    equal as trees. *)
Lemma same_tree_object (es1 es2 : list (string * value number)) :
  NoDup (keys es1) → NoDup (keys es2) → keys es1 ≡ₚ keys es2 →
  (∀ k, k ∈ keys es1 → ∃ x y, property k es1 = Some x ∧ property k es2 = Some y
                              ∧ same_tree x y) →
  same_tree (JObject es1) (JObject es2).
Proof.
  intros Hnodup1 Hnodup2 Hperm Hall.
  set (es' := map (λ e : string * value number,
                     (e.1, default e.2 (property e.1 es2))) es1).
  assert (Hkeys' : keys es' = keys es1).
  { unfold keys, es'. rewrite <- list_fmap_compose. by apply list_fmap_ext. }
  apply (same_object es1 es' es2).
  - unfold es'. clear Hkeys' es'.
    assert (Hin : ∀ e, e ∈ es1 → e ∈ es1) by done. revert Hin.
    generalize es1 at 1 3 4 as l.
    induction l as [|[k x] l IH]; intros Hin; simpl; constructor.
    + split; [done|]. simpl.
      assert (Hk : k ∈ keys es1).
      { unfold keys. apply (list_elem_of_fmap_2 fst _ (k, x)), Hin, list_elem_of_here. }
      destruct (Hall k Hk) as (x' & y & Hx' & Hy & Hsame).
      rewrite (elem_property k es1 x Hnodup1) in Hx' by apply Hin, list_elem_of_here.
      injection Hx' as <-. by rewrite Hy.
    + apply IH. intros e He. by apply Hin, list_elem_of_further.
  - apply NoDup_Permutation.
    + apply (NoDup_fmap_1 fst). fold (keys es'). by rewrite Hkeys'.
    + by apply (NoDup_fmap_1 fst).
    + intros [k y]. split.
      * intros (e & [= -> ->] & He)%list_elem_of_fmap.
        assert (Hk : e.1 ∈ keys es2).
        { rewrite <- Hperm. unfold keys. by apply list_elem_of_fmap_2. }
        destruct (key_property _ _ Hk) as [y Hy]. rewrite Hy. simpl.
        by apply property_elem.
      * intros Hy.
        assert (Hk : k ∈ keys es1).
        { rewrite Hperm. unfold keys. by apply (list_elem_of_fmap_2 fst _ (k, y)). }
        destruct (key_property _ _ Hk) as [x Hx]. apply property_elem in Hx.
        apply list_elem_of_fmap. exists (k, x). split; [|done]. simpl.
        by rewrite (elem_property k es2 y Hnodup2 Hy).
Qed.

Lemma sort_keys (ks : list string) (k : string) : k ∈ sort ks ↔ k ∈ ks.
Proof. unfold sort. by rewrite merge_sort_Permutation. Qed.

(** Every value is determined by its canonical text. *)
Lemma all_determined (v1 : value number) : determined exact v1.
Proof.
  induction v1 as [|b|n|s|items IH|entries IH] using value_nested_ind;
    intros v2 r1 r2 Hwf1 Hwf2 Hr1 Hr2 H.
  all: match goal with
       | H : stableStringify ?v +:+ _ = _ |- _ =>
           assert (Hvariant : variant v = variant v2);
           [ destruct (stableStringify_announces v r1 (proj2 Hwf1))
               as (c1 & rest1 & H1 & Ha1);
             destruct (stableStringify_announces v2 r2 (proj2 Hwf2))
               as (c2 & rest2 & H2 & Ha2);
             rewrite H, H2 in H1; injection H1 as -> _; by rewrite <- Ha1, <- Ha2 |]
       end.
  all: destruct v2 as [|b2|n2|s2|items2|entries2]; try discriminate Hvariant; clear Hvariant.
  - simpl in H. str_simpl. injection H as ->. split; [constructor|done].
  - destruct b, b2; simpl in H; str_simpl; try discriminate;
      injection H as ->; (split; [constructor|done]).
  - simpl in H. destruct Hwf1 as [_ Hexact1], Hwf2 as [_ Hexact2]. simpl in Hexact1, Hexact2.
    destruct (number_text n Hexact1) as [_ Hn], (number_text n2 Hexact2) as [_ Hn2].
    destruct (number_text_inj _ _ _ _ Hn Hn2 Hr1 Hr2 H) as [Heq ->].
    apply number_inj in Heq as ->; [|done..]. split; [constructor|done].
  - simpl in H. apply stringifyString_inj in H as [-> ->]. split; [constructor|done].
  - simpl in H. rewrite !append_cons, !append_nil_l, !append_assoc in H.
    injection H as H. str_simpl.
    apply proper_array in Hwf1, Hwf2.
    destruct (items_determined items IH Hwf1 items2 r1 r2 Hwf2 H) as [Hall ->].
    split; [by constructor|done].
  - rewrite !stableStringify_object in H.
    rewrite !append_cons, !append_nil_l, !append_assoc in H.
    injection H as H. str_simpl.
    apply proper_object in Hwf1 as [Hnodup1 Hwfs1], Hwf2 as [Hnodup2 Hwfs2].
    destruct (properties_determined entries entries2 (sort (keys entries))) with
      (ks2 := sort (keys entries2)) (r1 := r1) (r2 := r2) as (Hks & Hall & ->).
    + intros k x _ Hx%property_elem. split.
      * by apply (proj1 (Forall_forall _ _) IH (k, x)).
      * by apply (proj1 (Forall_forall _ _) Hwfs1 (k, x)).
    + intros k. by rewrite sort_keys.
    + intros k Hk. apply (proj1 (sort_keys _ _)) in Hk.
      destruct (key_property _ _ Hk) as [y Hy]. exists y.
      split; [done|]. apply property_elem in Hy.
      by apply (proj1 (Forall_forall _ _) Hwfs2 (k, y)).
    + done.
    + split; [|done]. apply same_tree_object; [done|done| |].
      * unfold sort in Hks.
        by rewrite <- (merge_sort_Permutation String.le (keys entries)), Hks,
          merge_sort_Permutation.
      * intros k Hk. apply Hall. by apply sort_keys.
Qed.

(** The signature identifies the payload, numbers that have no text of
    their own apart.  For a rendering of numbers that gives the numbers
    [exact] accepts different texts made of characters of numbers (as
    [JSON.stringify] does for the finite numbers), two payloads with
    distinct keys in every object and exact numbers only have the same
    signature for a session and a tool exactly when they are equal as
    trees, whatever the order of the properties: among such payloads no
    other passes the payload test of [validateConfirm].  A number written
    [null] (NaN, an infinity) is not told from null: the payloads that
    differ in it have one signature. *)
Theorem signature_determines_payload (sessionId tool : string) (P P' : value number) :
  wf_value P → wf_value P' → exact_value exact P → exact_value exact P' →
  (computeSignature sessionId tool P = computeSignature sessionId tool P' ↔ same_tree P P')
  ∧ ∀ (n : number) (key : string),
      stringifyNumber n = "null" →
      computeSignature sessionId tool (JObject [(key, JNumber n)])
      = computeSignature sessionId tool (JObject [(key, JNull)])
      ∧ ¬ same_tree (JObject [(key, JNumber n)]) (JObject [(key, JNull)]).
Proof.
  intros Hwf Hwf' Hexact Hexact'. split; [split|].
  - unfold computeSignature. intros H.
    do 4 apply append_inv_head in H.
    destruct (all_determined P P' "" "" (conj Hwf Hexact) (conj Hwf' Hexact') I I)
      as [Hsame _]; [|done].
    by rewrite H.
  - intros Hsame. unfold computeSignature.
    by rewrite (stableStringify_same_tree P P' Hwf' Hsame).
  - intros n key Hnull. split.
    + unfold computeSignature. do 4 f_equal. simpl. by rewrite Hnull.
    + intros Hsame. inversion Hsame as [| | | | |es es' fs Hall Hperm]; subst.
      apply Permutation_singleton_r in Hperm as ->.
      apply Forall2_cons_1 in Hall as [[_ Hvalue] _]. simpl in Hvalue.
      inversion Hvalue.
Qed.

End CanonicalInjective.

(** ** Integers in decimal *)

Section DecimalNumbers.

Lemma to_int_proper (z : Z) : Z.to_int z ≠ Decimal.Pos Decimal.Nil ∧ Z.to_int z ≠ Decimal.Neg Decimal.Nil.
Proof.
  destruct z as [|p|p]; simpl; split; try done; intros [= H];
    by apply DecimalPos.Unsigned.to_uint_nonnil in H.
Qed.

(** Different integers have different decimal texts. *)
Lemma decimal_inj (n m : Z) : stringifyNumber n = stringifyNumber m → n = m.
Proof.
  unfold stringifyNumber, Z_JsonNumber. intros H.
  destruct (to_int_proper n) as [Hn1 Hn2], (to_int_proper m) as [Hm1 Hm2].
  pose proof (NilZero.isi _ Hn1 Hn2) as Hn. pose proof (NilZero.isi _ Hm1 Hm2) as Hm.
  rewrite H, Hm in Hn. injection Hn as Hn. symmetry. by apply DecimalZ.to_int_inj.
Qed.

Lemma decimal_digits (d : Decimal.uint) :
  all_chars number_char (NilEmpty.string_of_uint d) = true.
Proof. induction d; simpl; done. Qed.

(** A decimal text is not empty and made of digits and the minus sign. *)
Lemma decimal_text (n : Z) :
  stringifyNumber n ≠ "" ∧ all_chars number_char (stringifyNumber n) = true.
Proof.
  unfold stringifyNumber, Z_JsonNumber.
  assert (Huint : ∀ d, NilZero.string_of_uint d ≠ ""
                       ∧ all_chars number_char (NilZero.string_of_uint d) = true).
  { intros d. destruct d; simpl; try done; split; try done; apply decimal_digits. }
  destruct (Z.to_int n) as [d|d]; simpl; [apply Huint|].
  split; [done|]. apply Huint.
Qed.

End DecimalNumbers.

(** ** The staged-action store *)

Ltac run_method :=
  unfold recordPlan, recordDryRun, validateConfirm, recordConfirm,
    mbind, method_bind, mret, method_ret, gets, throw, modify in *; simpl in *.

Section StoreFacts.
Context {number : Type} `{!JsonNumber number}.

Lemma truthy_Some (s : string) : s ≠ "" → truthy (Some s) = true.
Proof. intros Hs. simpl. by apply negb_true_iff, String.eqb_neq. Qed.

Lemma truthy_true (o : option string) :
  truthy o = true → ∃ s, o = Some s ∧ s ≠ "".
Proof.
  destruct o as [s|]; simpl; [|done]. intros H%negb_true_iff%String.eqb_neq. eauto.
Qed.

Lemma expired_false (e now : Z) : (now ≤ e)%Z → expired (Some e) now = false.
Proof. intros. unfold expired. apply andb_false_iff. right. by apply Z.ltb_ge. Qed.

Lemma expired_true (e now : Z) : e ≠ 0%Z → (e < now)%Z → expired (Some e) now = true.
Proof.
  intros ? ?. unfold expired. apply andb_true_iff. split.
  - by apply negb_true_iff, Z.eqb_neq.
  - by apply Z.ltb_lt.
Qed.

(** [validateConfirm] only reads the store. *)
Lemma validateConfirm_reads (actionId sessionId tool : string) (payload : value number)
    (now : Z) (st : Store number) :
  (validateConfirm actionId sessionId tool payload now st).1 = st.
Proof. run_method. repeat case_match; done. Qed.

(** [recordPlan] never throws. *)
Lemma recordPlan_returns (sessionId tool : string) (payload result : value number)
    (requestedBy : option string) (uuid : string) (now : Z) (st : Store number) :
  ∃ planRecord,
    (recordPlan sessionId tool payload result requestedBy uuid now st).2 = Return planRecord
    ∧ actionId planRecord = uuid.
Proof. run_method. destruct (truthy _) eqn:Hex; simpl; eauto. Qed.

(** What a successful [recordDryRun] leaves behind. *)
Lemma recordDryRun_Return (sessionId tool : string) (payload result : value number)
    (approvedBy0 : option string) (approvalTtlMs : option Z) (now : Z)
    (st st2 : Store number) (d : ActionStageRecord number) :
  recordDryRun sessionId tool payload result approvedBy0 approvalTtlMs now st
    = (st2, Return d) →
  signatureIndex st !! computeSignature sessionId tool payload = Some (actionId d)
  ∧ approvedBy (metadata d) = approvedBy0
  ∧ expiresAt (metadata d) = Some (now + default DEFAULT_APPROVAL_TTL_MS approvalTtlMs)%Z
  ∧ ∃ lc, lifecycles st2 !! actionId d = Some lc ∧ dryRun lc = Some d
          ∧ lc_sessionId lc = sessionId.
Proof.
  run_method.
  destruct (signatureIndex st !! _) as [found|] eqn:Hidx; simpl; [|done].
  destruct (negb (found =? "")%string); simpl; [|done].
  destruct (lifecycles st !! found) as [lc|] eqn:Hlc; simpl; [|done].
  destruct (plan lc) as [planRecord|]; simpl; [|done].
  destruct (lc_sessionId lc =? sessionId)%string eqn:Hsid; simpl; [|done].
  intros [= <- <-]. simpl. repeat split.
  eexists. rewrite lookup_insert_eq. repeat split. simpl.
  by apply String.eqb_eq.
Qed.

(** Past the expiry [validateConfirm] throws; it throws the expiry error
    when the checks made before the expiry test pass. *)
Lemma validateConfirm_expired (A sessionId tool : string) (payload : value number)
    (now : Z) (st : Store number) (lc : ActionLifecycle number)
    (d : ActionStageRecord number) :
  lifecycles st !! A = Some lc → dryRun lc = Some d →
  expired (expiresAt (metadata d)) now = true →
  ∃ e, validateConfirm A sessionId tool payload now st = (st, Throw e)
       ∧ (lc_tool lc = tool → lc_sessionId lc = sessionId →
          computeSignature sessionId tool payload = signature lc →
          truthy (approvedBy (metadata d)) = true → e = ApprovalExpired).
Proof.
  intros Hlc Hdry Hexp. run_method. rewrite Hlc. simpl.
  destruct (lc_tool lc =? tool)%string eqn:Ht; simpl.
  2:{ eexists; split; [done|]. intros E. by rewrite E, String.eqb_refl in Ht. }
  destruct (lc_sessionId lc =? sessionId)%string eqn:Hs; simpl.
  2:{ eexists; split; [done|]. intros _ E. by rewrite E, String.eqb_refl in Hs. }
  destruct (computeSignature sessionId tool payload =? signature lc)%string eqn:Hsig; simpl.
  2:{ eexists; split; [done|]. intros _ _ E. rewrite E, String.eqb_refl in Hsig. done. }
  rewrite Hdry. simpl.
  destruct (truthy (approvedBy (metadata d))) eqn:Happr; simpl.
  2:{ eexists; split; [done|]. done. }
  rewrite Hexp. simpl. eauto.
Qed.

(** On a lifecycle with a confirm stage [validateConfirm] throws. *)
Lemma validateConfirm_confirmed (A sessionId tool : string) (payload : value number)
    (now : Z) (st : Store number) :
  (∀ lc, lifecycles st !! A = Some lc → is_Some (confirm lc)) →
  ∃ e, validateConfirm A sessionId tool payload now st = (st, Throw e).
Proof.
  intros Hconfirmed. run_method.
  destruct (lifecycles st !! A) as [lc|] eqn:Hlc; simpl; [|eauto].
  specialize (Hconfirmed lc eq_refl).
  destruct (negb (lc_tool lc =? tool)%string); simpl; [eauto|].
  destruct (negb (lc_sessionId lc =? sessionId)%string); simpl; [eauto|].
  destruct (negb (computeSignature sessionId tool payload =? signature lc)%string);
    simpl; [eauto|].
  destruct (dryRun lc) as [d|]; simpl; [|eauto].
  destruct (negb (truthy (approvedBy (metadata d)))); simpl; [eauto|].
  destruct (expired (expiresAt (metadata d)) now); simpl; [eauto|].
  rewrite bool_decide_eq_true_2 by done. eauto.
Qed.

End StoreFacts.

Section StoreClaims.
Context {number : Type} `{!JsonNumber number}.

(** C1 (amended).  From any store, [recordPlan (s, t, P)] drawing a
    non-empty identifier, then [recordDryRun (s, t, P)] with a non-empty
    approver, then [validateConfirm] with that identifier and the same
    [(s, t, P)] no later than the stamped expiry returns the dry_run stage
    record; and [validateConfirm] with a payload of a different signature
    then throws the payload-mismatch error, at any time. *)
Theorem plan_dry_run_confirm (sessionId tool : string) (P r1 r2 : value number)
    (requestedBy0 approvedBy0 : option string) (ttl : option Z) (uuid : string)
    (t1 t2 t3 : Z) (st : Store number) :
  uuid ≠ "" →
  truthy approvedBy0 = true →
  (t3 ≤ t2 + default DEFAULT_APPROVAL_TTL_MS ttl)%Z →
  ∃ st1 st2 planRecord dryRunRecord,
    recordPlan sessionId tool P r1 requestedBy0 uuid t1 st = (st1, Return planRecord)
    ∧ actionId planRecord = uuid
    ∧ recordDryRun sessionId tool P r2 approvedBy0 ttl t2 st1 = (st2, Return dryRunRecord)
    ∧ mode dryRunRecord = StageDryRun
    ∧ validateConfirm uuid sessionId tool P t3 st2 = (st2, Return dryRunRecord)
    ∧ (∀ P' t4,
        computeSignature sessionId tool P' ≠ computeSignature sessionId tool P →
        validateConfirm uuid sessionId tool P' t4 st2 = (st2, Throw PayloadDiffers))
    ∧ error_message PayloadDiffers
      = "Confirmation payload differs from the approved dry_run.".
Proof.
  intros Huuid Happr Htime.
  destruct (recordPlan sessionId tool P r1 requestedBy0 uuid t1 st) as [st1 o1] eqn:Hplan.
  assert (Hst1 : signatureIndex st1 !! computeSignature sessionId tool P = Some uuid
                 ∧ ∃ lc, lifecycles st1 !! uuid = Some lc
                         ∧ lc_sessionId lc = sessionId ∧ lc_tool lc = tool
                         ∧ signature lc = computeSignature sessionId tool P
                         ∧ is_Some (plan lc) ∧ confirm lc = None
                         ∧ ∃ p, o1 = Return p ∧ actionId p = uuid).
  { revert Hplan. run_method.
    destruct (truthy (signatureIndex st !! _)); simpl; intros [= <- <-]; simpl;
      rewrite !lookup_insert_eq; eauto 12. }
  destruct Hst1 as (Hidx & lc & Hlc & Hsid & Htool & Hsig & [pl Hpl] & Hconf & p & -> & Hp).
  eexists st1, _, p, _. split; [done|]. split; [done|]. split.
  { unfold recordDryRun, mbind, method_bind, gets, throw, modify, mret, method_ret.
    simpl. rewrite Hidx, (truthy_Some _ Huuid). simpl. rewrite Hlc, Hpl.
    rewrite Hsid, String.eqb_refl. simpl. reflexivity. }
  split; [done|]. split.
  - run_method. rewrite lookup_insert_eq. simpl.
    rewrite ?Htool, ?Hsid, ?Hsig, !String.eqb_refl. simpl. rewrite Happr. simpl.
    rewrite (proj2 (Z.ltb_ge _ _) Htime), andb_false_r, Hconf. done.
  - split; [|done]. intros P' t4 Hne. run_method. rewrite lookup_insert_eq. simpl.
    rewrite ?Htool, ?Hsid, ?Hsig, !String.eqb_refl. simpl.
    apply String.eqb_neq in Hne. by rewrite Hne.
Qed.

(** C3 (amended).  When the signature of a new plan already has a (truthy)
    entry [old] in the signature index and the identifier drawn differs from
    it, [recordPlan] makes the index point to the new identifier and also
    deletes the previous lifecycle from the lifecycle map: [validateConfirm]
    on the old identifier throws the unknown-action error. *)
Theorem replan_evicts_previous (sessionId tool : string) (P r : value number)
    (requestedBy0 : option string) (uuid old : string) (now : Z) (st : Store number) :
  signatureIndex st !! computeSignature sessionId tool P = Some old →
  old ≠ "" →
  uuid ≠ old →
  ∃ st' planRecord,
    recordPlan sessionId tool P r requestedBy0 uuid now st = (st', Return planRecord)
    ∧ actionId planRecord = uuid
    ∧ signatureIndex st' !! computeSignature sessionId tool P = Some uuid
    ∧ lifecycles st' !! old = None
    ∧ (∀ s t p n, validateConfirm old s t p n st' = (st', Throw UnknownActionRerun))
    ∧ error_message UnknownActionRerun = "Unknown action. Please re-run plan and dry_run.".
Proof.
  intros Hidx Hold Hne.
  eexists _, _. split.
  { unfold recordPlan, mbind, method_bind, gets, modify, mret, method_ret. simpl.
    rewrite Hidx, (truthy_Some _ Hold). simpl. reflexivity. }
  simpl. split; [done|]. split; [by rewrite lookup_insert_eq|].
  assert (Hgone : ∀ lc : ActionLifecycle number,
            <[uuid:=lc]> (delete old (lifecycles st)) !! old = None)
    by (intros lc; rewrite lookup_insert_ne by done; apply lookup_delete_eq).
  split; [apply Hgone|]. split; [|done].
  intros s t p n. run_method. by rewrite Hgone.
Qed.

(** C10.  A throwing [recordDryRun] or [recordConfirm] leaves the lifecycle
    map, the signature index and the ledger as they were before the call;
    [validateConfirm] leaves them as they were whether it returns or throws;
    [recordPlan] does not throw. *)
Theorem store_failure_atomic :
  (∀ sessionId tool (payload result : value number) approvedBy0 ttl now st st' e,
     recordDryRun sessionId tool payload result approvedBy0 ttl now st = (st', Throw e) →
     st' = st)
  ∧ (∀ actionId0 sessionId tool (payload result : value number) confirmedBy0 now st st' e,
       recordConfirm actionId0 sessionId tool payload result confirmedBy0 now st
         = (st', Throw e) →
       st' = st)
  ∧ (∀ actionId0 sessionId tool (payload : value number) now st,
       (validateConfirm actionId0 sessionId tool payload now st).1 = st)
  ∧ (∀ sessionId tool (payload result : value number) requestedBy0 uuid now st,
       ∃ planRecord,
         (recordPlan sessionId tool payload result requestedBy0 uuid now st).2
         = Return planRecord).
Proof.
  split; [|split; [|split]].
  - intros sessionId tool payload result approvedBy0 ttl now st st' e. run_method.
    destruct (negb (truthy (signatureIndex st !! _))); simpl; [by intros [= <- _]|].
    destruct (lifecycles st !! _) as [lc|]; simpl; [|by intros [= <- _]].
    destruct (plan lc); simpl; [|by intros [= <- _]].
    destruct (negb (lc_sessionId lc =? sessionId)%string); simpl; [by intros [= <- _]|].
    done.
  - intros actionId0 sessionId tool payload result confirmedBy0 now st st' e. run_method.
    destruct (lifecycles st !! _) as [lc|]; simpl; [done | by intros [= <- _]].
  - intros. apply validateConfirm_reads.
  - intros sessionId tool payload result requestedBy0 uuid now st.
    destruct (recordPlan_returns sessionId tool payload result requestedBy0 uuid now st)
      as (p & Hp & _).
    eauto.
Qed.

End StoreClaims.

Section LedgerFacts.
Context {number : Type} `{!JsonNumber number}.
Local Open Scope list_scope.

(** What [recordPlan] does to the store. *)
Lemma recordPlan_effect (s t : string) (p r : value number) (by_ : option string)
    (uuid : string) (now : Z) (st : Store number) :
  ∃ lcs planRecord m,
    (recordPlan s t p r by_ uuid now st).1 =
      {| lifecycles :=
           <[uuid := {| lc_actionId := uuid; lc_sessionId := s; lc_tool := t;
                        lc_payload := p; signature := computeSignature s t p;
                        plan := Some planRecord; dryRun := None; confirm := None |}]> lcs;
         signatureIndex := <[computeSignature s t p := uuid]> (signatureIndex st);
         events := events st ++
                   [ActionRecorded StagePlan uuid s t p r m now] |}
    ∧ (lcs = lifecycles st
       ∨ ∃ old, signatureIndex st !! computeSignature s t p = Some old ∧ old ≠ ""
                ∧ lcs = delete old (lifecycles st)).
Proof.
  run_method.
  destruct (signatureIndex st !! computeSignature s t p) as [old|] eqn:Hidx; simpl.
  - destruct (old =? "")%string eqn:Hold; simpl.
    + eexists _, _, _. split; [reflexivity|]. by left.
    + eexists _, _, _. split; [reflexivity|]. right. exists old.
      by apply String.eqb_neq in Hold.
  - eexists _, _, _. split; [reflexivity|]. by left.
Qed.

(** What a [recordDryRun] that returns does to the store. *)
Lemma recordDryRun_effect (s t : string) (p r : value number) (by_ : option string)
    (ttl : option Z) (now : Z) (st st' : Store number) (d : ActionStageRecord number) :
  recordDryRun s t p r by_ ttl now st = (st', Return d) →
  ∃ lc,
    signatureIndex st !! computeSignature s t p = Some (actionId d)
    ∧ actionId d ≠ ""
    ∧ lifecycles st !! actionId d = Some lc
    ∧ is_Some (plan lc)
    ∧ lc_sessionId lc = s
    ∧ approvedBy (metadata d) = by_
    ∧ expiresAt (metadata d) = Some (now + default DEFAULT_APPROVAL_TTL_MS ttl)%Z
    ∧ st' =
      {| lifecycles :=
           <[actionId d := {| lc_actionId := lc_actionId lc; lc_sessionId := lc_sessionId lc;
                              lc_tool := lc_tool lc; lc_payload := p;
                              signature := signature lc; plan := plan lc;
                              dryRun := Some d; confirm := confirm lc |}]> (lifecycles st);
         signatureIndex := signatureIndex st;
         events := events st ++
                   [ActionRecorded StageDryRun (actionId d) s t p r (metadata d) now] |}.
Proof.
  run_method.
  destruct (signatureIndex st !! _) as [found|] eqn:Hidx; simpl; [|done].
  destruct (found =? "")%string eqn:Hfound; simpl; [done|].
  destruct (lifecycles st !! found) as [lc|] eqn:Hlc; simpl; [|done].
  destruct (plan lc) as [planRecord|] eqn:Hplan; simpl; [|done].
  destruct (lc_sessionId lc =? s)%string eqn:Hsid; simpl; [|done].
  intros [= <- <-]. simpl. exists lc.
  apply String.eqb_neq in Hfound. apply String.eqb_eq in Hsid.
  rewrite Hplan. done.
Qed.

(** A [recordDryRun] that throws leaves the store as it was. *)
Lemma recordDryRun_Throw (s t : string) (p r : value number) (by_ : option string)
    (ttl : option Z) (now : Z) (st st' : Store number) (e : StoreError) :
  recordDryRun s t p r by_ ttl now st = (st', Throw e) → st' = st.
Proof.
  run_method.
  destruct (negb (truthy (signatureIndex st !! _))); simpl; [congruence|].
  destruct (lifecycles st !! _) as [lc|]; simpl; [|congruence].
  destruct (plan lc); simpl; [|congruence].
  destruct (negb (lc_sessionId lc =? s)%string); simpl; congruence.
Qed.

(** What a [validateConfirm] that returns has checked. *)
Lemma validateConfirm_Return (A s t : string) (p : value number) (now : Z)
    (st st' : Store number) (d : ActionStageRecord number) :
  validateConfirm A s t p now st = (st', Return d) →
  st' = st
  ∧ ∃ lc, lifecycles st !! A = Some lc
          ∧ lc_tool lc = t
          ∧ lc_sessionId lc = s
          ∧ computeSignature s t p = signature lc
          ∧ dryRun lc = Some d
          ∧ truthy (approvedBy (metadata d)) = true
          ∧ expired (expiresAt (metadata d)) now = false
          ∧ confirm lc = None.
Proof.
  run_method.
  destruct (lifecycles st !! A) as [lc|] eqn:Hlc; simpl; [|done].
  destruct (lc_tool lc =? t)%string eqn:Ht; simpl; [|done].
  destruct (lc_sessionId lc =? s)%string eqn:Hs; simpl; [|done].
  destruct (computeSignature s t p =? signature lc)%string eqn:Hsig; simpl; [|done].
  destruct (dryRun lc) as [d0|] eqn:Hdry; simpl; [|done].
  destruct (truthy (approvedBy (metadata d0))) eqn:Happr; simpl; [|done].
  destruct (expired (expiresAt (metadata d0)) now) eqn:Hexp; simpl; [done|].
  destruct (confirm lc) as [c|] eqn:Hc; simpl; [done|].
  intros [= <- <-]. split; [done|]. exists lc.
  apply String.eqb_eq in Ht, Hs, Hsig. done.
Qed.

(** What [recordConfirm] does to the store. *)
Lemma recordConfirm_effect (A s t : string) (p r : value number) (by_ : option string)
    (now : Z) (st : Store number) :
  match lifecycles st !! A with
  | None => recordConfirm A s t p r by_ now st = (st, Throw UnknownAction)
  | Some lc =>
      ∃ c,
        approvedBy (metadata c) = dryRun lc ≫= (λ d, approvedBy (metadata d))
        ∧ recordConfirm A s t p r by_ now st =
          ({| lifecycles :=
                <[A := {| lc_actionId := lc_actionId lc; lc_sessionId := lc_sessionId lc;
                          lc_tool := lc_tool lc; lc_payload := lc_payload lc;
                          signature := signature lc; plan := plan lc;
                          dryRun := dryRun lc; confirm := Some c |}]> (lifecycles st);
              signatureIndex := delete (signature lc) (signatureIndex st);
              events := events st ++
                        [ActionRecorded StageConfirm A s t p r (metadata c) now] |},
           Return c)
  end.
Proof.
  run_method. destruct (lifecycles st !! A) as [lc|]; simpl; [|done].
  match goal with |- ∃ c, _ ∧ (_, Return ?x) = _ => exists x end. done.
Qed.

(** A lifecycle without a dry_run stage is not confirmable. *)
Lemma validateConfirm_no_dry_run (A s t : string) (p : value number) (now : Z)
    (st : Store number) :
  (∀ lc, lifecycles st !! A = Some lc → dryRun lc = None) →
  ∃ e, validateConfirm A s t p now st = (st, Throw e).
Proof.
  intros Hnone. run_method.
  destruct (lifecycles st !! A) as [lc|] eqn:Hlc; simpl; [|eauto].
  rewrite (Hnone lc eq_refl).
  destruct (negb (lc_tool lc =? t)%string); simpl; [eauto|].
  destruct (negb (lc_sessionId lc =? s)%string); simpl; [eauto|].
  destruct (negb (computeSignature s t p =? signature lc)%string); simpl; eauto.
Qed.

(** A step that records no dry_run on [A] leaves the lifecycle under [A],
    if the store holds one, with the dry_run stage [d] or with none. *)
Lemma run_step_keeps_dry_run (A : string) (d : ActionStageRecord number)
    (step : Step number) (st : Store number) :
  ¬ renews A step st →
  (∀ lc, lifecycles st !! A = Some lc → dryRun lc = None ∨ dryRun lc = Some d) →
  ∀ lc, lifecycles (run_step step st) !! A = Some lc → dryRun lc = None ∨ dryRun lc = Some d.
Proof.
  intros Hstep Hkept.
  assert (Hconfirm : ∀ a s t p r by_ now lc,
            lifecycles (recordConfirm a s t p r by_ now st).1 !! A = Some lc →
            dryRun lc = None ∨ dryRun lc = Some d).
  { intros a s t p r by_ now lc.
    pose proof (recordConfirm_effect a s t p r by_ now st) as Hcall.
    destruct (lifecycles st !! a) as [lc0|] eqn:Hlc0.
    - destruct Hcall as (c & _ & ->). simpl.
      destruct (decide (a = A)) as [->|Hne].
      + rewrite lookup_insert_eq. intros [= <-]. simpl. by apply Hkept.
      + rewrite lookup_insert_ne by done. apply Hkept.
    - rewrite Hcall. apply Hkept. }
  assert (Hother : ∀ s t p r by_ ttl now st' d0,
            step = Invoke (CallRecordDryRun s t p r by_ ttl now) →
            recordDryRun s t p r by_ ttl now st = (st', Return d0) → actionId d0 ≠ A).
  { intros s t p r by_ ttl now st' d0 -> Hcall. unfold renews in Hstep.
    by rewrite Hcall in Hstep. }
  clear Hstep.
  destruct step as [[s t p r by_ uuid now|s t p r by_ ttl now|a s t p now
                    |a s t p r by_ now|a s t p r by_ now1 now2]|e]; simpl in *.
  - (* recordPlan *)
    destruct (recordPlan_effect s t p r by_ uuid now st) as (lcs & pr & m & -> & Hlcs).
    simpl. intros lc. destruct (decide (uuid = A)) as [->|Hne].
    + rewrite lookup_insert_eq. intros [= <-]. by left.
    + rewrite lookup_insert_ne by done.
      destruct Hlcs as [->|(old & _ & _ & ->)]; [apply Hkept|].
      intros [_ Hlc]%lookup_delete_Some. by apply Hkept.
  - (* recordDryRun *)
    destruct (recordDryRun s t p r by_ ttl now st) as [st' [d0|e]] eqn:Hcall; simpl.
    2:{ by apply recordDryRun_Throw in Hcall as ->. }
    pose proof (Hother _ _ _ _ _ _ _ _ _ eq_refl Hcall) as Hne.
    apply recordDryRun_effect in Hcall as (lc0 & Hidx & _ & _ & _ & _ & _ & _ & ->).
    simpl. intros lc. rewrite lookup_insert_ne by done. apply Hkept.
  - (* validateConfirm *)
    by rewrite validateConfirm_reads.
  - apply Hconfirm.
  - (* validateConfirm, then recordConfirm *)
    pose proof (validateConfirm_reads a s t p now1 st) as Hsame.
    destruct (validateConfirm a s t p now1 st) as [st' [d0|e]]; simpl in Hsame; subst st';
      [apply Hconfirm | done].
  - done.
Qed.

(** C4 (amended).  After a successful [recordDryRun] whose stamped expiry
    [now + ttl] (five minutes when no ttl is given; [now] itself for a ttl
    of 0) is not zero, and after any further calls on the store and events
    of the host among which no [recordDryRun] is made on that lifecycle,
    every [validateConfirm] on the action identifier at a clock reading
    strictly greater than that expiry throws and leaves the store as it is;
    the lifecycle, if the store still holds one under the identifier, has
    that dry_run stage or none, and with that stage the error is the expiry
    error when the call names the lifecycle's tool and session with a
    payload of its signature and the dry_run has a non-empty approver. *)
Theorem expired_approval_rejected (sessionId tool : string) (P r : value number)
    (approvedBy0 : option string) (ttl : option Z) (t2 t3 : Z)
    (st st2 : Store number) (d : ActionStageRecord number) (steps : list (Step number)) :
  recordDryRun sessionId tool P r approvedBy0 ttl t2 st = (st2, Return d) →
  (t2 + default DEFAULT_APPROVAL_TTL_MS ttl ≠ 0)%Z →
  (t2 + default DEFAULT_APPROVAL_TTL_MS ttl < t3)%Z →
  no_new_dry_run (actionId d) steps st2 →
  let st3 := run_steps steps st2 in
  (∀ s t p, ∃ e, validateConfirm (actionId d) s t p t3 st3 = (st3, Throw e))
  ∧ (∃ lc, lifecycles st2 !! actionId d = Some lc ∧ dryRun lc = Some d)
  ∧ (∀ lc, lifecycles st3 !! actionId d = Some lc →
       (dryRun lc = None ∨ dryRun lc = Some d)
       ∧ (dryRun lc = Some d →
          ∀ p, truthy approvedBy0 = true →
               computeSignature (lc_sessionId lc) (lc_tool lc) p = signature lc →
               validateConfirm (actionId d) (lc_sessionId lc) (lc_tool lc) p t3 st3
               = (st3, Throw ApprovalExpired)))
  ∧ error_message ApprovalExpired
    = "Dry_run approval has expired. Please run a new dry_run.".
Proof.
  intros Hdry Hnz Hlate Hsteps st3.
  apply recordDryRun_Return in Hdry as (_ & Happr & Hexp & lc2 & Hlc2 & Hd2 & _).
  assert (Hexpired : expired (expiresAt (metadata d)) t3 = true)
    by (rewrite Hexp; by apply expired_true).
  assert (Hkept : ∀ lc, lifecycles st3 !! actionId d = Some lc →
                        dryRun lc = None ∨ dryRun lc = Some d).
  { assert (Hstart : ∀ lc, lifecycles st2 !! actionId d = Some lc →
                           dryRun lc = None ∨ dryRun lc = Some d)
      by (intros lc; rewrite Hlc2; intros [= <-]; by right).
    subst st3. clear Hlc2. revert st2 Hsteps Hstart.
    induction steps as [|step steps IH]; intros st2 Hsteps Hstart; [done|].
    destruct Hsteps as [Hstep Hsteps]. simpl. apply IH; [done|].
    by apply run_step_keeps_dry_run. }
  split; [|split; [by exists lc2|split; [|done]]].
  - intros s t p.
    destruct (lifecycles st3 !! actionId d) as [lc|] eqn:Hlc.
    + destruct (Hkept lc eq_refl) as [Hnone|Hsome].
      * apply validateConfirm_no_dry_run. intros lc0. rewrite Hlc. by intros [= <-].
      * destruct (validateConfirm_expired (actionId d) s t p t3 st3 lc d Hlc Hsome Hexpired)
          as (e & He & _).
        eauto.
    + apply validateConfirm_no_dry_run. intros lc0. by rewrite Hlc.
  - intros lc Hlc. split; [by apply Hkept|]. intros Hsome p Htruthy Hsig.
    destruct (validateConfirm_expired (actionId d) (lc_sessionId lc) (lc_tool lc) p t3
                st3 lc d Hlc Hsome Hexpired) as (e & He & Hexp').
    rewrite He. rewrite Hexp'; [done..|]. by rewrite Happr.
Qed.

(** *** The ledger *)

Lemma run_call_events (call : Call number) (st : Store number) :
  ∃ new, events (run_call call st) = events st ++ new ∧ (length new ≤ 1)%nat.
Proof.
  destruct call as [s t p r by_ uuid now|s t p r by_ ttl now|a s t p now
                   |a s t p r by_ now|a s t p r by_ now1 now2]; simpl.
  - destruct (recordPlan_effect s t p r by_ uuid now st) as (lcs & pr & m & -> & _).
    simpl. eexists. split; [done|]. simpl. lia.
  - destruct (recordDryRun s t p r by_ ttl now st) as [st' [d|e]] eqn:Hcall; simpl.
    + apply recordDryRun_effect in Hcall as (lc & _ & _ & _ & _ & _ & _ & _ & ->).
      simpl. eexists. split; [done|]. simpl. lia.
    + apply recordDryRun_Throw in Hcall as ->. exists []. rewrite app_nil_r. split; [done|simpl; lia].
  - rewrite validateConfirm_reads. exists []. rewrite app_nil_r. split; [done|simpl; lia].
  - pose proof (recordConfirm_effect a s t p r by_ now st) as Hcall.
    destruct (lifecycles st !! a) as [lc|].
    + destruct Hcall as (c & _ & ->). simpl. eexists. split; [done|]. simpl. lia.
    + rewrite Hcall. exists []. rewrite app_nil_r. split; [done|simpl; lia].
  - destruct (validateConfirm a s t p now1 st) as [st' [d|e]] eqn:Hval.
    + apply validateConfirm_Return in Hval as (-> & lc & Hlc & _).
      pose proof (recordConfirm_effect a s t p r by_ now2 st) as Hcall.
      rewrite Hlc in Hcall. destruct Hcall as (c & _ & ->).
      simpl. eexists. split; [done|]. simpl. lia.
    + pose proof (validateConfirm_reads a s t p now1 st) as Hsame.
      rewrite Hval in Hsame. simpl in Hsame. subst st'.
      exists []. rewrite app_nil_r. split; [done|simpl; lia].
Qed.

(** The ledger only grows: whatever calls are made on the store and
    whatever else the host logs, the events the ledger had stay where they
    were, and every step adds at most one event. *)
Theorem ledger_append_only (steps : list (Step number)) (st : Store number) :
  ∃ new, events (run_steps steps st) = events st ++ new
         ∧ (length new ≤ length steps)%nat.
Proof.
  revert st. induction steps as [|step steps IH]; intros st.
  - exists []. rewrite app_nil_r. split; [done|simpl; lia].
  - simpl. destruct (IH (run_step step st)) as (new2 & -> & Hlen2).
    assert (∃ new1, events (run_step step st) = events st ++ new1 ∧ (length new1 ≤ 1)%nat)
      as (new1 & -> & Hlen1).
    { destruct step as [call|e]; simpl; [apply run_call_events|].
      exists [e]. split; [done|]. simpl. lia. }
    exists (new1 ++ new2). rewrite app_assoc, length_app. split; [done|]. simpl. lia.
Qed.

Lemma approved_before_app (log new : list (Event number)) (i : nat) (A : string)
    (approver : option string) :
  approved_before log i A approver → approved_before (log ++ new) i A approver.
Proof.
  intros (j & k & s1 & t1 & p1 & r1 & m1 & ts1 & s0 & t0 & p0 & r0 & m0 & ts0
          & Hlt & Hj & Hby & Hk).
  exists j, k, s1, t1, p1, r1, m1, ts1, s0, t0, p0, r0, m0, ts0.
  split; [done|]. split; [by apply lookup_app_l_Some|]. split; [done|].
  by apply lookup_app_l_Some.
Qed.

Lemma audited_snoc (log : list (Event number)) (e : Event number) :
  audited log →
  (∀ A s t p r m ts, e = ActionRecorded StageConfirm A s t p r m ts →
     truthy (approvedBy m) = true ∧ approved_before log (length log) A (approvedBy m)) →
  audited (log ++ [e]).
Proof.
  intros Hlog He i A s t p r m ts [[_ Hi]|[-> ->]]%lookup_snoc_Some.
  - destruct (Hlog _ _ _ _ _ _ _ _ Hi) as [? ?]. split; [done|].
    by apply approved_before_app.
  - destruct (He _ _ _ _ _ _ _ eq_refl) as [? ?]. split; [done|].
    by apply approved_before_app.
Qed.

Lemma covered_app (st st' : Store number) (new : list (Event number)) :
  lifecycles st' = lifecycles st → events st' = events st ++ new →
  covered st → covered st'.
Proof.
  intros Hlcs Hev Hcov id lc Hlc. rewrite Hlcs in Hlc.
  destruct (Hcov id lc Hlc) as (k & s0 & t0 & p0 & r0 & m0 & ts0 & Hk & Hdry).
  exists k, s0, t0, p0, r0, m0, ts0. rewrite Hev.
  split; [by apply lookup_app_l_Some|].
  intros d Hd. destruct (Hdry d Hd) as (j & s1 & t1 & p1 & r1 & ts1 & Hlt & Hj).
  exists j, s1, t1, p1, r1, ts1. split; [done|]. by apply lookup_app_l_Some.
Qed.

(** A lifecycle that is replaced by one with the same dry_run stage. *)
Lemma covered_insert_same (st : Store number) (A : string) (lc lc' : ActionLifecycle number)
    (idx : gmap string string) (new : list (Event number)) :
  lifecycles st !! A = Some lc → dryRun lc' = dryRun lc →
  covered st →
  covered {| lifecycles := <[A := lc']> (lifecycles st); signatureIndex := idx;
             events := events st ++ new |}.
Proof.
  intros Hlc Hsame Hcov id lc0. simpl.
  destruct (decide (id = A)) as [->|Hne].
  - rewrite lookup_insert_eq. intros [= <-].
    destruct (Hcov A lc Hlc) as (k & s0 & t0 & p0 & r0 & m0 & ts0 & Hk & Hdry).
    exists k, s0, t0, p0, r0, m0, ts0. split; [by apply lookup_app_l_Some|].
    intros d Hd. rewrite Hsame in Hd.
    destruct (Hdry d Hd) as (j & s1 & t1 & p1 & r1 & ts1 & Hlt & Hj).
    exists j, s1, t1, p1, r1, ts1. split; [done|]. by apply lookup_app_l_Some.
  - rewrite lookup_insert_ne by done. intros Hlc0.
    destruct (Hcov id lc0 Hlc0) as (k & s0 & t0 & p0 & r0 & m0 & ts0 & Hk & Hdry).
    exists k, s0, t0, p0, r0, m0, ts0. split; [by apply lookup_app_l_Some|].
    intros d Hd. destruct (Hdry d Hd) as (j & s1 & t1 & p1 & r1 & ts1 & Hlt & Hj).
    exists j, s1, t1, p1, r1, ts1. split; [done|]. by apply lookup_app_l_Some.
Qed.

Lemma approved_before_later (log : list (Event number)) (i i' : nat) (A : string)
    (approver : option string) :
  (i ≤ i')%nat → approved_before log i A approver → approved_before log i' A approver.
Proof.
  intros Hle (j & k & s1 & t1 & p1 & r1 & m1 & ts1 & s0 & t0 & p0 & r0 & m0 & ts0
              & Hlt & Hj & Hby & Hk).
  exists j, k, s1, t1, p1, r1, m1, ts1, s0, t0, p0, r0, m0, ts0.
  split; [lia|done].
Qed.

Lemma approval_before_grows (log new : list (Event number)) (i i' : nat) (A : string) :
  (i ≤ i')%nat → approval_before log i A → approval_before (log ++ new) i' A.
Proof.
  intros Hle (approver & Htruthy & Hbefore). exists approver. split; [done|].
  by apply approved_before_app, (approved_before_later _ i).
Qed.

Lemma confirms_approved_snoc (log : list (Event number)) (e : Event number) :
  confirms_approved log →
  (∀ A s t p r m ts, e = ActionRecorded StageConfirm A s t p r m ts →
     approval_before log (length log) A) →
  confirms_approved (log ++ [e]).
Proof.
  intros Hlog He i A s t p r m ts [[_ Hi]|[-> ->]]%lookup_snoc_Some.
  - by apply (approval_before_grows _ _ i), (Hlog _ _ _ _ _ _ _ _ Hi).
  - by apply (approval_before_grows _ _ (length log)), (He _ _ _ _ _ _ _ eq_refl).
Qed.

(** The approval [covered] gives for a lifecycle with an approved dry_run. *)
Lemma covered_approval (st : Store number) (A : string) (lc : ActionLifecycle number)
    (d : ActionStageRecord number) :
  covered st → lifecycles st !! A = Some lc → dryRun lc = Some d →
  approved_before (events st) (length (events st)) A (approvedBy (metadata d)).
Proof.
  intros Hcov Hlc Hdry.
  destruct (Hcov A lc Hlc) as (k & s0 & t0 & p0 & r0 & m0 & ts0 & Hk & Hd).
  destruct (Hd d Hdry) as (j & s1 & t1 & p1 & r1 & ts1 & Hlt & Hj).
  exists j, k, s1, t1, p1, r1, (metadata d), ts1, s0, t0, p0, r0, m0, ts0.
  split; [|done]. split; [done|]. by apply lookup_lt_Some in Hj.
Qed.

(** Every step keeps the ledger covering the lifecycles. *)
Lemma run_step_covered (step : Step number) (st : Store number) :
  covered st → covered (run_step step st).
Proof.
  intros Hcov.
  assert (Hconfirm : ∀ a s t p r by_ now, covered (recordConfirm a s t p r by_ now st).1).
  { intros a s t p r by_ now.
    pose proof (recordConfirm_effect a s t p r by_ now st) as Hcall.
    destruct (lifecycles st !! a) as [lc|] eqn:Hlc.
    - destruct Hcall as (c & _ & ->). simpl. by apply (covered_insert_same st a lc).
    - by rewrite Hcall. }
  destruct step as [[s t p r by_ uuid now|s t p r by_ ttl now|a s t p now
                    |a s t p r by_ now|a s t p r by_ now1 now2]|e]; simpl in *.
  - (* recordPlan *)
    destruct (recordPlan_effect s t p r by_ uuid now st) as (lcs & pr & m & -> & Hlcs).
    intros id lc. simpl. destruct (decide (id = uuid)) as [->|Hne].
    + rewrite lookup_insert_eq. intros [= <-].
      exists (length (events st)), s, t, p, r, m, now.
      split; [by apply list_lookup_middle|]. done.
    + rewrite lookup_insert_ne by done. intros Hlc.
      assert (Hold : lifecycles st !! id = Some lc).
      { destruct Hlcs as [->|(old & _ & _ & ->)]; [done|].
        by apply lookup_delete_Some in Hlc as [_ ?]. }
      destruct (Hcov id lc Hold) as (k & s0 & t0 & p0 & r0 & m0 & ts0 & Hk & Hdry).
      exists k, s0, t0, p0, r0, m0, ts0. split; [by apply lookup_app_l_Some|].
      intros d Hd. destruct (Hdry d Hd) as (j & s1 & t1 & p1 & r1 & ts1 & Hlt & Hj).
      exists j, s1, t1, p1, r1, ts1. split; [done|]. by apply lookup_app_l_Some.
  - (* recordDryRun *)
    destruct (recordDryRun s t p r by_ ttl now st) as [st' [d|e]] eqn:Hcall; simpl.
    2:{ by apply recordDryRun_Throw in Hcall as ->. }
    apply recordDryRun_effect in Hcall as (lc & _ & _ & Hlc & _ & _ & _ & _ & ->).
    intros id lc0. simpl. destruct (decide (id = actionId d)) as [->|Hne].
    + rewrite lookup_insert_eq. intros [= <-]. simpl.
      destruct (Hcov _ lc Hlc) as (k & s0 & t0 & p0 & r0 & m0 & ts0 & Hk & _).
      exists k, s0, t0, p0, r0, m0, ts0. split; [by apply lookup_app_l_Some|].
      intros d0 [= <-]. exists (length (events st)), s, t, p, r, now.
      split; [by apply lookup_lt_Some in Hk|]. by apply list_lookup_middle.
    + rewrite lookup_insert_ne by done. intros Hlc0.
      destruct (Hcov id lc0 Hlc0) as (k & s0 & t0 & p0 & r0 & m0 & ts0 & Hk & Hdry).
      exists k, s0, t0, p0, r0, m0, ts0. split; [by apply lookup_app_l_Some|].
      intros d0 Hd. destruct (Hdry d0 Hd) as (j & s1 & t1 & p1 & r1 & ts1 & Hlt & Hj).
      exists j, s1, t1, p1, r1, ts1. split; [done|]. by apply lookup_app_l_Some.
  - (* validateConfirm *)
    by rewrite validateConfirm_reads.
  - apply Hconfirm.
  - (* validateConfirm, then recordConfirm *)
    pose proof (validateConfirm_reads a s t p now1 st) as Hsame.
    destruct (validateConfirm a s t p now1 st) as [st' [d|e]]; simpl in Hsame; subst st';
      [apply Hconfirm | done].
  - (* an event of another part of the host *)
    by apply (covered_app st _ [e]).
Qed.

(** A step made with every confirm at once keeps the ledger audited. *)
Lemma run_step_audited (step : Step number) (st : Store number) :
  confirms_at_once step → covered st → audited (events st) →
  audited (events (run_step step st)).
Proof.
  intros Hstep Hcov Haud.
  destruct step as [[s t p r by_ uuid now|s t p r by_ ttl now|a s t p now
                    |a s t p r by_ now|a s t p r by_ now1 now2]|e]; simpl in *.
  - destruct (recordPlan_effect s t p r by_ uuid now st) as (lcs & pr & m & -> & Hlcs).
    simpl. by apply audited_snoc.
  - destruct (recordDryRun s t p r by_ ttl now st) as [st' [d|e]] eqn:Hcall; simpl.
    2:{ by apply recordDryRun_Throw in Hcall as ->. }
    apply recordDryRun_effect in Hcall as (lc & _ & _ & Hlc & _ & _ & _ & _ & ->).
    simpl. by apply audited_snoc.
  - by rewrite validateConfirm_reads.
  - done.
  - (* validateConfirm, then recordConfirm *)
    destruct (validateConfirm a s t p now1 st) as [st' [d|e]] eqn:Hval.
    2:{ pose proof (validateConfirm_reads a s t p now1 st) as Hsame.
        rewrite Hval in Hsame. simpl in Hsame. by subst st'. }
    apply validateConfirm_Return in Hval
      as (-> & lc & Hlc & _ & _ & _ & Hdry & Happr & _ & _).
    pose proof (recordConfirm_effect a s t p r by_ now2 st) as Hcall.
    rewrite Hlc in Hcall. destruct Hcall as (c & Hby & ->). simpl.
    rewrite Hdry in Hby. simpl in Hby.
    apply audited_snoc; [done|].
    intros A s' t' p' r' m' ts' [= <- <- <- <- <- <- <-]. rewrite Hby.
    split; [done|]. by apply (covered_approval st a lc).
  - apply audited_snoc; [done|]. intros A s t p r m ts ->. done.
Qed.

(** A step of executions that may overlap keeps every confirm event behind
    an approved dry_run of its action, and every validated action behind
    one. *)
Lemma run_step_approved (step : Step number) (st : Store number) (validated : list string) :
  match step with
  | Invoke (CallRecordConfirm a _ _ _ _ _ _) => a ∈ validated
  | Invoke _ => True
  | Log e => foreign e
  end →
  covered st → confirms_approved (events st) →
  (∀ a, a ∈ validated → approval_before (events st) (length (events st)) a) →
  confirms_approved (events (run_step step st))
  ∧ ∀ a, a ∈ match validates step st with
             | Some a => a :: validated
             | None => validated
             end →
         approval_before (events (run_step step st))
           (length (events (run_step step st))) a.
Proof.
  intros Hstep Hcov Haud Hval.
  assert (Hgrow : ∀ new a, a ∈ validated →
            approval_before (events st ++ new) (length (events st ++ new)) a).
  { intros new a Ha. apply (approval_before_grows _ _ (length (events st))), Hval, Ha.
    rewrite length_app. lia. }
  assert (Hrecord : ∀ a s t p r by_ now,
            approval_before (events st) (length (events st)) a →
            confirms_approved (events (recordConfirm a s t p r by_ now st).1)
            ∧ ∀ a0, a0 ∈ validated →
                approval_before (events (recordConfirm a s t p r by_ now st).1)
                  (length (events (recordConfirm a s t p r by_ now st).1)) a0).
  { intros a s t p r by_ now Ha.
    pose proof (recordConfirm_effect a s t p r by_ now st) as Hcall.
    destruct (lifecycles st !! a) as [lc|] eqn:Hlc.
    - destruct Hcall as (c & _ & ->). simpl. split; [|intros a0; apply Hgrow].
      apply confirms_approved_snoc; [done|].
      by intros A s' t' p' r' m' ts' [= <- <- <- <- <- <- <-].
    - rewrite Hcall. done. }
  assert (Hvalidated : ∀ a s t p now d,
            (validateConfirm a s t p now st).2 = Return d →
            approval_before (events st) (length (events st)) a).
  { intros a s t p now d Hret.
    destruct (validateConfirm a s t p now st) as [st' [d0|e]] eqn:Hcall; [|done].
    apply validateConfirm_Return in Hcall
      as (_ & lc & Hlc & _ & _ & _ & Hdry & Happr & _ & _).
    exists (approvedBy (metadata d0)). split; [done|]. by apply (covered_approval st a lc). }
  destruct step as [[s t p r by_ uuid now|s t p r by_ ttl now|a s t p now
                    |a s t p r by_ now|a s t p r by_ now1 now2]|e]; simpl in *.
  - destruct (recordPlan_effect s t p r by_ uuid now st) as (lcs & pr & m & -> & Hlcs).
    simpl. split; [by apply confirms_approved_snoc | apply Hgrow].
  - destruct (recordDryRun s t p r by_ ttl now st) as [st' [d|e]] eqn:Hcall; simpl.
    2:{ by apply recordDryRun_Throw in Hcall as ->. }
    apply recordDryRun_effect in Hcall as (lc & _ & _ & Hlc & _ & _ & _ & _ & ->).
    simpl. split; [by apply confirms_approved_snoc | apply Hgrow].
  - rewrite validateConfirm_reads. split; [done|].
    destruct (validateConfirm a s t p now st).2 as [d|e] eqn:Hret; [|done].
    intros a0 [->|Ha0]%elem_of_cons; [by eapply Hvalidated | by apply Hval].
  - by apply Hrecord, Hval.
  - (* validateConfirm, then recordConfirm *)
    pose proof (validateConfirm_reads a s t p now1 st) as Hsame.
    destruct (validateConfirm a s t p now1 st) as [st' [d|e]] eqn:Hcall;
      simpl in Hsame; subst st'; simpl; [|done].
    assert (Ha : approval_before (events st) (length (events st)) a).
    { eapply (Hvalidated a s t p now1 d). by rewrite Hcall. }
    destruct (Hrecord a s t p r by_ now2 Ha) as [Hconf Hrest]. split; [done|].
    intros a0 [->|Ha0]%elem_of_cons; [|by apply Hrest].
    pose proof (recordConfirm_effect a s t p r by_ now2 st) as Heff.
    destruct (lifecycles st !! a) as [lc|].
    + destruct Heff as (c & _ & ->). simpl.
      apply (approval_before_grows _ _ (length (events st))); [|done].
      rewrite length_app. lia.
    + by rewrite Heff.
  - split.
    + apply confirms_approved_snoc; [done|]. intros A s t p r m ts ->. done.
    + apply Hgrow.
Qed.

(** The audit trail.  In the ledger of a new store, whatever the
    calls the tools make, with [recordConfirm] on an action only after a
    [validateConfirm] on that action has returned (any number of steps
    earlier: the executions may overlap), and whatever events the host logs
    in between, every confirm event is preceded by a dry_run event of the
    same action with a non-empty approver, itself preceded by a plan event
    of that action.  When moreover every [recordConfirm] is made at once
    after its [validateConfirm], with no call on the store in between, the
    confirm event itself names a non-empty approver, that of such a dry_run
    event. *)
Theorem confirmations_are_audited (steps : list (Step number)) (log : list (Event number))
    (i : nat) (A s t : string) (p r : value number) (m : Metadata) (ts : Z) :
  Forall foreign log → confirms_validated steps (new_store log) [] →
  events (run_steps steps (new_store log)) !! i
    = Some (ActionRecorded StageConfirm A s t p r m ts) →
  (∃ j k s1 t1 p1 r1 m1 ts1 s0 t0 p0 r0 m0 ts0,
      (k < j < i)%nat
      ∧ events (run_steps steps (new_store log)) !! j
        = Some (ActionRecorded StageDryRun A s1 t1 p1 r1 m1 ts1)
      ∧ truthy (approvedBy m1) = true
      ∧ events (run_steps steps (new_store log)) !! k
        = Some (ActionRecorded StagePlan A s0 t0 p0 r0 m0 ts0))
  ∧ (Forall confirms_at_once steps →
     truthy (approvedBy m) = true
     ∧ ∃ j k s1 t1 p1 r1 m1 ts1 s0 t0 p0 r0 m0 ts0,
         (k < j < i)%nat
         ∧ events (run_steps steps (new_store log)) !! j
           = Some (ActionRecorded StageDryRun A s1 t1 p1 r1 m1 ts1)
         ∧ approvedBy m1 = approvedBy m
         ∧ events (run_steps steps (new_store log)) !! k
           = Some (ActionRecorded StagePlan A s0 t0 p0 r0 m0 ts0)).
Proof.
  intros Hlog Hsteps Hi.
  assert (Hcov : covered (new_store log))
    by (intros id lc Hlc; simpl in Hlc; by rewrite lookup_empty in Hlc).
  assert (Hnone : ∀ i0 A0 s0 t0 p0 r0 m0 ts0,
            events (new_store log) !! i0
              ≠ Some (ActionRecorded StageConfirm A0 s0 t0 p0 r0 m0 ts0)).
  { intros i0 A0 s0 t0 p0 r0 m0 ts0 Hi0. simpl in Hi0.
    apply (Forall_lookup_1 _ _ _ _ Hlog) in Hi0. done. }
  split.
  - assert (Hfinal : confirms_approved (events (run_steps steps (new_store log)))).
    { assert (Haud : confirms_approved (events (new_store log)))
        by (intros i0 A0 s0 t0 p0 r0 m0 ts0 Hi0; by apply Hnone in Hi0).
      assert (Hval : ∀ a, a ∈ ([] : list string) →
                approval_before (events (new_store log))
                  (length (events (new_store log))) a)
        by (by intros a ?%elem_of_nil).
      clear Hi Hnone. revert Hcov Haud Hval Hsteps.
      generalize ([] : list string) as validated. generalize (new_store log) as st.
      induction steps as [|step steps IH]; intros st validated Hcov Haud Hval Hsteps;
        [done|].
      destruct Hsteps as [Hstep Hsteps]. simpl.
      destruct (run_step_approved step st validated Hstep Hcov Haud Hval) as [Haud' Hval'].
      eapply IH; [by apply run_step_covered|done|done|done]. }
    destruct (Hfinal _ _ _ _ _ _ _ _ Hi)
      as (approver & Htruthy & j & k & s1 & t1 & p1 & r1 & m1 & ts1 & s0 & t0 & p0 & r0
          & m0 & ts0 & Hlt & Hj & Hby & Hk).
    exists j, k, s1, t1, p1, r1, m1, ts1, s0, t0, p0, r0, m0, ts0.
    rewrite Hby. done.
  - intros Honce.
    assert (Hfinal : audited (events (run_steps steps (new_store log)))).
    { assert (Haud : audited (events (new_store log)))
        by (intros i0 A0 s0 t0 p0 r0 m0 ts0 Hi0; by apply Hnone in Hi0).
      clear Hi Hnone Hsteps. revert Hcov Haud. generalize (new_store log) as st.
      induction Honce as [|step steps Hstep _ IH]; intros st Hcov Haud; [done|].
      simpl. apply IH; [by apply run_step_covered | by apply run_step_audited]. }
    apply (Hfinal _ _ _ _ _ _ _ _ Hi).
Qed.

(** *** The signature index *)

Lemma run_call_index_sound (call : Call number) (st : Store number) :
  match call with
  | CallRecordPlan _ _ _ _ _ uuid _ => uuid ≠ "" ∧ lifecycles st !! uuid = None
  | _ => True
  end →
  index_sound st → index_sound (run_call call st).
Proof.
  intros Hfresh Hinv.
  destruct call as [s t p r by_ uuid now|s t p r by_ ttl now|a s t p now
                   |a s t p r by_ now|a s t p r by_ now1 now2]; simpl.
  - (* recordPlan *)
    destruct Hfresh as [Huuid Hnew].
    destruct (recordPlan_effect s t p r by_ uuid now st) as (lcs & pr & m & -> & Hlcs).
    intros sig id. simpl. destruct (decide (sig = computeSignature s t p)) as [->|Hne].
    + rewrite lookup_insert_eq. intros [= <-]. split; [done|].
      eexists. rewrite lookup_insert_eq. split; [done|]. simpl. eauto.
    + rewrite lookup_insert_ne by done. intros Hidx.
      destruct (Hinv sig id Hidx) as (Hid & lc & Hlc & Hsig & Hplan & Hconf).
      split; [done|]. exists lc.
      rewrite lookup_insert_ne by (intros <-; congruence).
      split; [|done].
      destruct Hlcs as [->|(old & Hold & _ & ->)]; [done|].
      rewrite lookup_delete_ne; [done|]. intros <-.
      destruct (Hinv _ _ Hold) as (_ & lc' & Hlc' & Hsig' & _). congruence.
  - (* recordDryRun *)
    destruct (recordDryRun s t p r by_ ttl now st) as [st' [d|e]] eqn:Hcall; simpl.
    2:{ by apply recordDryRun_Throw in Hcall as ->. }
    apply recordDryRun_effect in Hcall as (lc & _ & _ & Hlc & _ & _ & _ & _ & ->).
    intros sig id. simpl. intros Hidx.
    destruct (Hinv sig id Hidx) as (Hid & lc0 & Hlc0 & Hsig & Hplan & Hconf).
    split; [done|]. destruct (decide (id = actionId d)) as [->|Hne].
    + eexists. rewrite lookup_insert_eq. split; [done|]. simpl.
      assert (lc0 = lc) as -> by congruence. done.
    + exists lc0. by rewrite lookup_insert_ne.
  - by rewrite validateConfirm_reads.
  - (* recordConfirm *)
    pose proof (recordConfirm_effect a s t p r by_ now st) as Hcall.
    destruct (lifecycles st !! a) as [lc|] eqn:Hlc; [|by rewrite Hcall].
    destruct Hcall as (c & _ & ->). intros sig id. simpl.
    intros [Hne Hidx]%lookup_delete_Some.
    destruct (Hinv sig id Hidx) as (Hid & lc0 & Hlc0 & Hsig & Hplan & Hconf).
    split; [done|]. exists lc0. rewrite lookup_insert_ne; [done|].
    intros <-. congruence.
  - (* validateConfirm, then recordConfirm *)
    destruct (validateConfirm a s t p now1 st) as [st' [d|e]] eqn:Hval.
    2:{ pose proof (validateConfirm_reads a s t p now1 st) as Hsame.
        rewrite Hval in Hsame. simpl in Hsame. by subst st'. }
    apply validateConfirm_Return in Hval as (-> & lc & Hlc & _).
    pose proof (recordConfirm_effect a s t p r by_ now2 st) as Hcall.
    rewrite Hlc in Hcall. destruct Hcall as (c & _ & ->). intros sig id. simpl.
    intros [Hne Hidx]%lookup_delete_Some.
    destruct (Hinv sig id Hidx) as (Hid & lc0 & Hlc0 & Hsig & Hplan & Hconf).
    split; [done|]. exists lc0. rewrite lookup_insert_ne; [done|].
    intros <-. congruence.
Qed.

(** The signature index never dangles.  In a store that started empty and
    whose plan identifiers were each non-empty and not held when drawn,
    after any sequence of calls every index entry names a held lifecycle
    with that signature, a plan stage and no confirm stage; hence
    [recordDryRun] never throws the plan-metadata-missing error and never
    adds a dry_run stage to a confirmed lifecycle. *)
Theorem signature_index_sound (steps : list (Step number)) (log : list (Event number)) :
  fresh_uuids steps (new_store log) →
  (∀ sig id, signatureIndex (run_steps steps (new_store log)) !! sig = Some id →
     id ≠ ""
     ∧ ∃ lc, lifecycles (run_steps steps (new_store log)) !! id = Some lc
             ∧ signature lc = sig ∧ is_Some (plan lc) ∧ confirm lc = None)
  ∧ ∀ s t p r by_ ttl now,
      match recordDryRun s t p r by_ ttl now (run_steps steps (new_store log)) with
      | (_, Throw e) => e = PlanRequired ∨ e = SessionMismatch
      | (st', Return d) =>
          ∃ lc, lifecycles (run_steps steps (new_store log)) !! actionId d = Some lc
                ∧ confirm lc = None
      end.
Proof.
  intros Hfresh.
  assert (Hinv : index_sound (run_steps steps (new_store log))).
  { assert (Hnew : index_sound (new_store log))
      by (intros sig id Hidx; simpl in Hidx; by rewrite lookup_empty in Hidx).
    revert Hfresh Hnew. generalize (new_store log) as st.
    induction steps as [|step steps IH]; intros st Hfresh Hst; [done|].
    simpl in *. destruct Hfresh as [Hstep Hfresh]. apply IH; [done|].
    destruct step as [call|e]; simpl; [|done].
    apply run_call_index_sound; [|done]. by destruct call. }
  split; [exact Hinv|]. intros s t p r by_ ttl now.
  set (st := run_steps steps (new_store log)) in *.
  destruct (recordDryRun s t p r by_ ttl now st) as [st' [d|e]] eqn:Hcall.
  - apply recordDryRun_effect in Hcall as (lc & Hidx & _ & Hlc & _).
    destruct (Hinv _ _ Hidx) as (_ & lc' & Hlc' & _ & _ & Hconf).
    exists lc'. done.
  - revert Hcall. run_method.
    destruct (signatureIndex st !! computeSignature s t p) as [id|] eqn:Hidx; simpl;
      [|intros [= _ <-]; by left].
    destruct (Hinv _ _ Hidx) as (Hid & lc & Hlc & _ & [pr Hplan] & _).
    apply String.eqb_neq in Hid. rewrite Hid. simpl. rewrite Hlc. simpl.
    rewrite Hplan. simpl.
    destruct (lc_sessionId lc =? s)%string; simpl; [done|].
    intros [= _ <-]. by right.
Qed.

(** *** Renewal, revocation and the end of an action *)

(** [recordDryRun] on an indexed lifecycle with a plan, from its session. *)
Lemma recordDryRun_runs (s t : string) (p r : value number) (by_ : option string)
    (ttl : option Z) (now : Z) (st : Store number) (id : string)
    (lc : ActionLifecycle number) :
  signatureIndex st !! computeSignature s t p = Some id → id ≠ "" →
  lifecycles st !! id = Some lc → is_Some (plan lc) → lc_sessionId lc = s →
  ∃ d, actionId d = id
       ∧ approvedBy (metadata d) = by_
       ∧ expiresAt (metadata d) = Some (now + default DEFAULT_APPROVAL_TTL_MS ttl)%Z
       ∧ recordDryRun s t p r by_ ttl now st =
         ({| lifecycles :=
               <[id := {| lc_actionId := lc_actionId lc; lc_sessionId := lc_sessionId lc;
                          lc_tool := lc_tool lc; lc_payload := p;
                          signature := signature lc; plan := plan lc;
                          dryRun := Some d; confirm := confirm lc |}]> (lifecycles st);
             signatureIndex := signatureIndex st;
             events := events st ++ [ActionRecorded StageDryRun id s t p r (metadata d) now] |},
          Return d).
Proof.
  intros Hidx Hid Hlc [pr Hplan] <-.
  unfold recordDryRun, mbind, method_bind, gets, throw, modify, mret, method_ret.
  simpl. rewrite Hidx, (truthy_Some _ Hid). simpl. rewrite Hlc, Hplan.
  rewrite String.eqb_refl. simpl.
  match goal with |- ∃ d, _ ∧ _ ∧ _ ∧ (_, Return ?x) = _ => exists x end.
  done.
Qed.

(** [validateConfirm] on a lifecycle of the tool, session and signature,
    with a dry_run stage and no confirm stage. *)
Lemma validateConfirm_decides (A s t : string) (p : value number) (now : Z)
    (st : Store number) (lc : ActionLifecycle number) (d : ActionStageRecord number) :
  lifecycles st !! A = Some lc → lc_tool lc = t → lc_sessionId lc = s →
  signature lc = computeSignature s t p → dryRun lc = Some d → confirm lc = None →
  validateConfirm A s t p now st =
  (st, if negb (truthy (approvedBy (metadata d))) then Throw NotApproved
       else if expired (expiresAt (metadata d)) now then Throw ApprovalExpired
       else Return d).
Proof.
  intros Hlc Ht Hs Hsig Hdry Hconf. run_method. rewrite Hlc. simpl.
  rewrite Ht, Hs, Hsig, !String.eqb_refl. simpl. rewrite Hdry. simpl.
  destruct (truthy (approvedBy (metadata d))); simpl; [|done].
  destruct (expired (expiresAt (metadata d)) now); simpl; [done|].
  by rewrite Hconf.
Qed.

(** The latest dry_run decides.  After a plan and two dry_runs of the same
    session, tool and payload, [validateConfirm] depends on the second
    dry_run only: it throws when that one names no approver, even if the
    first was approved (the approval is revoked); it returns the second
    record until the expiry the second stamped, even if the first approval
    has expired (the approval is renewed). *)
Theorem latest_dry_run_decides (s t : string) (P r0 r1 r2 : value number)
    (by0 by1 by2 : option string) (ttl1 ttl2 : option Z) (uuid : string)
    (t1 t2 t3 t4 : Z) (st : Store number) :
  uuid ≠ "" →
  ∃ st3 d2,
    recordDryRun s t P r2 by2 ttl2 t3
      (recordDryRun s t P r1 by1 ttl1 t2 (recordPlan s t P r0 by0 uuid t1 st).1).1
    = (st3, Return d2)
    ∧ actionId d2 = uuid
    ∧ validateConfirm uuid s t P t4 st3 =
      (st3, if negb (truthy by2) then Throw NotApproved
            else if expired (Some (t3 + default DEFAULT_APPROVAL_TTL_MS ttl2)%Z) t4
                 then Throw ApprovalExpired
            else Return d2).
Proof.
  intros Huuid.
  destruct (recordPlan_effect s t P r0 by0 uuid t1 st) as (lcs & pr & m & -> & _).
  edestruct (recordDryRun_runs s t P r1 by1 ttl1 t2) as (d1 & Hid1 & _ & _ & ->);
    [by simpl; apply lookup_insert_eq|done|by simpl; apply lookup_insert_eq
    |by simpl; eauto|done|].
  simpl.
  edestruct (recordDryRun_runs s t P r2 by2 ttl2 t3) as (d2 & Hid2 & Hby2 & Hexp2 & ->);
    [by simpl; apply lookup_insert_eq|done|by simpl; apply lookup_insert_eq
    |by simpl; eauto|done|].
  simpl. eexists _, d2. split; [done|]. split; [done|].
  erewrite validateConfirm_decides;
    [|by simpl; apply lookup_insert_eq|done..].
  by rewrite Hby2, Hexp2.
Qed.

(** A confirmed action is over.  Once the confirm branch of a tool has run
    ([validateConfirm] returned and [recordConfirm] followed), the session
    cannot approve the same tool and payload again: every later
    [recordDryRun] for them throws the plan-required error, until a new
    plan is recorded. *)
Theorem confirmed_action_needs_new_plan (A s t : string) (P r : value number)
    (by_ : option string) (now1 now2 : Z) (st : Store number)
    (d : ActionStageRecord number) :
  validateConfirm A s t P now1 st = (st, Return d) →
  ∃ st' c,
    recordConfirm A s t P r by_ now2 st = (st', Return c)
    ∧ ∀ r' by' ttl now3,
        recordDryRun s t P r' by' ttl now3 st' = (st', Throw PlanRequired).
Proof.
  intros (_ & lc & Hlc & _ & _ & Hsig & _)%validateConfirm_Return.
  pose proof (recordConfirm_effect A s t P r by_ now2 st) as Hcall.
  rewrite Hlc in Hcall. destruct Hcall as (c & _ & ->).
  eexists _, c. split; [done|]. intros r' by' ttl now3.
  run_method. by rewrite Hsig, lookup_delete_eq.
Qed.

(** *** Who can confirm *)

Lemma run_step_bound (uuid s t : string) (sig : string) (step : Step number)
    (st : Store number) :
  ¬ draws uuid step →
  (∀ lc, lifecycles st !! uuid = Some lc →
         lc_sessionId lc = s ∧ lc_tool lc = t ∧ signature lc = sig) →
  ∀ lc, lifecycles (run_step step st) !! uuid = Some lc →
        lc_sessionId lc = s ∧ lc_tool lc = t ∧ signature lc = sig.
Proof.
  intros Hstep Hinv.
  destruct step as [[s' t' p r by_ uuid' now|s' t' p r by_ ttl now|a s' t' p now
                    |a s' t' p r by_ now|a s' t' p r by_ now1 now2]|e]; simpl in *.
  - destruct (recordPlan_effect s' t' p r by_ uuid' now st) as (lcs & pr & m & -> & Hlcs).
    intros lc. simpl. rewrite lookup_insert_ne by done.
    destruct Hlcs as [->|(old & _ & _ & ->)]; [by auto|].
    intros [_ ?]%lookup_delete_Some. auto.
  - destruct (recordDryRun s' t' p r by_ ttl now st) as [st' [d|e]] eqn:Hcall; simpl.
    2:{ by apply recordDryRun_Throw in Hcall as ->. }
    apply recordDryRun_effect in Hcall as (lc0 & _ & _ & Hlc0 & _ & _ & _ & _ & ->).
    intros lc. simpl. destruct (decide (actionId d = uuid)) as [Heq|Hne].
    + rewrite Heq in *. rewrite lookup_insert_eq. intros [= <-]. simpl. auto.
    + rewrite lookup_insert_ne by done. auto.
  - by rewrite validateConfirm_reads.
  - pose proof (recordConfirm_effect a s' t' p r by_ now st) as Hcall.
    destruct (lifecycles st !! a) as [lc0|] eqn:Hlc0; [|by rewrite Hcall].
    destruct Hcall as (c & _ & ->). intros lc. simpl.
    destruct (decide (a = uuid)) as [->|Hne].
    + rewrite lookup_insert_eq. intros [= <-]. simpl. auto.
    + rewrite lookup_insert_ne by done. auto.
  - destruct (validateConfirm a s' t' p now1 st) as [st' [d|e]] eqn:Hval.
    2:{ pose proof (validateConfirm_reads a s' t' p now1 st) as Hsame.
        rewrite Hval in Hsame. simpl in Hsame. by subst st'. }
    apply validateConfirm_Return in Hval as (-> & lc0 & Hlc0 & _).
    pose proof (recordConfirm_effect a s' t' p r by_ now2 st) as Hcall.
    rewrite Hlc0 in Hcall. destruct Hcall as (c & _ & ->). intros lc. simpl.
    destruct (decide (a = uuid)) as [->|Hne].
    + rewrite lookup_insert_eq. intros [= <-]. simpl. auto.
    + rewrite lookup_insert_ne by done. auto.
  - done.
Qed.

(** An action stays with its planner.  After [recordPlan] for a session, a
    tool and a payload, and any further steps that do not draw the same
    identifier for another plan, [validateConfirm] on that identifier
    returns only for the same session, the same tool and a payload with the
    signature of the planned one. *)
Theorem confirm_bound_to_planner (s t : string) (P r : value number) (by_ : option string)
    (uuid : string) (now : Z) (st : Store number) (steps : list (Step number))
    (s' t' : string) (P' : value number) (now' : Z) (st' : Store number)
    (d : ActionStageRecord number) :
  Forall (λ step, ¬ draws uuid step) steps →
  validateConfirm uuid s' t' P' now'
    (run_steps steps (recordPlan s t P r by_ uuid now st).1) = (st', Return d) →
  s' = s ∧ t' = t ∧ computeSignature s t P' = computeSignature s t P.
Proof.
  intros Hsteps.
  assert (Hinv : ∀ lc,
            lifecycles (run_steps steps (recordPlan s t P r by_ uuid now st).1) !! uuid
              = Some lc →
            lc_sessionId lc = s ∧ lc_tool lc = t ∧ signature lc = computeSignature s t P).
  { assert (Hplan : ∀ lc,
              lifecycles (recordPlan s t P r by_ uuid now st).1 !! uuid = Some lc →
              lc_sessionId lc = s ∧ lc_tool lc = t ∧ signature lc = computeSignature s t P).
    { destruct (recordPlan_effect s t P r by_ uuid now st) as (lcs & pr & m & -> & _).
      intros lc. simpl. rewrite lookup_insert_eq. by intros [= <-]. }
    revert Hplan. generalize ((recordPlan s t P r by_ uuid now st).1) as st0.
    induction Hsteps as [|step steps Hstep _ IH]; intros st0 Hst0; [done|].
    simpl. apply IH. by apply run_step_bound. }
  intros (_ & lc & Hlc & Ht & Hs & Hsig & _)%validateConfirm_Return.
  destruct (Hinv lc Hlc) as (Hs0 & Ht0 & Hsig0). subst. by rewrite Hsig.
Qed.

(** *** The records the store returns *)

(** [recordPlan] from its result. *)
Lemma recordPlan_runs (s t : string) (p r : value number) (by_ : option string)
    (uuid : string) (now : Z) (st : Store number) :
  ∃ st1 planRecord,
    recordPlan s t p r by_ uuid now st = (st1, Return planRecord)
    ∧ actionId planRecord = uuid
    ∧ requestedBy (metadata planRecord) = by_
    ∧ signatureIndex st1 !! computeSignature s t p = Some uuid
    ∧ lifecycles st1 !! uuid =
        Some {| lc_actionId := uuid; lc_sessionId := s; lc_tool := t; lc_payload := p;
                signature := computeSignature s t p; plan := Some planRecord;
                dryRun := None; confirm := None |}.
Proof.
  run_method. destruct (truthy (signatureIndex st !! _)); simpl;
    eexists _, _; (split; [reflexivity|]); simpl; by rewrite !lookup_insert_eq.
Qed.

(** The metadata of the record [recordDryRun] returns. *)
Lemma recordDryRun_record (s t : string) (p r : value number) (by_ : option string)
    (ttl : option Z) (now : Z) (st st' : Store number) (d : ActionStageRecord number)
    (lc : ActionLifecycle number) :
  recordDryRun s t p r by_ ttl now st = (st', Return d) →
  lifecycles st !! actionId d = Some lc →
  metadata d =
    {| requestedBy := plan lc ≫= (λ planRecord, requestedBy (metadata planRecord));
       approvedBy := by_; approvedAt := Some now; confirmedBy := None; confirmedAt := None;
       expiresAt := Some (now + default DEFAULT_APPROVAL_TTL_MS ttl)%Z |}.
Proof.
  run_method.
  destruct (signatureIndex st !! _) as [found|] eqn:Hidx; simpl; [|done].
  destruct (found =? "")%string eqn:Hfound; simpl; [done|].
  destruct (lifecycles st !! found) as [lc0|] eqn:Hlc; simpl; [|done].
  destruct (plan lc0) as [planRecord|] eqn:Hplan; simpl; [|done].
  destruct (lc_sessionId lc0 =? s)%string eqn:Hsid; simpl; [|done].
  intros [= <- <-]. simpl. rewrite Hlc. intros [= <-]. by rewrite Hplan.
Qed.

(** The record [recordConfirm] returns. *)
Lemma recordConfirm_record (A s t : string) (p r : value number) (by_ : option string)
    (now : Z) (st st' : Store number) (c : ActionStageRecord number)
    (lc : ActionLifecycle number) :
  recordConfirm A s t p r by_ now st = (st', Return c) →
  lifecycles st !! A = Some lc →
  timestamp c = now
  ∧ metadata c =
    {| requestedBy := plan lc ≫= (λ planRecord, requestedBy (metadata planRecord));
       approvedBy := dryRun lc ≫= (λ d, approvedBy (metadata d));
       approvedAt := dryRun lc ≫= (λ d, approvedAt (metadata d));
       confirmedBy := by_; confirmedAt := Some now;
       expiresAt := dryRun lc ≫= (λ d, expiresAt (metadata d)) |}.
Proof.
  run_method. destruct (lifecycles st !! A) as [lc0|]; simpl; [|done].
  intros [= <- <-] [= <-]. done.
Qed.

(** [validateConfirm] on a lifecycle of the tool, session and signature
    that has an approved dry_run stage and a confirm stage. *)
Lemma validateConfirm_after_confirm (A s t : string) (p : value number) (now : Z)
    (st : Store number) (lc : ActionLifecycle number) (d : ActionStageRecord number) :
  lifecycles st !! A = Some lc → lc_tool lc = t → lc_sessionId lc = s →
  signature lc = computeSignature s t p → dryRun lc = Some d →
  truthy (approvedBy (metadata d)) = true → is_Some (confirm lc) →
  validateConfirm A s t p now st =
  (st, Throw (if expired (expiresAt (metadata d)) now then ApprovalExpired
              else AlreadyConfirmed)).
Proof.
  intros Hlc Ht Hs Hsig Hdry Happr [c Hconf]. run_method. rewrite Hlc. simpl.
  rewrite Ht, Hs, Hsig, !String.eqb_refl. simpl. rewrite Hdry. simpl.
  rewrite Happr. simpl.
  destruct (expired (expiresAt (metadata d)) now); simpl; [done|].
  by rewrite Hconf.
Qed.

End LedgerFacts.

(** ** The frame codec *)

Section CodecFacts.
Import WebSocket.
Local Close Scope string_scope.
Local Open Scope Z_scope.

Lemma blength_nonneg (buffer : list Z) : 0 ≤ blength buffer.
Proof. unfold blength. lia. Qed.

Lemma blength_app (a b : list Z) : blength (a ++ b) = blength a + blength b.
Proof. unfold blength. rewrite length_app. lia. Qed.

Lemma blength_cons (x : Z) (b : list Z) : blength (x :: b) = 1 + blength b.
Proof. unfold blength. simpl. lia. Qed.

(** Masking with [0xff] keeps the low byte. *)
Lemma land_0xff (n : Z) : Z.land n 0xff = n mod 256.
Proof. change 0xff with (Z.ones 8). by rewrite Z.land_ones. Qed.

Lemma land_0x7f_small (n : Z) : 0 ≤ n < 128 → Z.land n 0x7f = n.
Proof.
  intros. change 0x7f with (Z.ones 7). rewrite Z.land_ones by lia.
  apply Z.mod_small. lia.
Qed.

Lemma land_0x80_small (n : Z) : 0 ≤ n < 128 → Z.land n 0x80 = 0.
Proof.
  intros Hn. rewrite <- (land_0x7f_small n Hn), <- Z.land_assoc. apply Z.land_0_r.
Qed.

Lemma byte_app_r (before rest : list Z) (i : Z) :
  0 ≤ i → byte (before ++ rest) (blength before + i) = byte rest i.
Proof.
  intros Hi. unfold byte, blength.
  replace (Z.to_nat (Z.of_nat (length before) + i))
    with (length before + Z.to_nat i)%nat by lia.
  apply app_nth2_plus.
Qed.

Lemma byte_app_l (buffer more : list Z) (i : Z) :
  0 ≤ i < blength buffer → byte (buffer ++ more) i = byte buffer i.
Proof. intros Hi. unfold byte, blength in *. apply app_nth1. lia. Qed.

Lemma readUInt16BE_app_r (before rest : list Z) :
  readUInt16BE (before ++ rest) (blength before) = readUInt16BE rest 0.
Proof.
  unfold readUInt16BE. rewrite <- (byte_app_r before rest 0) by lia.
  rewrite <- (byte_app_r before rest (0 + 1)) by lia.
  by rewrite Z.add_0_r, Z.add_0_l.
Qed.

Lemma readUInt32BE_app_r (before rest : list Z) :
  readUInt32BE (before ++ rest) (blength before) = readUInt32BE rest 0.
Proof.
  unfold readUInt32BE. rewrite <- (byte_app_r before rest 0) by lia.
  rewrite <- (byte_app_r before rest (0 + 1)), <- (byte_app_r before rest (0 + 2)),
    <- (byte_app_r before rest (0 + 3)) by lia.
  by rewrite Z.add_0_r, !Z.add_0_l.
Qed.

Lemma read_write_UInt16BE (v : Z) (after : list Z) :
  0 ≤ v < 65536 → readUInt16BE (writeUInt16BE v ++ after) 0 = v.
Proof.
  intros Hv. unfold readUInt16BE, byte, writeUInt16BE.
  change (Z.to_nat 0) with 0%nat. change (Z.to_nat (0 + 1)) with 1%nat. cbn [app nth].
  rewrite !land_0xff, Z.shiftr_div_pow2 by lia.
  change (2 ^ 8) with 256.
  assert (0 ≤ v / 256 < 256)
    by (split; [apply Z.div_pos; lia | apply Z.div_lt_upper_bound; lia]).
  rewrite (Z.mod_small (v / 256)) by lia.
  pose proof (Z.div_mod v 256). lia.
Qed.

Lemma read_write_UInt32BE (v : Z) (after : list Z) :
  0 ≤ v < 2 ^ 32 → readUInt32BE (writeUInt32BE v ++ after) 0 = v.
Proof.
  intros Hv. unfold readUInt32BE, byte, writeUInt32BE.
  change (Z.to_nat 0) with 0%nat. change (Z.to_nat (0 + 1)) with 1%nat.
  change (Z.to_nat (0 + 2)) with 2%nat. change (Z.to_nat (0 + 3)) with 3%nat.
  cbn [app nth].
  rewrite !land_0xff, !Z.shiftr_div_pow2 by lia.
  change (2 ^ 24) with 16777216. change (2 ^ 16) with 65536. change (2 ^ 8) with 256.
  change (2 ^ 32) with 4294967296 in Hv.
  assert (0 ≤ v / 16777216 < 256)
    by (split; [apply Z.div_pos; lia | apply Z.div_lt_upper_bound; lia]).
  rewrite (Z.mod_small (v / 16777216)) by lia.
  replace (v / 16777216) with (v / 65536 / 256) by (rewrite Z.div_div by lia; done).
  replace (v / 65536) with (v / 256 / 256) by (rewrite Z.div_div by lia; done).
  pose proof (Z.div_mod v 256). pose proof (Z.mod_pos_bound v 256).
  pose proof (Z.div_mod (v / 256) 256). pose proof (Z.mod_pos_bound (v / 256) 256).
  pose proof (Z.div_mod (v / 256 / 256) 256).
  pose proof (Z.mod_pos_bound (v / 256 / 256) 256).
  lia.
Qed.

Lemma byte_0 (x : Z) (rest : list Z) : byte (x :: rest) 0 = x.
Proof. done. Qed.

Lemma byte_1 (x y : Z) (rest : list Z) : byte (x :: y :: rest) 1 = y.
Proof. done. Qed.

Lemma subarray_app_r (before rest : list Z) :
  subarray (before ++ rest) (blength before) (blength before + blength rest) = rest.
Proof.
  unfold subarray, blength.
  rewrite Nat2Z.id, drop_app_length.
  replace (Z.to_nat _) with (length rest) by lia.
  apply firstn_all.
Qed.

(** The first byte [encodeFrame] writes: fin set, the opcode in the low
    four bits. *)
Lemma first_byte_fin (op : Z) : Z.land (Z.lor 0x80 (Z.land op 0x0f)) 0x80 ≠ 0.
Proof.
  rewrite Z.land_lor_distr_l. change (Z.land 0x80 0x80) with 0x80.
  intros [H _]%Z.lor_eq_0_iff. done.
Qed.

Lemma first_byte_opcode (op : Z) :
  Z.land (Z.lor 0x80 (Z.land op 0x0f)) 0x0f = Z.land op 0x0f.
Proof.
  rewrite Z.land_lor_distr_l. change (Z.land 0x80 0x0f) with 0.
  rewrite Z.lor_0_l, <- Z.land_assoc. done.
Qed.

Lemma readUInt16BE_skip2 (a b : Z) (rest : list Z) :
  readUInt16BE (a :: b :: rest) 2 = readUInt16BE rest 0.
Proof. apply (readUInt16BE_app_r [a; b] rest). Qed.

Lemma readUInt32BE_skip2 (a b : Z) (rest : list Z) :
  readUInt32BE (a :: b :: rest) 2 = readUInt32BE rest 0.
Proof. apply (readUInt32BE_app_r [a; b] rest). Qed.

Lemma readUInt32BE_skip6 (a b c d e f : Z) (rest : list Z) :
  readUInt32BE (a :: b :: c :: d :: e :: f :: rest) 6 = readUInt32BE rest 0.
Proof. apply (readUInt32BE_app_r [a; b; c; d; e; f] rest). Qed.

Ltac blen :=
  unfold writeUInt16BE, writeUInt32BE, blength in *;
  repeat (rewrite ?length_app; cbn [length app]); lia.

(** Decoding an encoded frame, for any opcode: the frame has fin set, the
    low four bits of the opcode, the payload, and the length of the whole
    buffer as total length. *)
Lemma decode_encode (p : list Z) (op : Z) :
  blength p < 2 ^ 32 →
  decodeFrame (encodeFrame p op) =
  Frame {| fin := true; opcode := Z.land op 0x0f; payload := p;
           totalLength := blength (encodeFrame p op) |}.
Proof.
  intros Hlen. pose proof (blength_nonneg p) as Hpos.
  unfold encodeFrame.
  destruct (blength p <? 126) eqn:H126; [|destruct (blength p <? 65536) eqn:H16].
  - (* 7-bit length *)
    apply Z.ltb_lt in H126. cbn [app].
    set (first := Z.lor 0x80 (Z.land op 0x0f)).
    unfold decodeFrame.
    rewrite (proj2 (Z.ltb_ge _ 2)) by blen.
    rewrite byte_0, byte_1. subst first. rewrite first_byte_opcode.
    rewrite (proj2 (Z.eqb_neq _ _) (first_byte_fin op)).
    rewrite land_0x80_small, land_0x7f_small by lia.
    rewrite (proj2 (Z.eqb_neq _ 126)), (proj2 (Z.eqb_neq _ 127)) by lia.
    unfold decodePayload. change (0 =? 0) with true. cbn [negb].
    rewrite (proj2 (Z.ltb_ge _ _)) by blen.
    do 2 f_equal; [|blen].
    apply (subarray_app_r [_; _] p).
  - (* 16-bit length *)
    apply Z.ltb_ge in H126. apply Z.ltb_lt in H16. cbn [app].
    set (first := Z.lor 0x80 (Z.land op 0x0f)).
    unfold decodeFrame.
    rewrite (proj2 (Z.ltb_ge _ 2)) by blen.
    rewrite byte_0, byte_1. subst first. rewrite first_byte_opcode.
    rewrite (proj2 (Z.eqb_neq _ _) (first_byte_fin op)).
    change (Z.land 126 0x80) with 0. change (Z.land 126 0x7f) with 126.
    change (126 =? 126) with true. change (0 =? 0) with true. cbn [negb]. cbv iota.
    rewrite (proj2 (Z.ltb_ge _ (2 + 2))) by blen.
    rewrite readUInt16BE_skip2.
    rewrite read_write_UInt16BE by lia.
    unfold decodePayload. rewrite (proj2 (Z.ltb_ge _ _)) by blen.
    do 2 f_equal; [|blen].
    apply (subarray_app_r (_ :: _ :: writeUInt16BE (blength p)) p).
  - (* 64-bit length, high word zero *)
    apply Z.ltb_ge in H126, H16. cbn [app].
    set (first := Z.lor 0x80 (Z.land op 0x0f)).
    unfold decodeFrame.
    rewrite (proj2 (Z.ltb_ge _ 2)) by blen.
    rewrite byte_0, byte_1. subst first. rewrite first_byte_opcode.
    rewrite (proj2 (Z.eqb_neq _ _) (first_byte_fin op)).
    change (Z.land 127 0x80) with 0. change (Z.land 127 0x7f) with 127.
    change (127 =? 126) with false. change (127 =? 127) with true.
    change (0 =? 0) with true. cbn [negb]. cbv iota.
    rewrite (proj2 (Z.ltb_ge _ (2 + 8))) by blen.
    rewrite <- !app_assoc.
    rewrite readUInt32BE_skip2, (read_write_UInt32BE 0) by lia.
    change (0 =? 0) with true. cbn [negb].
    change (2 + 4) with 6. change (writeUInt32BE 0) with [0; 0; 0; 0]. cbn [app].
    rewrite readUInt32BE_skip6, read_write_UInt32BE by lia.
    unfold decodePayload. rewrite (proj2 (Z.ltb_ge _ _)) by blen.
    do 2 f_equal; [|blen].
    apply (subarray_app_r (_ :: _ :: _ :: _ :: _ :: _ :: writeUInt32BE (blength p)) p).
Qed.

(** C6.  Decoding the buffer [encodeFrame] builds for a text payload of
    fewer than [2 ^ 32] bytes gives a frame with fin set, opcode 0x1, the
    payload itself, and the length of the whole buffer as total length. *)
Theorem encode_decode_text (p : list Z) :
  blength p < 2 ^ 32 →
  decodeFrame (encodeFrame p 0x1) =
  Frame {| fin := true; opcode := 0x1; payload := p;
           totalLength := blength (encodeFrame p 0x1) |}.
Proof. intros Hlen. apply (decode_encode p 0x1 Hlen). Qed.

(** *** Decoding is stable under appended bytes *)

Lemma subarray_app_l (buffer more : list Z) (start stop : Z) :
  0 ≤ start → stop ≤ blength buffer →
  subarray (buffer ++ more) start stop = subarray buffer start stop.
Proof.
  intros Hstart Hstop. unfold subarray, blength in *.
  destruct (decide (stop ≤ start)) as [Hle|Hgt].
  - replace (Z.to_nat (stop - start)) with 0%nat by lia. done.
  - rewrite drop_app_le by lia. rewrite take_app_le; [done|].
    rewrite length_drop. lia.
Qed.

Lemma readUInt16BE_app_l (buffer more : list Z) (offset : Z) :
  0 ≤ offset → offset + 2 ≤ blength buffer →
  readUInt16BE (buffer ++ more) offset = readUInt16BE buffer offset.
Proof. intros. unfold readUInt16BE. by rewrite !byte_app_l by lia. Qed.

Lemma readUInt32BE_app_l (buffer more : list Z) (offset : Z) :
  0 ≤ offset → offset + 4 ≤ blength buffer →
  readUInt32BE (buffer ++ more) offset = readUInt32BE buffer offset.
Proof. intros. unfold readUInt32BE. by rewrite !byte_app_l by lia. Qed.

Lemma ltb_app_false (buffer more : list Z) (k : Z) :
  (blength buffer <? k) = false → (blength (buffer ++ more) <? k) = false.
Proof.
  rewrite !Z.ltb_ge, blength_app. pose proof (blength_nonneg more). lia.
Qed.

Lemma decodePayload_app (buffer more : list Z) (fin0 : bool) (op : Z) (masked : bool)
    (len offset : Z) :
  0 ≤ offset →
  decodePayload buffer fin0 op masked len offset ≠ Null →
  decodePayload (buffer ++ more) fin0 op masked len offset
  = decodePayload buffer fin0 op masked len offset.
Proof.
  intros Hoff. unfold decodePayload. destruct masked.
  - destruct (blength buffer <? offset + 4) eqn:H4; [done|].
    rewrite (ltb_app_false _ more _ H4).
    destruct (blength buffer <? offset + 4 + len) eqn:Hlen; [done|].
    rewrite (ltb_app_false _ more _ Hlen). intros _.
    apply Z.ltb_ge in H4, Hlen.
    by rewrite !subarray_app_l by lia.
  - destruct (blength buffer <? offset + len) eqn:Hlen; [done|].
    rewrite (ltb_app_false _ more _ Hlen). intros _.
    apply Z.ltb_ge in Hlen.
    by rewrite subarray_app_l by lia.
Qed.

(** Once [decodeFrame] has a frame (or throws), more bytes at the end of
    the buffer do not change what it gives. *)
Lemma decodeFrame_app (buffer more : list Z) :
  decodeFrame buffer ≠ Null → decodeFrame (buffer ++ more) = decodeFrame buffer.
Proof.
  unfold decodeFrame.
  destruct (blength buffer <? 2) eqn:H2; [done|].
  rewrite (ltb_app_false _ more _ H2). apply Z.ltb_ge in H2.
  rewrite !byte_app_l by lia.
  destruct (Z.land (byte buffer 1) 0x7f =? 126).
  - destruct (blength buffer <? 2 + 2) eqn:H4; [done|].
    rewrite (ltb_app_false _ more _ H4). apply Z.ltb_ge in H4.
    rewrite readUInt16BE_app_l by lia. by apply decodePayload_app.
  - destruct (Z.land (byte buffer 1) 0x7f =? 127).
    + destruct (blength buffer <? 2 + 8) eqn:H10; [done|].
      rewrite (ltb_app_false _ more _ H10). apply Z.ltb_ge in H10.
      rewrite !readUInt32BE_app_l by lia.
      destruct (negb (readUInt32BE buffer 2 =? 0)); [done|].
      by apply decodePayload_app.
    + by apply decodePayload_app.
Qed.

(** *** A decoded frame takes at least two bytes off the buffer *)

Lemma byte_nonneg (buffer : list Z) (i : Z) : is_bytes buffer → 0 ≤ byte buffer i < 256.
Proof.
  intros Hbytes. unfold byte.
  destruct (nth_in_or_default (Z.to_nat i) buffer 0) as [Hin| ->]; [|lia].
  unfold is_bytes in Hbytes. rewrite List.Forall_forall in Hbytes. by apply Hbytes.
Qed.

Lemma decodePayload_bounds (buffer : list Z) (fin0 : bool) (op : Z) (masked : bool)
    (len offset : Z) (frame : DecodedFrame) :
  0 ≤ len → 2 ≤ offset →
  decodePayload buffer fin0 op masked len offset = Frame frame →
  2 ≤ totalLength frame ≤ blength buffer.
Proof.
  intros Hlen Hoff. unfold decodePayload. destruct masked.
  - destruct (blength buffer <? offset + 4); [done|].
    destruct (blength buffer <? offset + 4 + len) eqn:H; [done|].
    apply Z.ltb_ge in H. intros [= <-]. simpl. lia.
  - destruct (blength buffer <? offset + len) eqn:H; [done|].
    apply Z.ltb_ge in H. intros [= <-]. simpl. lia.
Qed.

Lemma decodeFrame_bounds (buffer : list Z) (frame : DecodedFrame) :
  is_bytes buffer → decodeFrame buffer = Frame frame →
  2 ≤ totalLength frame ≤ blength buffer.
Proof.
  intros Hbytes. unfold decodeFrame.
  destruct (blength buffer <? 2); [done|].
  destruct (Z.land (byte buffer 1) 0x7f =? 126).
  - destruct (blength buffer <? 2 + 2); [done|].
    apply decodePayload_bounds; [|lia].
    unfold readUInt16BE.
    pose proof (byte_nonneg buffer 2 Hbytes). pose proof (byte_nonneg buffer (2 + 1) Hbytes).
    lia.
  - destruct (Z.land (byte buffer 1) 0x7f =? 127).
    + destruct (blength buffer <? 2 + 8); [done|].
      destruct (negb (readUInt32BE buffer 2 =? 0)); [done|].
      apply decodePayload_bounds; [|lia].
      unfold readUInt32BE.
      pose proof (byte_nonneg buffer (2 + 4) Hbytes).
      pose proof (byte_nonneg buffer (2 + 4 + 1) Hbytes).
      pose proof (byte_nonneg buffer (2 + 4 + 2) Hbytes).
      pose proof (byte_nonneg buffer (2 + 4 + 3) Hbytes).
      lia.
    + apply decodePayload_bounds; [|lia].
      apply Z.land_nonneg. right. lia.
Qed.

End CodecFacts.

(** ** The connection's data handler *)

Section ConnectionFacts.
Import WebSocket.
Local Close Scope string_scope.
Local Open Scope Z_scope.

Lemma set_buffer_set_buffer (b b' : list Z) (c : Connection) :
  set_buffer b (set_buffer b' c) = set_buffer b c.
Proof. done. Qed.



Lemma dispatch_buffer (frame : DecodedFrame) (c : Connection) :
  buffer (dispatch frame c).1 = buffer c.
Proof.
  unfold dispatch, close.
  repeat (case_match; simpl; try done).
Qed.

Lemma is_bytes_drop (buffer0 : list Z) (n : Z) :
  is_bytes buffer0 → is_bytes (subarray_from buffer0 n).
Proof. unfold is_bytes, subarray_from. apply Forall_drop. Qed.

Lemma length_trimmed (buffer0 : list Z) (frame : DecodedFrame) :
  is_bytes buffer0 → decodeFrame buffer0 = Frame frame →
  (length (subarray_from buffer0 (totalLength frame)) < length buffer0)%nat.
Proof.
  intros Hbytes Hframe. pose proof (decodeFrame_bounds _ _ Hbytes Hframe) as Hb.
  unfold subarray_from, blength in *. rewrite length_drop. lia.
Qed.

(** Fuel above the length of the buffer is never used up. *)
Lemma drain_fuel (n m : nat) (c : Connection) :
  is_bytes (buffer c) →
  (length (buffer c) < n)%nat → (length (buffer c) < m)%nat →
  drain n c = drain m c.
Proof.
  revert m c. induction n as [|n IH]; intros m c Hbytes Hn Hm; [lia|].
  destruct m as [|m]; [lia|]. simpl.
  destruct (decodeFrame (buffer c)) as [frame| |] eqn:Hframe; try done.
  pose proof (length_trimmed _ _ Hbytes Hframe) as Hlen.
  destruct (dispatch frame _) as [c' [|]] eqn:Hd; [|done].
  assert (Hbuf : buffer c' = subarray_from (buffer c) (totalLength frame)).
  { replace c' with (dispatch frame
      (set_buffer (subarray_from (buffer c) (totalLength frame)) c)).1 by (by rewrite Hd).
    by rewrite dispatch_buffer. }
  apply IH; rewrite Hbuf; [by apply is_bytes_drop | lia | lia].
Qed.

(** One iteration of the loop of [handleData]. *)
Lemma loop_unfold (c : Connection) :
  is_bytes (buffer c) →
  loop c =
  match decodeFrame (buffer c) with
  | Null => (c, Drained)
  | FrameTooLarge => (c, Threw)
  | Frame frame =>
      match dispatch frame (set_buffer (subarray_from (buffer c) (totalLength frame)) c) with
      | (c', true) => loop c'
      | (c', false) => (c', Returned)
      end
  end.
Proof.
  intros Hbytes. unfold loop at 1. simpl.
  destruct (decodeFrame (buffer c)) as [frame| |] eqn:Hframe; try done.
  pose proof (length_trimmed _ _ Hbytes Hframe) as Hlen.
  destruct (dispatch frame _) as [c' [|]] eqn:Hd; [|done].
  assert (Hbuf : buffer c' = subarray_from (buffer c) (totalLength frame)).
  { replace c' with (dispatch frame
      (set_buffer (subarray_from (buffer c) (totalLength frame)) c)).1 by (by rewrite Hd).
    by rewrite dispatch_buffer. }
  unfold loop. apply drain_fuel; rewrite Hbuf; [by apply is_bytes_drop | lia | lia].
Qed.

(** The loop does not run out of fuel. *)
Lemma loop_fuel (c : Connection) : is_bytes (buffer c) → (loop c).2 ≠ OutOfFuel.
Proof.
  remember (length (buffer c)) as n eqn:Hn. revert c Hn.
  induction (lt_wf n) as [n _ IH]. intros c -> Hbytes.
  rewrite loop_unfold by done.
  destruct (decodeFrame (buffer c)) as [frame| |] eqn:Hframe; try done.
  pose proof (length_trimmed _ _ Hbytes Hframe) as Hlen.
  destruct (dispatch frame _) as [c' [|]] eqn:Hd; [|done].
  assert (Hbuf : buffer c' = subarray_from (buffer c) (totalLength frame)).
  { replace c' with (dispatch frame
      (set_buffer (subarray_from (buffer c) (totalLength frame)) c)).1 by (by rewrite Hd).
    by rewrite dispatch_buffer. }
  apply (IH (length (buffer c'))); rewrite ?Hbuf; [lia | done | by apply is_bytes_drop].
Qed.

Lemma is_bytes_app (a b : list Z) : is_bytes (a ++ b) ↔ is_bytes a ∧ is_bytes b.
Proof. unfold is_bytes. apply Forall_app. Qed.

(** [handleData] returns: on a buffer of bytes the loop ends on [break], on
    a return or on the exception of [decodeFrame], within the fuel the
    model gives it. *)
Theorem handleData_terminates (chunk : list Z) (c : Connection) :
  is_bytes (buffer c) → is_bytes chunk → (handleData chunk c).2 ≠ OutOfFuel.
Proof.
  intros Hc Hchunk. unfold handleData. apply loop_fuel. simpl.
  by apply is_bytes_app.
Qed.





(** A text frame with fin = 0 at the head of the buffer: the call writes a
    close frame with code 1003, marks the connection closed and returns
    with the rest of the buffer undecoded. *)
Theorem fragment_closes (chunk : list Z) (c : Connection) (frame : DecodedFrame) :
  closed c = false →
  decodeFrame (buffer c ++ chunk) = Frame frame →
  opcode frame = 0x1 → fin frame = false →
  handleData chunk c =
  ({| buffer := subarray_from (buffer c ++ chunk) (totalLength frame);
      closed := true;
      written := written c ++
        [encodeFrame (writeUInt16BE 1003 ++ utf8 "Fragmented frames are not supported") 0x8];
      ended := true;
      emitted := emitted c |}, Returned).
Proof.
  intros Hopen Hframe Hop Hfin. unfold handleData, loop. simpl.
  rewrite Hframe. unfold dispatch, close. rewrite Hop, Hfin. simpl. by rewrite Hopen.
Qed.

(** C8, at an input where the handler departs from it.  A text frame with
    fin = 0 closes the connection with a 1003 close frame, and the text
    frame of the next chunk is still decoded and emitted as a message
    ([handleData] does not look at [closed]). *)
Theorem fragment_then_text_is_processed :
  let c1 := feed [fragment_frame] fresh in
  closed c1 = true
  ∧ written c1 =
      [encodeFrame (writeUInt16BE 1003 ++ utf8 "Fragmented frames are not supported") 0x8]
  ∧ emitted c1 = []
  ∧ emitted (feed [fragment_frame; text_frame] fresh) = [Message [0x68; 0x69]].
Proof. vm_compute. done. Qed.

(** C7, at an input where the handler departs from it.  The same bytes
    give different decoded frames when split: in one chunk the text frame
    after the fragment is left in the buffer, in two chunks it is decoded
    and emitted. *)
Theorem chunking_changes_frames :
  emitted (feed [fragment_frame ++ text_frame] fresh) = []
  ∧ buffer (feed [fragment_frame ++ text_frame] fresh) = text_frame
  ∧ emitted (feed [fragment_frame; text_frame] fresh) = [Message [0x68; 0x69]]
  ∧ buffer (feed [fragment_frame; text_frame] fresh) = [].
Proof. vm_compute. done. Qed.

End ConnectionFacts.

(** ** The codec and the connection, further *)

Section ConnectionMore.
Import WebSocket.
Local Close Scope string_scope.
Local Open Scope Z_scope.

Ltac blen :=
  unfold writeUInt16BE, writeUInt32BE, blength in *;
  repeat (rewrite ?length_app, ?length_imap; cbn [length app]); lia.

(** Once [close] has run with a code that [writeUInt16BE] accepts (0 to
    65535), [send], [close] (with any code) and [handleSocketEnd] change
    nothing: one close frame at most is written through [close], nothing is
    sent after it, and the end of the socket is not reported as abnormal.
    With a code outside that range [close] on an open connection throws and
    leaves the connection open. *)
Theorem close_is_final (code : Z) (reason : string) (c : Connection) :
  0 ≤ code < 65536 →
  let c' := close code reason c in
  close_throws code c = false
  ∧ closed c' = true
  ∧ (closed c = false → length (written c') = S (length (written c)))
  ∧ (∀ data code' reason',
      send data c' = c' ∧ close code' reason' c' = c' ∧ close_throws code' c' = false
      ∧ handleSocketEnd c' = c')
  ∧ ∀ code', ¬ 0 ≤ code' < 65536 → closed c = false →
      close_throws code' c = true ∧ close code' reason c = c.
Proof.
  intros Hcode.
  assert (Hin : negb ((0 <=? code) && (code <? 65536)) = false).
  { rewrite (proj2 (Z.leb_le _ _)), (proj2 (Z.ltb_lt _ _)) by lia. done. }
  unfold close_throws, close, send, handleSocketEnd. rewrite Hin.
  destruct (closed c) eqn:Hclosed; simpl.
  - rewrite Hclosed. repeat split; done.
  - repeat split; try done.
    + intros _. rewrite length_app. simpl. lia.
    + destruct (0 <=? code') eqn:Hlow; [|done].
      destruct (code' <? 65536) eqn:Hhigh; [|done]. lia.
    + destruct (0 <=? code') eqn:Hlow; [|done].
      destruct (code' <? 65536) eqn:Hhigh; [|done]. lia.
Qed.

(** The end of the socket on an open connection reports code 1006 once; a
    second end, a [close] or a [send] after it change nothing. *)
Theorem socket_end_reported_once (c : Connection) :
  closed c = false →
  let c' := handleSocketEnd c in
  emitted c' = emitted c ++ [Closed 1006 (utf8 "Socket closed unexpectedly")]
  ∧ written c' = written c
  ∧ handleSocketEnd c' = c'
  ∧ ∀ data code reason, send data c' = c' ∧ close code reason c' = c'.
Proof.
  intros Hopen. unfold handleSocketEnd, send, close. rewrite Hopen. simpl.
  repeat split; done.
Qed.

Lemma lxor_byte (a b : Z) : 0 ≤ a < 256 → 0 ≤ b < 256 → 0 ≤ Z.lxor a b < 256.
Proof.
  intros Ha Hb. split; [apply Z.lxor_nonneg; lia|].
  destruct (decide (Z.lxor a b = 0)) as [->|Hnz]; [lia|].
  assert (0 < Z.lxor a b) by (pose proof (proj2 (Z.lxor_nonneg a b)); lia).
  change 256 with (2 ^ 8). apply Z.log2_lt_pow2; [done|].
  pose proof (Z.log2_lxor a b) as Hlog.
  assert (Z.log2 a < 8).
  { destruct (decide (a = 0)) as [->|]; [done|]. apply Z.log2_lt_pow2; lia. }
  assert (Z.log2 b < 8).
  { destruct (decide (b = 0)) as [->|]; [done|]. apply Z.log2_lt_pow2; lia. }
  lia.
Qed.

Lemma is_bytes_nth (l : list Z) (i : nat) : is_bytes l → 0 ≤ nth i l 0 < 256.
Proof.
  intros Hl. destruct (nth_in_or_default i l 0) as [Hin| ->]; [|lia].
  unfold is_bytes in Hl. rewrite List.Forall_forall in Hl. by apply Hl.
Qed.

Lemma is_bytes_applyMask (p key : list Z) :
  is_bytes p → is_bytes key → is_bytes (applyMask p key).
Proof.
  intros Hp Hkey. unfold is_bytes, applyMask in *. apply Forall_lookup.
  intros i x. rewrite list_lookup_imap.
  destruct (p !! i) as [b|] eqn:Hb; simpl; [|done]. intros [= <-].
  apply lxor_byte; [|by apply is_bytes_nth].
  by apply (Forall_lookup_1 _ _ _ _ Hp Hb).
Qed.

Lemma blength_applyMask (p key : list Z) : blength (applyMask p key) = blength p.
Proof. unfold blength, applyMask. by rewrite length_imap. Qed.

Lemma is_bytes_subarray (buffer0 : list Z) (start stop : Z) :
  is_bytes buffer0 → is_bytes (subarray buffer0 start stop).
Proof. unfold is_bytes, subarray. intros. by apply Forall_take, Forall_drop. Qed.

Lemma blength_subarray (buffer0 : list Z) (start stop : Z) :
  0 ≤ start ≤ stop → stop ≤ blength buffer0 →
  blength (subarray buffer0 start stop) = stop - start.
Proof.
  intros Hs He. unfold blength, subarray in *. rewrite length_take, length_drop. lia.
Qed.

Lemma decodePayload_wf (buffer0 : list Z) (fin0 : bool) (op : Z) (masked : bool)
    (len offset : Z) (frame : DecodedFrame) :
  is_bytes buffer0 → 0 ≤ len → 2 ≤ offset →
  decodePayload buffer0 fin0 op masked len offset = Frame frame →
  fin frame = fin0 ∧ opcode frame = op ∧ is_bytes (payload frame)
  ∧ blength (payload frame) = len
  ∧ offset + len ≤ totalLength frame ≤ blength buffer0.
Proof.
  intros Hbytes Hlen Hoff. unfold decodePayload. destruct masked.
  - destruct (blength buffer0 <? offset + 4); [done|].
    destruct (blength buffer0 <? offset + 4 + len) eqn:H; [done|].
    apply Z.ltb_ge in H. intros [= <-]. simpl.
    rewrite blength_applyMask, blength_subarray by lia.
    repeat split; try lia.
    apply is_bytes_applyMask; by apply is_bytes_subarray.
  - destruct (blength buffer0 <? offset + len) eqn:H; [done|].
    apply Z.ltb_ge in H. intros [= <-]. simpl.
    rewrite blength_subarray by lia.
    repeat split; try lia. by apply is_bytes_subarray.
Qed.

(** What [decodeFrame] gives on a buffer of bytes is well formed: the
    opcode is a four-bit number, the payload consists of bytes, is shorter
    than [2 ^ 32] (so [encodeFrame] accepts it again, as the pong reply
    needs), and header and payload lie within the buffer. *)
Theorem decoded_frame_well_formed (buffer0 : list Z) (frame : DecodedFrame) :
  is_bytes buffer0 → decodeFrame buffer0 = Frame frame →
  0 ≤ opcode frame < 16
  ∧ is_bytes (payload frame)
  ∧ blength (payload frame) < 2 ^ 32
  ∧ 2 + blength (payload frame) ≤ totalLength frame ≤ blength buffer0.
Proof.
  intros Hbytes. unfold decodeFrame.
  destruct (blength buffer0 <? 2); [done|].
  assert (Hop : 0 ≤ Z.land (byte buffer0 0) 0x0f < 16).
  { change 0x0f with (Z.ones 4). rewrite Z.land_ones by lia.
    apply Z.mod_pos_bound. lia. }
  assert (Hlen7 : 0 ≤ Z.land (byte buffer0 1) 0x7f < 128).
  { change 0x7f with (Z.ones 7). rewrite Z.land_ones by lia.
    apply Z.mod_pos_bound. lia. }
  destruct (Z.land (byte buffer0 1) 0x7f =? 126).
  - destruct (blength buffer0 <? 2 + 2); [done|].
    pose proof (byte_nonneg buffer0 2 Hbytes). pose proof (byte_nonneg buffer0 (2 + 1) Hbytes).
    assert (0 ≤ readUInt16BE buffer0 2 < 65536) by (unfold readUInt16BE; lia).
    intros Hframe.
    apply decodePayload_wf in Hframe as (_ & -> & ? & ? & ?); [|done|lia|lia].
    repeat split; try done; lia.
  - destruct (Z.land (byte buffer0 1) 0x7f =? 127).
    + destruct (blength buffer0 <? 2 + 8); [done|].
      destruct (negb (readUInt32BE buffer0 2 =? 0)); [done|].
      pose proof (byte_nonneg buffer0 (2 + 4) Hbytes).
      pose proof (byte_nonneg buffer0 (2 + 4 + 1) Hbytes).
      pose proof (byte_nonneg buffer0 (2 + 4 + 2) Hbytes).
      pose proof (byte_nonneg buffer0 (2 + 4 + 3) Hbytes).
      assert (0 ≤ readUInt32BE buffer0 (2 + 4) < 2 ^ 32) by (unfold readUInt32BE; lia).
      intros Hframe.
      apply decodePayload_wf in Hframe as (_ & -> & ? & ? & ?); [|done|lia|lia].
      repeat split; try done; lia.
    + intros Hframe.
      apply decodePayload_wf in Hframe as (_ & -> & ? & ? & ?); [|done|lia|lia].
      repeat split; try done; lia.
Qed.

Lemma applyMask_involutive (p key : list Z) : applyMask (applyMask p key) key = p.
Proof.
  unfold applyMask. apply list_eq. intros i. rewrite !list_lookup_imap.
  destruct (p !! i) as [b|]; simpl; [|done].
  by rewrite Z.lxor_assoc, Z.lxor_nilpotent, Z.lxor_0_r.
Qed.

Lemma subarray_middle (before mid after : list Z) :
  subarray (before ++ mid ++ after) (blength before) (blength before + blength mid) = mid.
Proof.
  unfold subarray, blength. rewrite Nat2Z.id, drop_app_length.
  replace (Z.to_nat _) with (length mid) by lia.
  by rewrite take_app_length.
Qed.

Lemma mask_bit_set (x : Z) : Z.land (Z.lor x 0x80) 0x80 ≠ 0.
Proof.
  rewrite Z.land_lor_distr_l. change (Z.land 0x80 0x80) with 0x80.
  intros [_ H]%Z.lor_eq_0_iff. done.
Qed.

Lemma mask_bit_length (x : Z) : Z.land (Z.lor x 0x80) 0x7f = Z.land x 0x7f.
Proof.
  rewrite Z.land_lor_distr_l. change (Z.land 0x80 0x7f) with 0. apply Z.lor_0_r.
Qed.

(** The masked part of [decodeFrame]: behind a header and a four-byte key,
    a payload masked with the key is read back unmasked. *)
Lemma decodePayload_masked (header key p after : list Z) (fin0 : bool) (op : Z) :
  length key = 4%nat →
  decodePayload (header ++ key ++ applyMask p key ++ after) fin0 op true (blength p)
    (blength header)
  = Frame {| fin := fin0; opcode := op; payload := p;
             totalLength := blength header + 4 + blength p |}.
Proof.
  intros Hkey. unfold decodePayload.
  pose proof (blength_nonneg p). pose proof (blength_nonneg after).
  pose proof (blength_nonneg header).
  assert (Hk : blength key = 4) by (unfold blength; lia).
  rewrite (proj2 (Z.ltb_ge _ _))
    by (rewrite !blength_app, blength_applyMask; lia).
  rewrite (proj2 (Z.ltb_ge _ _))
    by (rewrite !blength_app, blength_applyMask; lia).
  assert (Hkeysub : subarray (header ++ key ++ applyMask p key ++ after)
                      (blength header) (blength header + 4) = key)
    by (rewrite <- Hk; apply subarray_middle).
  assert (Hpay : subarray (header ++ key ++ applyMask p key ++ after)
                   (blength header + 4) (blength header + 4 + blength p)
                 = applyMask p key).
  { replace (blength header + 4) with (blength (header ++ key))
      by (rewrite blength_app; lia).
    rewrite (app_assoc header key), <- (blength_applyMask p key).
    apply subarray_middle. }
  rewrite Hkeysub, Hpay. by rewrite applyMask_involutive.
Qed.

(** A client's frame: the header [encodeFrame] builds with the mask bit
    set, a four-byte key, and the payload masked with it.  [decodeFrame]
    gives the payload back, for each of the three length encodings. *)
Theorem masked_frame_decodes (p key : list Z) (op : Z) :
  length key = 4%nat → blength p < 2 ^ 32 →
  let frame := encodeFrame p op in
  let header := take (length frame - length p) frame in
  decodeFrame (<[1%nat := Z.lor (byte frame 1) 0x80]> header ++ key ++ applyMask p key)
  = Frame {| fin := true; opcode := Z.land op 0x0f; payload := p;
             totalLength := blength frame + 4 |}.
Proof.
  intros Hkey Hlen. pose proof (blength_nonneg p) as Hpos.
  assert (Hnil : key ++ applyMask p key = key ++ applyMask p key ++ [])
    by (by rewrite app_nil_r).
  unfold encodeFrame.
  set (first := Z.lor 0x80 (Z.land op 0x0f)).
  destruct (blength p <? 126) eqn:H126; [|destruct (blength p <? 65536) eqn:H16]; cbv zeta.
  - apply Z.ltb_lt in H126.
    change ([first; blength p] ++ p) with ([first; blength p] ++ p).
    rewrite (take_app_length' [first; blength p] p) by (rewrite length_app; simpl; lia).
    cbn [app]. rewrite byte_1. cbn [list_insert insert app].
    unfold decodeFrame.
    rewrite (proj2 (Z.ltb_ge _ 2)) by blen.
    rewrite byte_0, byte_1. subst first. rewrite first_byte_opcode.
    rewrite (proj2 (Z.eqb_neq _ _) (first_byte_fin op)).
    rewrite (proj2 (Z.eqb_neq _ _) (mask_bit_set _)), mask_bit_length.
    rewrite land_0x7f_small by lia.
    rewrite (proj2 (Z.eqb_neq _ 126)), (proj2 (Z.eqb_neq _ 127)) by lia.
    cbn [negb]. rewrite Hnil.
    refine (eq_trans (decodePayload_masked [_; _] key p [] true _ Hkey) _).
    do 2 f_equal. blen.
  - apply Z.ltb_ge in H126. apply Z.ltb_lt in H16.
    change (([first; 126] ++ writeUInt16BE (blength p)) ++ p)
      with ((first :: 126 :: writeUInt16BE (blength p)) ++ p).
    rewrite (take_app_length' (first :: 126 :: writeUInt16BE (blength p)) p)
      by (rewrite length_app; simpl; lia).
    cbn [app]. rewrite byte_1. cbn [list_insert insert app].
    unfold decodeFrame.
    rewrite (proj2 (Z.ltb_ge _ 2)) by blen.
    rewrite byte_0, byte_1. subst first. rewrite first_byte_opcode.
    rewrite (proj2 (Z.eqb_neq _ _) (first_byte_fin op)).
    rewrite (proj2 (Z.eqb_neq _ _) (mask_bit_set _)), mask_bit_length.
    change (Z.land 126 0x7f) with 126.
    change (126 =? 126) with true. cbn [negb]. cbv iota.
    rewrite (proj2 (Z.ltb_ge _ (2 + 2))) by blen.
    rewrite readUInt16BE_skip2, read_write_UInt16BE by lia.
    rewrite Hnil.
    refine (eq_trans (decodePayload_masked (_ :: _ :: writeUInt16BE (blength p))
                        key p [] true _ Hkey) _).
    do 2 f_equal. blen.
  - apply Z.ltb_ge in H126, H16.
    change (([first; 127] ++ writeUInt32BE 0 ++ writeUInt32BE (blength p)) ++ p)
      with ((first :: 127 :: 0 :: 0 :: 0 :: 0 :: writeUInt32BE (blength p)) ++ p).
    rewrite (take_app_length' (first :: 127 :: 0 :: 0 :: 0 :: 0 :: writeUInt32BE (blength p)) p)
      by (rewrite length_app; simpl; lia).
    cbn [app]. rewrite byte_1. cbn [list_insert insert app].
    unfold decodeFrame.
    rewrite (proj2 (Z.ltb_ge _ 2)) by blen.
    rewrite byte_0, byte_1. subst first. rewrite first_byte_opcode.
    rewrite (proj2 (Z.eqb_neq _ _) (first_byte_fin op)).
    rewrite (proj2 (Z.eqb_neq _ _) (mask_bit_set _)), mask_bit_length.
    change (Z.land 127 0x7f) with 127.
    change (127 =? 126) with false. change (127 =? 127) with true.
    cbn [negb]. cbv iota.
    rewrite (proj2 (Z.ltb_ge _ (2 + 8))) by blen.
    rewrite readUInt32BE_skip2.
    change (readUInt32BE (0 :: 0 :: 0 :: 0 :: _) 0) with 0.
    change (0 =? 0) with true. cbn [negb].
    change (2 + 4) with 6. rewrite readUInt32BE_skip6, read_write_UInt32BE by lia.
    rewrite Hnil.
    refine (eq_trans (decodePayload_masked
                        (_ :: _ :: 0 :: 0 :: 0 :: 0 :: writeUInt32BE (blength p))
                        key p [] true _ Hkey) _).
    do 2 f_equal. blen.
Qed.

Lemma land_0xff_byte (n : Z) : 0 ≤ Z.land n 0xff < 256.
Proof. rewrite land_0xff. apply Z.mod_pos_bound. lia. Qed.

Lemma first_byte_is_byte (op : Z) : 0 ≤ Z.lor 0x80 (Z.land op 0x0f) < 256.
Proof.
  assert (Hx : 0 ≤ Z.land op 0x0f < 16).
  { change 0x0f with (Z.ones 4). rewrite Z.land_ones by lia. apply Z.mod_pos_bound. lia. }
  split; [apply Z.lor_nonneg; lia|].
  assert (0 < Z.lor 0x80 (Z.land op 0x0f)).
  { pose proof (proj2 (Z.lor_nonneg 0x80 (Z.land op 0x0f))).
    pose proof (first_byte_fin op) as Hne.
    destruct (decide (Z.lor 0x80 (Z.land op 0x0f) = 0)) as [E|]; [|lia].
    rewrite E in Hne. done. }
  change 256 with (2 ^ 8). apply Z.log2_lt_pow2; [done|].
  rewrite Z.log2_lor by lia. change (Z.log2 0x80) with 7.
  assert (Z.log2 (Z.land op 0x0f) < 4).
  { destruct (decide (Z.land op 0x0f = 0)) as [->|]; [done|]. apply Z.log2_lt_pow2; lia. }
  lia.
Qed.

Lemma is_bytes_encodeFrame (p : list Z) (op : Z) :
  is_bytes p → blength p < 2 ^ 32 → is_bytes (encodeFrame p op).
Proof.
  intros Hp Hlen. pose proof (blength_nonneg p). unfold encodeFrame.
  pose proof (first_byte_is_byte op).
  destruct (blength p <? 126) eqn:H126; [|destruct (blength p <? 65536) eqn:H16];
    cbv zeta; apply is_bytes_app; (split; [|done]).
  - apply Z.ltb_lt in H126. unfold is_bytes. repeat constructor; lia.
  - unfold is_bytes, writeUInt16BE.
    repeat constructor; try lia; apply land_0xff_byte.
  - unfold is_bytes, writeUInt32BE.
    repeat constructor; try lia; apply land_0xff_byte.
Qed.

(** The loop on a buffer that starts with an encoded frame: the frame is
    decoded, taken off the buffer and dispatched. *)
Lemma loop_encoded (p rest : list Z) (op : Z) (c : Connection) :
  is_bytes p → is_bytes rest → blength p < 2 ^ 32 →
  loop (set_buffer (encodeFrame p op ++ rest) c) =
  match dispatch {| fin := true; opcode := Z.land op 0x0f; payload := p;
                    totalLength := blength (encodeFrame p op) |} (set_buffer rest c) with
  | (c', true) => loop c'
  | (c', false) => (c', Returned)
  end.
Proof.
  intros Hp Hrest Hlen.
  rewrite loop_unfold
    by (simpl; apply is_bytes_app; split; [by apply is_bytes_encodeFrame | done]).
  simpl.
  rewrite decodeFrame_app by (by rewrite decode_encode).
  rewrite decode_encode by done. simpl.
  rewrite set_buffer_set_buffer.
  unfold subarray_from, blength. by rewrite Nat2Z.id, drop_app_length.
Qed.

(** The [send]s of a listener leave everything but [written] as it is. *)
Lemma sends_facts (sent : list (list Z)) (c : Connection) :
  let c' := foldl (λ c data, send data c) c sent in
  buffer c' = buffer c ∧ closed c' = closed c ∧ ended c' = ended c
  ∧ emitted c' = emitted c
  ∧ (∃ w, written c' = written c ++ w ∧ (sent = [] → w = []))
  ∧ ∀ b, foldl (λ c data, send data c) (set_buffer b c) sent = set_buffer b c'.
Proof.
  revert c. induction sent as [|data sent IH]; intros c; cbn [foldl].
  - repeat split; try done. exists []. by rewrite app_nil_r.
  - destruct (IH (send data c)) as (Hb & Hc & He & Hm & (w & Hw & _) & Hset).
    assert (Hsend : send data c = c ∨ send data c = socket_write (encodeFrame data 0x1) c)
      by (unfold send; destruct (closed c); auto).
    cbv zeta. rewrite Hb, Hc, He, Hm, Hw.
    split; [by destruct Hsend as [-> | ->]|].
    split; [by destruct Hsend as [-> | ->]|].
    split; [by destruct Hsend as [-> | ->]|].
    split; [by destruct Hsend as [-> | ->]|].
    split.
    + destruct Hsend as [-> | ->]; [by exists w|]. simpl. rewrite <- app_assoc.
      by eexists.
    + intros b. rewrite <- Hset. f_equal. unfold send. simpl. by destruct (closed c).
Qed.

(** With listeners that return without sending and a text that is its
    payload, the handler with listeners is the handler without them. *)
Lemma drain_heard_silent (fuel : nat) (c : Connection) :
  drain_heard (λ payload, payload) (λ _ (l : unit), (l, [], false))
    (λ _ _ (l : unit), (l, false)) fuel () c
  = ((), (drain fuel c).1, (drain fuel c).2).
Proof.
  revert c. induction fuel as [|fuel IH]; intros c; [done|]. simpl.
  destruct (decodeFrame (buffer c)) as [frame| |]; try done.
  unfold dispatch_heard, dispatch, emit_message, emit_close. simpl.
  destruct (opcode frame =? 1).
  { destruct (fin frame); simpl; [apply IH | done]. }
  destruct (opcode frame =? 8).
  { by destruct (decodeCloseFrame (payload frame)). }
  destruct (opcode frame =? 9); [apply IH|].
  destruct (opcode frame =? 10); [apply IH|done].
Qed.

Lemma handleData_heard_silent (chunk : list Z) (c : Connection) :
  handleData_heard (λ payload, payload) (λ _ (l : unit), (l, [], false))
    (λ _ _ (l : unit), (l, false)) chunk () c
  = ((), (handleData chunk c).1, (handleData chunk c).2).
Proof. apply drain_heard_silent. Qed.

Section Heard.
Context {L : Type}.
Variable toString : list Z → list Z.
Variable on_message : list Z → L → L * list (list Z) * bool.
Variable on_close : Z → list Z → L → L * bool.

Lemma emit_message_set_buffer (text b : list Z) (l : L) (c : Connection) :
  emit_message on_message text l (set_buffer b c) =
  ((emit_message on_message text l c).1.1,
   set_buffer b (emit_message on_message text l c).1.2,
   (emit_message on_message text l c).2).
Proof.
  unfold emit_message. destruct (on_message text l) as [[l' sent] throws]. simpl.
  change (emit (Message text) (set_buffer b c)) with (set_buffer b (emit (Message text) c)).
  by rewrite (proj2 (proj2 (proj2 (proj2 (proj2 (sends_facts sent _)))))).
Qed.

Lemma length_encodeFrame (p : list Z) (op : Z) : (1 ≤ length (encodeFrame p op))%nat.
Proof.
  unfold encodeFrame. repeat case_match; cbv zeta; rewrite length_app; simpl; lia.
Qed.

Lemma length_encoded (frames : list (Z * list Z)) :
  (length frames ≤ length (concat (map (λ f, encodeFrame f.2 f.1) frames)))%nat.
Proof.
  induction frames as [|[op p] frames IH]; [done|]. cbn [map concat length fst snd].
  rewrite length_app. pose proof (length_encodeFrame p op). lia.
Qed.

(** The loop on a buffer of whole text, ping and pong frames does what
    [handled] does frame by frame. *)
Lemma drain_heard_frames (frames : list (Z * list Z)) :
  Forall (λ f, (f.1 = 0x1 ∨ f.1 = 0x9 ∨ f.1 = 0xA) ∧ is_bytes f.2 ∧ blength f.2 < 2 ^ 28)
    frames →
  ∀ (fuel : nat) (l : L) (c : Connection) l' c' left threw,
    (length frames < fuel)%nat →
    handled toString on_message frames l c = (l', c', left, threw) →
    drain_heard toString on_message on_close fuel l
      (set_buffer (concat (map (λ f, encodeFrame f.2 f.1) frames)) c) =
    (l', set_buffer (concat (map (λ f, encodeFrame f.2 f.1) left)) c',
     if threw then Threw else Drained).
Proof.
  induction 1 as [|[op p] frames (Hop & Hp & Hlen) Hrest IH];
    intros fuel l c l' c' left threw Hfuel Hrun;
    (destruct fuel as [|fuel]; [simpl in Hfuel; lia|]).
  - simpl in Hrun. by injection Hrun as <- <- <- <-.
  - cbn [map concat fst snd length] in *.
    assert (Hlen' : blength p < 2 ^ 32) by lia.
    cbn [drain_heard buffer set_buffer].
    rewrite decodeFrame_app by (by rewrite decode_encode).
    rewrite decode_encode by done. cbn [totalLength].
    rewrite set_buffer_set_buffer.
    replace (subarray_from _ _)
      with (concat (map (λ f : Z * list Z, encodeFrame f.2 f.1) frames))
      by (unfold subarray_from, blength; by rewrite Nat2Z.id, drop_app_length).
    unfold dispatch_heard. cbn [opcode fin payload negb]. cbn [handled] in Hrun.
    destruct Hop as [-> | [-> | ->]].
    + change (Z.land 1 15 =? 1) with true. cbv iota.
      rewrite emit_message_set_buffer.
      change (1 =? 1) with true in Hrun. cbv iota in Hrun.
      destruct (emit_message on_message (toString p) l c) as [[l1 c1] throws].
      cbn [fst snd]. destruct throws.
      * by injection Hrun as <- <- <- <-.
      * apply IH; [lia|done].
    + change (Z.land 9 15 =? 1) with false. change (Z.land 9 15 =? 8) with false.
      change (Z.land 9 15 =? 9) with true. cbv iota.
      change (9 =? 1) with false in Hrun. change (9 =? 9) with true in Hrun.
      cbv iota in Hrun.
      change (socket_write ?d (set_buffer ?b c)) with (set_buffer b (socket_write d c)).
      apply IH; [lia|done].
    + change (Z.land 10 15 =? 1) with false. change (Z.land 10 15 =? 8) with false.
      change (Z.land 10 15 =? 9) with false. change (Z.land 10 15 =? 10) with true.
      cbv iota.
      change (10 =? 1) with false in Hrun. change (10 =? 9) with false in Hrun.
      cbv iota in Hrun.
      apply IH; [lia|done].
Qed.

(** What [handled] leaves, frame by frame. *)
Lemma handled_facts (frames : list (Z * list Z)) (l : L) (c : Connection) l' c' left threw :
  handled toString on_message frames l c = (l', c', left, threw) →
  ∃ handled_frames,
    frames = handled_frames ++ left
    ∧ emitted c' = emitted c ++
        omap (λ f, if f.1 =? 0x1 then Some (Message (toString f.2)) else None) handled_frames
    ∧ (∃ w, written c' = written c ++ w
        ∧ sublist
            (omap (λ f, if f.1 =? 0x9 then Some (encodeFrame f.2 0xA) else None)
               handled_frames) w
        ∧ ((∀ text l0, (on_message text l0).1.2 = []) →
           w = omap (λ f, if f.1 =? 0x9 then Some (encodeFrame f.2 0xA) else None)
                 handled_frames))
    ∧ closed c' = closed c ∧ ended c' = ended c
    ∧ (threw = false → left = [])
    ∧ (threw = true →
       ∃ before p l0, handled_frames = before ++ [(0x1, p)]
                      ∧ (on_message (toString p) l0).2 = true).
Proof.
  revert l c. induction frames as [|[op p] frames IH]; intros l c Hrun.
  - simpl in Hrun. injection Hrun as <- <- <- <-. exists [].
    repeat split; try done; try (by rewrite app_nil_r).
    exists []. rewrite app_nil_r. repeat split; done.
  - cbn [handled] in Hrun. destruct (op =? 1) eqn:Htext.
    + apply Z.eqb_eq in Htext as ->. unfold emit_message in Hrun.
      destruct (on_message (toString p) l) as [[l1 sent] throws] eqn:Hheard.
      destruct (sends_facts sent (emit (Message (toString p)) c))
        as (_ & Hc & He & Hm & (w1 & Hw & Hsilent) & _). cbv zeta in *.
      destruct throws.
      * injection Hrun as <- <- <- <-. exists [(1, p)].
        split; [done|]. split; [by rewrite Hm|].
        split.
        { exists w1. split; [by rewrite Hw|]. split; [apply sublist_nil_l|].
          intros Hno. apply Hsilent. specialize (Hno (toString p) l).
          by rewrite Hheard in Hno. }
        split; [by rewrite Hc|]. split; [by rewrite He|]. split; [done|].
        intros _. exists [], p, l. by rewrite Hheard.
      * destruct (IH _ _ Hrun)
          as (hs & -> & Hem & (w & Hwr & Hsub & Hexact) & Hcl & Hen & Hleft & Hthrew).
        exists ((1, p) :: hs).
        split; [done|].
        split; [rewrite Hem, Hm; simpl; by rewrite <- app_assoc|].
        split.
        { exists (w1 ++ w). split; [rewrite Hwr, Hw; simpl; by rewrite <- app_assoc|].
          split; [simpl; by apply sublist_inserts_l|].
          intros Hno. rewrite (Hexact Hno). simpl.
          rewrite Hsilent; [done|]. specialize (Hno (toString p) l).
          by rewrite Hheard in Hno. }
        split; [by rewrite Hcl, Hc|]. split; [by rewrite Hen, He|]. split; [done|].
        intros Ht. destruct (Hthrew Ht) as (before & p0 & l0 & -> & Hthrows).
        by exists ((1, p) :: before), p0, l0.
    + destruct (op =? 9) eqn:Hping.
      * destruct (IH _ _ Hrun)
          as (hs & -> & Hem & (w & Hwr & Hsub & Hexact) & Hcl & Hen & Hleft & Hthrew).
        exists ((op, p) :: hs). simpl. rewrite Htext, Hping.
        split; [done|]. split; [done|].
        split.
        { exists (encodeFrame p 10 :: w).
          split; [rewrite Hwr; simpl; by rewrite <- app_assoc|].
          split; [by apply sublist_skip|].
          intros Hno. by rewrite (Hexact Hno). }
        split; [done|]. split; [done|]. split; [done|].
        intros Ht. destruct (Hthrew Ht) as (before & p0 & l0 & -> & Hthrows).
        by exists ((op, p) :: before), p0, l0.
      * destruct (IH _ _ Hrun)
          as (hs & -> & Hem & (w & Hwr & Hsub & Hexact) & Hcl & Hen & Hleft & Hthrew).
        exists ((op, p) :: hs). simpl. rewrite Htext, Hping.
        split; [done|]. split; [done|].
        split; [by exists w|].
        split; [done|]. split; [done|]. split; [done|].
        intros Ht. destruct (Hthrew Ht) as (before & p0 & l0 & -> & Hthrows).
        by exists ((op, p) :: before), p0, l0.
Qed.

End Heard.

(** Text, ping and pong frames, one after the other in one chunk, with
    the listeners of the host: the frames are taken in the order of
    arrival; the text of every text frame is emitted to the listener, whose
    answers are sent; every ping is answered by a pong with the same
    payload, after what was written for the frames before it; pongs are
    ignored.  When no listener throws, every frame is handled, the buffer
    is left empty and the loop ends on [break]; when the listener throws on
    a text, [handleData] ends with that exception, the frames after that
    text stay in the buffer and get no pong.  The connection stays as open
    as it was. *)
Theorem frames_handled_in_order {L : Type} (toString : list Z → list Z)
    (on_message : list Z → L → L * list (list Z) * bool) (on_close : Z → list Z → L → L * bool)
    (frames : list (Z * list Z)) (l : L) (c : Connection) :
  buffer c = [] →
  Forall (λ f, (f.1 = 0x1 ∨ f.1 = 0x9 ∨ f.1 = 0xA) ∧ is_bytes f.2 ∧ blength f.2 < 2 ^ 28)
    frames →
  ∃ l' c' handled_frames left threw,
    handled toString on_message frames l c = (l', c', left, threw)
    ∧ handleData_heard toString on_message on_close
        (concat (map (λ f, encodeFrame f.2 f.1) frames)) l c =
      (l', set_buffer (concat (map (λ f, encodeFrame f.2 f.1) left)) c',
       if threw then Threw else Drained)
    ∧ frames = handled_frames ++ left
    ∧ emitted c' = emitted c ++
        omap (λ f, if f.1 =? 0x1 then Some (Message (toString f.2)) else None) handled_frames
    ∧ (∃ w, written c' = written c ++ w
        ∧ sublist
            (omap (λ f, if f.1 =? 0x9 then Some (encodeFrame f.2 0xA) else None)
               handled_frames) w
        ∧ ((∀ text l0, (on_message text l0).1.2 = []) →
           w = omap (λ f, if f.1 =? 0x9 then Some (encodeFrame f.2 0xA) else None)
                 handled_frames))
    ∧ closed c' = closed c ∧ ended c' = ended c
    ∧ (threw = false → left = [])
    ∧ (threw = true →
       ∃ before p l0, handled_frames = before ++ [(0x1, p)]
                      ∧ (on_message (toString p) l0).2 = true).
Proof.
  intros Hbuf Hframes.
  destruct (handled toString on_message frames l c) as [[[l' c'] left] threw] eqn:Hrun.
  destruct (handled_facts _ _ _ _ _ _ _ _ _ Hrun) as (hs & Hfacts).
  exists l', c', hs, left, threw. split; [done|]. split; [|exact Hfacts].
  unfold handleData_heard. rewrite Hbuf. cbn [app].
  apply drain_heard_frames; [done| |done].
  pose proof (length_encoded frames). lia.
Qed.

Lemma is_bytes_utf8 (s : string) : is_bytes (utf8 s).
Proof.
  unfold is_bytes. induction s as [|a s IH]; simpl; constructor; [|done].
  pose proof (N_ascii_bounded a). lia.
Qed.

Lemma decodeCloseFrame_code_reason (code : Z) (reason : list Z) :
  0 ≤ code < 65536 →
  decodeCloseFrame (writeUInt16BE code ++ reason) = (code, reason).
Proof.
  intros Hcode. unfold decodeCloseFrame.
  pose proof (blength_nonneg reason).
  assert (Hlen : blength (writeUInt16BE code ++ reason) = 2 + blength reason) by blen.
  rewrite Hlen, (proj2 (Z.ltb_ge _ _)) by lia.
  rewrite read_write_UInt16BE by done. f_equal.
  destruct reason as [|b reason]; [done|].
  rewrite (proj2 (Z.ltb_lt _ _)) by (rewrite blength_cons in *; pose proof (blength_nonneg reason); lia).
  done.
Qed.

(** What [close] writes is a close frame that the codec reads back: fin
    set, opcode 0x8, and [decodeCloseFrame] gives the code and the reason.
    A connection that receives it emits the close event with them, marks
    itself closed and ends its socket. *)
Theorem close_frame_round_trip (code : Z) (reason : string) (c peer : Connection) :
  closed c = false → 0 ≤ code < 65536 → blength (utf8 reason) + 2 < 2 ^ 32 →
  buffer peer = [] →
  ∃ frame payload0,
    written (close code reason c) = written c ++ [frame]
    ∧ decodeFrame frame =
        Frame {| fin := true; opcode := 0x8; payload := payload0;
                 totalLength := blength frame |}
    ∧ decodeCloseFrame payload0 = (code, utf8 reason)
    ∧ handleData frame peer =
        ({| buffer := []; closed := true; written := written peer; ended := true;
            emitted := emitted peer ++ [Closed code (utf8 reason)] |}, Returned).
Proof.
  intros Hopen Hcode Hlen Hpeer.
  exists (encodeFrame (writeUInt16BE code ++ utf8 reason) 0x8),
         (writeUInt16BE code ++ utf8 reason).
  assert (Hp : is_bytes (writeUInt16BE code ++ utf8 reason)).
  { apply is_bytes_app. split; [|apply is_bytes_utf8].
    unfold is_bytes, writeUInt16BE. repeat constructor; apply land_0xff_byte. }
  assert (Hl : blength (writeUInt16BE code ++ utf8 reason) < 2 ^ 32) by blen.
  split.
  { unfold close. rewrite Hopen.
    by rewrite (proj2 (Z.leb_le _ _)), (proj2 (Z.ltb_lt _ _)) by lia. }
  split; [by rewrite decode_encode|].
  split; [by apply decodeCloseFrame_code_reason|].
  unfold handleData. rewrite Hpeer. cbn [app].
  rewrite <- (app_nil_r (encodeFrame _ _)).
  rewrite loop_encoded by (done || constructor).
  unfold dispatch. cbn [opcode fin payload].
  change (Z.land 8 15 =? 1) with false. change (Z.land 8 15 =? 8) with true. cbv iota.
  rewrite decodeCloseFrame_code_reason by done. done.
Qed.

(** An encoded frame cut short is not a frame yet: on every proper prefix
    of the buffer [encodeFrame] builds, [decodeFrame] returns [null]; it
    neither gives a frame nor throws. *)
Theorem incomplete_frame_is_null (p : list Z) (op : Z) (n : nat) :
  blength p < 2 ^ 32 → (n < length (encodeFrame p op))%nat →
  decodeFrame (take n (encodeFrame p op)) = Null.
Proof.
  intros Hlen. pose proof (blength_nonneg p) as Hpos.
  unfold encodeFrame.
  destruct (blength p <? 126) eqn:H126; [|destruct (blength p <? 65536) eqn:H16];
    cbv zeta; cbn [app]; set (first := Z.lor 0x80 (Z.land op 0x0f)); intros Hn.
  - apply Z.ltb_lt in H126.
    destruct n as [|[|n]]; [done..|]. cbn [firstn].
    assert (Hshort : blength (take n p) < blength p)
      by (unfold blength; rewrite length_take; cbn [length] in Hn; lia).
    unfold decodeFrame.
    rewrite (proj2 (Z.ltb_ge _ 2)) by blen.
    rewrite byte_0, byte_1.
    rewrite (land_0x80_small (blength p)), (land_0x7f_small (blength p)) by lia.
    rewrite (proj2 (Z.eqb_neq _ 126)), (proj2 (Z.eqb_neq _ 127)) by lia.
    unfold decodePayload. change (0 =? 0) with true. cbn [negb].
    rewrite (proj2 (Z.ltb_lt _ _)); [done|].
    rewrite !blength_cons. lia.
  - apply Z.ltb_ge in H126. apply Z.ltb_lt in H16.
    destruct n as [|[|n]]; [done..|].
    unfold writeUInt16BE in Hn |- *. cbn [app length] in Hn |- *.
    destruct n as [|[|n]]; [done..|]. cbn [firstn].
    assert (Hshort : blength (take n p) < blength p)
      by (unfold blength; rewrite length_take; lia).
    change (Z.land (Z.shiftr (blength p) 8) 255 :: Z.land (blength p) 255 :: take n p)
      with (writeUInt16BE (blength p) ++ take n p).
    unfold decodeFrame.
    rewrite (proj2 (Z.ltb_ge _ 2)) by blen.
    rewrite byte_0, byte_1.
    change (Z.land 126 0x80) with 0. change (Z.land 126 0x7f) with 126.
    change (126 =? 126) with true. change (0 =? 0) with true. cbn [negb]. cbv iota.
    rewrite (proj2 (Z.ltb_ge _ (2 + 2))) by blen.
    rewrite readUInt16BE_skip2.
    rewrite read_write_UInt16BE by lia.
    unfold decodePayload. rewrite (proj2 (Z.ltb_lt _ _)); [done|].
    rewrite !blength_cons, blength_app. unfold writeUInt16BE, blength at 1. cbn [length]. lia.
  - apply Z.ltb_ge in H126, H16.
    destruct n as [|[|n]]; [done..|].
    unfold writeUInt32BE in Hn |- *. cbn [app length] in Hn |- *.
    do 8 (destruct n as [|n]; [done|]). cbn [firstn].
    assert (Hshort : blength (take n p) < blength p)
      by (unfold blength; rewrite length_take; lia).
    match goal with
    | |- decodeFrame (_ :: _ :: ?a :: ?b :: ?c :: ?d :: ?e :: ?f :: ?g :: ?h :: _) = _ =>
        change (a :: b :: c :: d :: e :: f :: g :: h :: take n p)
          with (writeUInt32BE 0 ++ writeUInt32BE (blength p) ++ take n p)
    end.
    unfold decodeFrame.
    rewrite (proj2 (Z.ltb_ge _ 2)) by blen.
    rewrite byte_0, byte_1.
    change (Z.land 127 0x80) with 0. change (Z.land 127 0x7f) with 127.
    change (127 =? 126) with false. change (127 =? 127) with true.
    change (0 =? 0) with true. cbn [negb]. cbv iota.
    rewrite (proj2 (Z.ltb_ge _ (2 + 8))) by blen.
    rewrite readUInt32BE_skip2, (read_write_UInt32BE 0) by lia.
    change (0 =? 0) with true. cbn [negb].
    change (2 + 4) with 6. change (writeUInt32BE 0) with [0; 0; 0; 0]. cbn [app].
    rewrite readUInt32BE_skip6, read_write_UInt32BE by lia.
    unfold decodePayload. rewrite (proj2 (Z.ltb_lt _ _)); [done|].
    rewrite !blength_cons, blength_app. unfold writeUInt32BE, blength at 1. cbn [length]. lia.
Qed.

End ConnectionMore.

(** ** Session initialisation *)

Section HostFacts.
Import Host.
Local Open Scope list_scope.
Context {number : Type}.

(** On an initialised session [initialize] is refused with -32600 and
    nothing but the outbox changes. *)
Lemma handleInitialize_again (tools : list (Tool number)) (message : JsonRpcRequest number)
    (now : Z) (session : Session number) (ledger : list (Event number)) :
  initialized session = true →
  handleInitialize tools message now (session, ledger) =
  (sendError (id_or_null message) (-32600) "Session already initialized" session, ledger).
Proof. intros Hinit. simpl. by rewrite Hinit. Qed.

Lemma initialize_all_again (tools : list (Tool number))
    (requests : list (JsonRpcRequest number * Z))
    (session : Session number) (ledger : list (Event number)) :
  initialized session = true →
  initialize_all tools requests (session, ledger) =
  ({| session_id := session_id session; initialized := true;
      clientInfo := clientInfo session;
      outbox := outbox session ++
                map (λ r, ErrorResponse (id_or_null r.1) (-32600) "Session already initialized")
                    requests |}, ledger).
Proof.
  revert session. induction requests as [|[message now] requests IH]; intros session Hinit.
  - simpl. rewrite app_nil_r. destruct session; simpl in *. by subst.
  - cbn [initialize_all]. rewrite handleInitialize_again by done.
    rewrite IH by done. simpl. by rewrite <- app_assoc.
Qed.

(** C9.  On a session not yet initialised, [initialize] sets the flag,
    stores the client descriptor and replies with the protocol version
    "2024-05-22", the capabilities (list, call and streaming of tools) and
    the catalogue (name, description and input schema of every registered
    tool, in order); every later [initialize] on the session
    is answered with error -32600, and the flag, the descriptor and the
    ledger stay as the first request left them.  The last part holds on
    every initialised session, whatever was handled in between: no other
    code writes the flag. *)
Theorem initialize_once (tools : list (Tool number)) (message : JsonRpcRequest number)
    (now : Z) (session : Session number) (ledger : list (Event number))
    (later : list (JsonRpcRequest number * Z)) :
  initialized session = false →
  let first := handleInitialize tools message now (session, ledger) in
  let final := initialize_all tools later first in
  initialized first.1 = true
  ∧ clientInfo first.1 = Some (client_or_null message)
  ∧ outbox first.1 =
      outbox session ++
      [Response (id_or_null message)
         (JObject
            [("protocolVersion", JString "2024-05-22");
             ("capabilities",
               JObject [("tools", JObject [("list", JBool true); ("call", JBool true);
                                          ("streaming", JBool true)])]);
             ("tools",
               JArray (map (λ tool, JObject [("name", JString (name tool));
                                             ("description", JString (description tool));
                                             ("inputSchema", inputSchema tool)])
                         tools))])]
  ∧ first.2 =
      ledger ++ [SessionInitialized (session_id session) (client_or_null message) now]
  ∧ initialized final.1 = true
  ∧ clientInfo final.1 = clientInfo first.1
  ∧ final.2 = first.2
  ∧ outbox final.1 =
      outbox first.1 ++
      map (λ r, ErrorResponse (id_or_null r.1) (-32600) "Session already initialized") later
  ∧ ∀ (session' : Session number) ledger' message' now',
      initialized session' = true →
      handleInitialize tools message' now' (session', ledger') =
      ({| session_id := session_id session'; initialized := initialized session';
          clientInfo := clientInfo session';
          outbox := outbox session' ++
            [ErrorResponse (id_or_null message') (-32600) "Session already initialized"] |},
       ledger').
Proof.
  intros Hinit first final.
  assert (Hfirst : first =
    ({| session_id := session_id session; initialized := true;
        clientInfo := Some (client_or_null message);
        outbox := outbox session ++ [Response (id_or_null message) (initialize_result tools)] |},
     ledger ++ [SessionInitialized (session_id session) (client_or_null message) now])).
  { subst first. unfold handleInitialize. by rewrite Hinit. }
  assert (Hfinal := initialize_all_again tools later first.1 first.2).
  rewrite <- surjective_pairing in Hfinal. fold final in Hfinal.
  rewrite Hfirst in Hfinal |- *. simpl in Hfinal. specialize (Hfinal eq_refl).
  rewrite Hfinal. simpl. repeat split.
  intros session' ledger' message' now' Hinit'. by apply handleInitialize_again.
Qed.

End HostFacts.

(** ** The dispatcher *)

Section DispatchFacts.
Import Host Dispatch.
Local Open Scope list_scope.
Context {number : Type} `{!JsonNumber number}.

(** *** The registry *)

Lemma get_set (tool : Tool number) (tools : list (Tool number)) (n : string) :
  get n (set tool tools) = if String.eqb (name tool) n then Some tool else get n tools.
Proof.
  unfold get. induction tools as [|t tools IH]; simpl.
  - by destruct (name tool =? n)%string.
  - destruct (name t =? name tool)%string eqn:Hsame; simpl.
    + apply String.eqb_eq in Hsame. rewrite Hsame.
      by destruct (name tool =? n)%string.
    + destruct (name t =? n)%string eqn:Ht; [|exact IH].
      apply String.eqb_eq in Ht. subst n. by rewrite String.eqb_sym, Hsame.
Qed.

Lemma names_set (tool : Tool number) (tools : list (Tool number)) :
  ∀ n, n ∈ map name (set tool tools) ↔ n = name tool ∨ n ∈ map name tools.
Proof.
  induction tools as [|t tools IH]; intros n; simpl.
  - rewrite list_elem_of_singleton, elem_of_nil. tauto.
  - destruct (name t =? name tool)%string eqn:Hsame; simpl.
    + apply String.eqb_eq in Hsame. rewrite !elem_of_cons, Hsame. tauto.
    + rewrite !elem_of_cons, IH. tauto.
Qed.

Lemma NoDup_set (tool : Tool number) (tools : list (Tool number)) :
  NoDup (map name tools) → NoDup (map name (set tool tools)).
Proof.
  induction tools as [|t tools IH]; simpl.
  - intros _. apply NoDup_singleton.
  - intros [Hnotin Hnodup]%NoDup_cons.
    destruct (name t =? name tool)%string eqn:Hsame; simpl.
    + apply String.eqb_eq in Hsame. apply NoDup_cons. by rewrite <- Hsame.
    + apply NoDup_cons. split; [|by apply IH].
      rewrite names_set. intros [Heq|Hin]; [|done].
      apply String.eqb_neq in Hsame. done.
Qed.

Lemma get_listed (tools : list (Tool number)) (t : Tool number) :
  NoDup (map name tools) → t ∈ tools → get (name t) tools = Some t.
Proof.
  unfold get. induction tools as [|t0 tools IH]; simpl.
  - by intros _ ?%elem_of_nil.
  - intros [Hnotin Hnodup]%NoDup_cons [->|Hin]%elem_of_cons.
    + by rewrite String.eqb_refl.
    + destruct (name t0 =? name t)%string eqn:Hsame; [|by apply IH].
      apply String.eqb_eq in Hsame. exfalso. apply Hnotin. rewrite Hsame.
      by apply list_elem_of_fmap_2.
Qed.

Lemma add_snoc (new : list (Tool number)) (tool : Tool number) (tools : list (Tool number)) :
  add (new ++ [tool]) tools = set tool (add new tools).
Proof. unfold add. by rewrite foldl_app. Qed.

(** The catalogue and the lookup agree.  In a registry filled by [add], no
    two tools of the list share a name; every tool of the list (the
    catalogue that [initialize] and [tools/list] send) is the one
    [tools/call] finds under its name; and under a name that was registered
    more than once the lookup finds the tool registered last. *)
Theorem registry_lookup (new : list (Tool number)) :
  NoDup (map name (add new []))
  ∧ (∀ t, t ∈ add new [] → get (name t) (add new []) = Some t)
  ∧ ∀ n, get n (add new []) = get n (reverse new).
Proof.
  assert (Hnodup : NoDup (map name (add new []))).
  { induction new as [|tool new IH] using rev_ind; [constructor|].
    rewrite add_snoc. by apply NoDup_set. }
  split; [done|]. split; [intros t; by apply get_listed|].
  induction new as [|tool new IH] using rev_ind; intros n; [done|].
  rewrite add_snoc, get_set, reverse_snoc.
  unfold get at 2. simpl.
  destruct (name tool =? n)%string; [done|].
  apply IH. rewrite add_snoc in Hnodup.
  clear IH. revert Hnodup. generalize (add new []) as tools.
  induction tools as [|t tools IH]; simpl; [constructor|].
  destruct (name t =? name tool)%string eqn:Hsame; simpl.
  - apply String.eqb_eq in Hsame. by rewrite Hsame.
  - intros [Hnotin Hnodup]%NoDup_cons. apply NoDup_cons. split; [|by apply IH].
    rewrite names_set in Hnotin. tauto.
Qed.

(** *** One message *)

Lemma handleCallTool_initialized (tools : list (Tool number))
    (message : JsonRpcRequest number) (now : Z) (state state' : State number)
    (started : option (Invocation number)) :
  handleCallTool tools message now state = (state', started) →
  peer_initialized state' = peer_initialized state
  ∧ peer_id state' = peer_id state
  ∧ match started with
    | None =>
        ledger state' = ledger state
        ∧ ∃ wire, sent state' = sent state ++ [wire]
                  ∧ answers wire = Some (id_or_null message)
    | Some invocation =>
        peer_initialized state = true
        ∧ sent state' = sent state
        ∧ ledger state' =
            ledger state ++
            [ToolInvocationStarted (peer_id state) (name (invoked invocation))
               (invocationId invocation) (arguments invocation) now]
        ∧ invoked invocation ∈ tools
        ∧ request_id invocation = id_or_null message
        ∧ request_id invocation ≠ JNull
        ∧ context_sessionId invocation = peer_id state
    end.
Proof.
  unfold handleCallTool.
  destruct (peer_initialized state) eqn:Hinit; simpl.
  2:{ intros [= <- <-]. simpl. rewrite Hinit. eauto 10. }
  destruct (id_or_null message) eqn:Hid;
    try (destruct (param "name" message) as [[| | |toolName| |]|];
         try (intros [= <- <-]; simpl; rewrite ?Hinit; by eauto 10);
         destruct (get toolName tools) as [tool|] eqn:Hget;
         [|intros [= <- <-]; simpl; rewrite ?Hinit; by eauto 10];
         intros [= <- <-]; simpl; rewrite ?Hinit;
         repeat (split; [done|]);
         (split; [|done]);
         apply list_elem_of_In; by apply (find_some _ _ Hget)).
  intros [= <- <-]. simpl. rewrite Hinit. eauto 10.
Qed.



(** Every request is answered once.  Whatever text [JSON.parse] accepts,
    except [null] (on which the handler throws), and whatever it rejects,
    [handleIncomingMessage] either sends exactly one response or error that
    carries the [id] of the message ([null] if it has none) and starts no
    tool, or starts one tool and sends nothing; and in that case, however
    the tool ends, the completion sends the chunks of an iterable result
    (an array is one) in their order as notifications, then exactly one
    response or error with the [id] of the request. *)
Theorem request_answered_once (tools : list (Tool number)) (raw : string)
    (parsed : option (value number)) (now : Z) (state state' : State number)
    (started : option (Invocation number)) :
  handleIncomingMessage tools raw parsed now state = Returned state' started →
  match started with
  | None =>
      ∃ wire, sent state' = sent state ++ [wire] ∧ answers wire = Some (id_of parsed)
  | Some invocation =>
      sent state' = sent state
      ∧ id_of parsed ≠ JNull
      ∧ ∀ outcome later state0,
          ∃ final,
            sent (complete invocation outcome later state0) =
              sent state0 ++
              map (λ chunk,
                     Notification "tools/stream"
                       (JObject [("invocationId", JString (invocationId invocation));
                                 ("chunk", chunk)]))
                (match outcome with
                 | Resolved (JArray items) => items
                 | Iterated chunks _ => chunks
                 | _ => []
                 end)
              ++ [final]
            ∧ answers final = Some (id_of parsed)
  end.
Proof.
  assert (Hstream : ∀ invocation chunks (state0 : State number),
            sent (stream invocation chunks state0) =
            sent state0 ++
            map (λ chunk,
                   Notification "tools/stream"
                     (JObject [("invocationId", JString (invocationId invocation));
                               ("chunk", chunk)])) chunks).
  { intros invocation chunks. unfold stream.
    induction chunks as [|chunk chunks IH]; intros state0; simpl; [by rewrite app_nil_r|].
    rewrite IH. simpl. by rewrite <- app_assoc. }
  assert (Hcomplete : ∀ invocation outcome later (state0 : State number),
            ∃ final,
              sent (complete invocation outcome later state0) =
                sent state0 ++
                map (λ chunk,
                       Notification "tools/stream"
                         (JObject [("invocationId", JString (invocationId invocation));
                                   ("chunk", chunk)]))
                  (match outcome with
                   | Resolved (JArray items) => items
                   | Iterated chunks _ => chunks
                   | _ => []
                   end)
                ++ [final]
              ∧ answers final = Some (request_id invocation)).
  { intros invocation outcome later state0.
    destruct outcome as [[| | | |items|]|chunks [message|]|message]; simpl;
      unfold streaming; simpl; rewrite ?Hstream;
      (eexists; split; [by rewrite <- ?app_assoc|done]). }
  unfold handleIncomingMessage.
  destruct parsed as [[| | | | |entries]|]; try (intros [= <- <-]; simpl; by eauto).
  destruct (property "jsonrpc" entries) as [[| | |version| |]|];
    try (intros [= <- <-]; simpl; by eauto).
  destruct (property "method" entries) as [[| | |method0| |]|];
    try (intros [= <- <-]; simpl; by eauto).
  destruct (version =? "2.0")%string; [|intros [= <- <-]; simpl; by eauto].
  destruct (route _ _ _ _) as [state1 started1] eqn:Hroute. intros [= <- <-].
  revert Hroute. unfold route. simpl.
  destruct (method0 =? "initialize")%string.
  { unfold handleInitialize. destruct (peer_initialized state); intros [= <- <-]; simpl; eauto. }
  destruct (method0 =? "tools/list")%string.
  { unfold handleListTools. destruct (peer_initialized state); intros [= <- <-]; simpl; eauto. }
  destruct (method0 =? "tools/call")%string.
  { intros (_ & _ & Hstarted)%handleCallTool_initialized.
    destruct started1 as [invocation|].
    - destruct Hstarted as (_ & Hsent & _ & _ & Hid & Hnull & _).
      unfold id_or_null in Hid. simpl in Hid. rewrite <- Hid.
      split; [done|]. split; [done|]. apply Hcomplete.
    - by destruct Hstarted as (_ & Hsent). }
  destruct (method0 =? "ping")%string; intros [= <- <-]; simpl; eauto.
Qed.

(** *** A session from its first message on *)





End DispatchFacts.

(** ** The tools *)

Section MaskFacts.
Import Tools.
Local Open Scope list_scope.
Local Open Scope nat_scope.
Context {number : Type}.

Lemma length_string_repeat (count : nat) : String.length (string_repeat "*" count) = count.
Proof. induction count as [|count IH]; str_simpl; [done|]. by rewrite IH. Qed.

Lemma get_string_repeat (count i : nat) (c : ascii) :
  String.get i (string_repeat "*" count) = Some c → c = "*"%char.
Proof.
  revert i. induction count as [|count IH]; intros i; simpl; [done|].
  destruct i as [|i]; [by intros [= <-]|]. apply IH.
Qed.

(** A string that is not empty ends with a character. *)
Lemma string_snoc (a : ascii) (s : string) :
  ∃ init b, String a s = init +:+ String b "".
Proof.
  revert a. induction s as [|a' s IH]; intros a.
  - by exists "", a.
  - destruct (IH a') as (init & b & ->). by exists (String a init), b.
Qed.

Lemma substring_last (x : string) (b : ascii) :
  substring (String.length x) 1 (x +:+ String b "") = String b "".
Proof. induction x as [|a x IH]; simpl; [done|]. exact IH. Qed.

Lemma get_last (x : string) (b : ascii) :
  String.get (String.length x) (x +:+ String b "") = Some b.
Proof. induction x as [|a x IH]; simpl; [done|]. exact IH. Qed.

(** [maskString] on a string of three code units or more. *)
Lemma maskString_long (a b : ascii) (mid : string) :
  mid ≠ "" →
  maskString (String a (mid +:+ String b "")) =
  String a (string_repeat "*" (String.length mid) +:+ String b "").
Proof.
  intros Hmid. unfold maskString.
  assert (Hlen : String.length (String a (mid +:+ String b "")) = S (S (String.length mid)))
    by (simpl; rewrite length_append; simpl; lia).
  assert (0 < String.length mid) by (destruct mid; [done|simpl; lia]).
  rewrite Hlen. rewrite (proj2 (Nat.leb_gt _ _)) by lia.
  replace (S (S (String.length mid)) - 1) with (String.length (String a mid)) by (simpl; lia).
  change (String a (mid +:+ String b "")) with (String a mid +:+ String b "") at 2.
  rewrite substring_last.
  replace (S (S (String.length mid)) - 2) with (String.length mid) by lia.
  rewrite Nat.max_l by lia.
  simpl. by destruct (mid +:+ String b "").
Qed.

(** Every string is short, or has a first and a last code unit around a
    middle that is not empty. *)
Lemma string_cases (s : string) :
  String.length s ≤ 2
  ∨ ∃ a mid b, mid ≠ "" ∧ s = String a (mid +:+ String b "").
Proof.
  destruct s as [|a [|a' s]]; [left; simpl; lia..|].
  destruct (string_snoc a' s) as (init & b & Hs).
  destruct init as [|a0 init].
  - left. simpl in Hs. injection Hs as -> ->. simpl. lia.
  - right. exists a, (String a0 init), b. split; [done|]. by rewrite Hs.
Qed.

Lemma maskString_idempotent (s : string) : maskString (maskString s) = maskString s.
Proof.
  destruct (string_cases s) as [Hshort|(a & mid & b & Hmid & ->)].
  - unfold maskString. rewrite (proj2 (Nat.leb_le _ _) Hshort).
    by rewrite length_string_repeat, (proj2 (Nat.leb_le _ _) Hshort).
  - rewrite maskString_long by done.
    rewrite maskString_long by (destruct mid; done).
    by rewrite length_string_repeat.
Qed.

(** What [maskString] lets through.  The masked string has the length of
    the string; masking it again changes nothing; and a code unit of it
    that is not the asterisk is the first or the last code unit of a string
    of three code units or more, at its place. *)
Theorem maskString_hides_interior (s : string) :
  String.length (maskString s) = String.length s
  ∧ maskString (maskString s) = maskString s
  ∧ ∀ i c, String.get i (maskString s) = Some c → c ≠ "*"%char →
      2 < String.length s
      ∧ (i = 0 ∨ i = String.length s - 1)
      ∧ String.get i s = Some c.
Proof.
  destruct (string_cases s) as [Hshort|(a & mid & b & Hmid & ->)].
  - assert (Hmask : maskString s = string_repeat "*" (String.length s)).
    { unfold maskString. by rewrite (proj2 (Nat.leb_le _ _) Hshort). }
    split; [rewrite Hmask; apply length_string_repeat|].
    split; [apply maskString_idempotent|]. rewrite Hmask.
    intros i c Hget Hc. by apply get_string_repeat in Hget.
  - rewrite maskString_long by done.
    assert (Hpos : 0 < String.length mid) by (destruct mid; [done|simpl; lia]).
    assert (Hstars : string_repeat "*" (String.length mid) ≠ "").
    { destruct mid; [done|]. simpl. done. }
    split; [simpl; rewrite !length_append, length_string_repeat; done|].
    split; [rewrite <- (maskString_long a b mid Hmid); apply maskString_idempotent|].
    intros i c Hget Hc.
    split; [simpl; rewrite length_append; simpl; lia|].
    destruct i as [|i]; [simpl in *; auto|].
    simpl in Hget.
    destruct (decide (i < String.length mid)) as [Hlt|Hge].
    + rewrite <- append_correct1 in Hget by (by rewrite length_string_repeat).
      by apply get_string_repeat in Hget.
    + destruct (decide (i = String.length mid)) as [->|Hne].
      * split; [right; simpl; rewrite length_append; simpl; lia|].
        pose proof (get_last (string_repeat "*" (String.length mid)) b) as Hb.
        rewrite length_string_repeat, Hget in Hb. injection Hb as ->.
        simpl. apply get_last.
      * exfalso.
        replace i with ((i - String.length mid)
                        + String.length (string_repeat "*" (String.length mid))) in Hget
          by (rewrite length_string_repeat; lia).
        rewrite <- append_correct2 in Hget.
        destruct (i - String.length mid) as [|[|k]] eqn:Hk; simpl in Hget; [lia|done..].
Qed.

(** [maskValue] on an object is [maskRecord] on it, as in the source. *)
Lemma maskValue_object (key : string) (entries : list (string * value number)) :
  maskValue key (JObject entries) = maskRecord (JObject entries).
Proof. done. Qed.

Lemma maskValue_idempotent (key : string) (v : value number) :
  maskValue key (maskValue key v) = maskValue key v.
Proof.
  revert key. induction v as [| | |s|items IH|entries IH] using value_nested_ind;
    intros key; simpl; try done.
  - destruct (includes PII_FIELDS key) eqn:Hpii; simpl; rewrite ?Hpii; [|done].
    f_equal. apply maskString_idempotent.
  - f_equal. rewrite map_map. apply map_ext_Forall.
    eapply Forall_impl; [exact IH|]. simpl. auto.
  - f_equal. rewrite map_map. apply map_ext_Forall.
    eapply Forall_impl; [exact IH|]. intros [k x] Hx. simpl in *. by rewrite Hx.
Qed.

Lemma maskValue_keys (key : string) (entries : list (string * value number)) :
  ∃ entries', maskValue key (JObject entries) = JObject entries'
              ∧ keys entries' = keys entries.
Proof.
  eexists. split; [done|]. unfold keys. rewrite <- list_fmap_compose.
  by apply list_fmap_ext.
Qed.

(** Masking is stable: a record masked once is not changed by masking it
    again, at any depth, and an object keeps its keys in their order. *)
Theorem maskRecord_idempotent (record : value number) :
  maskRecord (maskRecord record) = maskRecord record
  ∧ ∀ entries, record = JObject entries →
      ∃ entries', maskRecord record = JObject entries' ∧ keys entries' = keys entries.
Proof.
  split.
  - induction record as [| | |s|items IH|entries IH] using value_nested_ind;
      simpl; try done.
    + f_equal. rewrite map_map. apply map_ext_Forall.
      eapply Forall_impl; [exact IH|]. simpl. auto.
    + f_equal. rewrite map_map. apply map_ext_Forall.
      apply Forall_forall. intros [k x] _. simpl. by rewrite maskValue_idempotent.
  - intros entries ->. apply (maskValue_keys "").
Qed.

End MaskFacts.

Section CreateFacts.
Import Tools.
Local Open Scope list_scope.
Context {number : Type} `{!JsonNumber number} (toISOString : Z → string).

Lemma includes_true (xs : list string) (x : string) : includes xs x = true ↔ x ∈ xs.
Proof. unfold includes. apply bool_decide_eq_true. Qed.

(** What [sanitizeValues] returns: the properties of the input object that
    are fields of the model, in their order, and at least one. *)
Lemma sanitizeValues_Ok (model : string) (values : option (value number))
    (v : value number) :
  sanitizeValues model values = Ok v →
  ∃ entries allowedFields w,
    values = Some (JObject entries)
    ∧ property model ALLOWED_MODELS = Some (allowedFields, w)
    ∧ v = JObject (List.filter (λ e, includes allowedFields e.1) entries)
    ∧ List.filter (λ e, includes allowedFields e.1) entries ≠ []
    ∧ Forall (λ e, e.1 ∈ allowedFields)
        (List.filter (λ e, includes allowedFields e.1) entries).
Proof.
  unfold sanitizeValues.
  destruct values as [[| | | | |entries]|]; try done.
  destruct (property model ALLOWED_MODELS) as [[allowedFields w]|]; [|done].
  destruct (List.filter _ entries) as [|e sanitized] eqn:Hfilter; simpl; [done|].
  intros [= <-]. exists entries, allowedFields, w. rewrite Hfilter.
  repeat split; [done|]. rewrite <- Hfilter.
  apply Forall_forall. intros x [_ Hx]%list_elem_of_In%filter_In.
  by apply includes_true.
Qed.

(** The checks [createTool.execute] makes before anything else. *)
Lemma checks_Ok (model mode : string) (values : option (value number)) (v : value number) :
  (assertModelAllowed model;; assertModelWritable model;; assertExecutionMode mode;;
   sanitizeValues model values) = Ok v →
  model ∈ WRITABLE_MODELS ∧ mode ∈ EXECUTION_MODES ∧ sanitizeValues model values = Ok v.
Proof.
  unfold assertModelAllowed, assertModelWritable, assertExecutionMode, mbind, result_bind.
  destruct (includes SAFE_MODELS model); [|done].
  destruct (includes WRITABLE_MODELS model) eqn:Hw; [|done].
  destruct (includes EXECUTION_MODES mode) eqn:Hm; [|done].
  apply includes_true in Hw, Hm. done.
Qed.

Lemma checks_pass (model mode : string) (values : option (value number)) (v : value number) :
  model ∈ WRITABLE_MODELS → mode ∈ EXECUTION_MODES → sanitizeValues model values = Ok v →
  (assertModelAllowed model;; assertModelWritable model;; assertExecutionMode mode;;
   sanitizeValues model values) = Ok v.
Proof.
  intros Hw Hm Hv.
  assert (Hs : model ∈ SAFE_MODELS).
  { unfold WRITABLE_MODELS in Hw. by apply list_elem_of_In, filter_In in Hw as [?%list_elem_of_In _]. }
  unfold assertModelAllowed, assertModelWritable, assertExecutionMode, mbind, result_bind.
  by rewrite (proj2 (includes_true _ _) Hs), (proj2 (includes_true _ _) Hw),
    (proj2 (includes_true _ _) Hm).
Qed.

(** The dates of a reply are rendered or the reply is the error of
    [toISOString]. *)
Lemma formatIso_cases (timestamp : option Z) :
  (∃ text, formatIso toISOString timestamp = Ok text)
  ∨ (formatIso toISOString timestamp = Thrown "Invalid time value"
     ∧ ∃ t, timestamp = Some t ∧ valid_time t = false).
Proof.
  destruct timestamp as [t|]; simpl; [|by eauto].
  destruct (valid_time t) eqn:Hvalid; by eauto.
Qed.

Lemma formatIso_valid (t : Z) :
  valid_time t = true → formatIso toISOString (Some t) = Ok (Some (toISOString t)).
Proof. intros Hvalid. simpl. by rewrite Hvalid. Qed.

(** An execution that fails changes nothing, unless what failed is the
    rendering of a date of the reply.  When [createTool.execute], run with
    no other call on the store in between, returns an error object, the
    store and its ledger are as they were before (a check failed, the store
    refused, or the connector threw; an approval is then still there for
    another confirm), or the error is the RangeError of [toISOString],
    thrown after [recordDryRun] or [recordConfirm] has returned: the stage
    is recorded then, and in confirm mode the connector had answered. *)
Theorem failed_execution_changes_nothing (input : CreateInput number)
    (context : ToolExecutionContext number) (world : World number)
    (st st' : Store number) (message : string) (calls : list (RemoteCall number)) :
  execute toISOString input context world st = (st', ErrorReply message, calls) →
  st' = st
  ∨ (message = "Failed to execute create: Invalid time value"
     ∧ ∃ pending call record,
         start input context world st = (st, Awaiting pending call)
         ∧ calls = [call]
         ∧ match pending with
           | AwaitAccess model sanitizedValues payload actor =>
               (∃ summary,
                  recordDryRun (context_sessionId context) "odoo.create" payload summary
                    (Some actor) None (now world) st = (st', Return record))
               ∧ valid_time (now world)
                 && valid_time (now world + DEFAULT_APPROVAL_TTL_MS) = false
           | AwaitCreate model sanitizedValues payload actor action_id dryRunRecord =>
               ∃ id,
                 created world = Ok id
                 ∧ recordConfirm action_id (context_sessionId context) "odoo.create"
                     payload (JObject [("id", id)]) (Some actor) (later world) st
                   = (st', Return record)
           end).
Proof.
  unfold execute.
  destruct (start input context world st) as [st1 [reply|pending call]] eqn:Hstart.
  { (* no await *)
    intros [= <- -> <-]. left. revert Hstart. unfold start.
    destruct (assertModelAllowed _;; _) as [v|m]; [|by intros [= <- _]].
    destruct (input_mode input =? "plan")%string.
    { destruct (recordPlan _ _ _ _ _ _ _ st) as [st2 [record|e]] eqn:Hcall; [done|].
      destruct (recordPlan_returns (context_sessionId context) "odoo.create"
                  (JObject [("model", JString (input_model input)); ("values", v)])
                  (summarizeAction "plan:create"
                     (JObject [("model", JString (input_model input)); ("values", v)]))
                  (Some (resolveActor context)) (uuid world) (now world) st)
        as (record & Hret & _).
      rewrite Hcall in Hret. done. }
    destruct (input_mode input =? "dry_run")%string; [done|].
    destruct (filled (input_action_id input)) as [action_id|]; [|by intros [= <- _]].
    pose proof (validateConfirm_reads action_id (context_sessionId context) "odoo.create"
                  (JObject [("model", JString (input_model input)); ("values", v)])
                  (now world) st) as Hreads.
    destruct (validateConfirm _ _ _ _ _ st) as [st2 [d|e]]; simpl in Hreads; subst st2;
      [done | by intros [= <- _]]. }
  assert (Hsame : st1 = st).
  { revert Hstart. unfold start.
    destruct (assertModelAllowed _;; _) as [v|m]; [|done].
    destruct (input_mode input =? "plan")%string.
    { by destruct (recordPlan _ _ _ _ _ _ _ st) as [st2 [record|e]]. }
    destruct (input_mode input =? "dry_run")%string; [by intros [= <- _ _]|].
    destruct (filled (input_action_id input)) as [action_id|]; [|done].
    pose proof (validateConfirm_reads action_id (context_sessionId context) "odoo.create"
                  (JObject [("model", JString (input_model input)); ("values", v)])
                  (now world) st) as Hreads.
    destruct (validateConfirm _ _ _ _ _ st) as [st2 [d|e]]; simpl in Hreads; subst st2;
      [by intros [= <- _ _] | done]. }
  subst st1. clear Hstart.
  destruct pending as [model v payload actor|model v payload actor action_id d];
    unfold resume.
  - (* dry_run *)
    destruct (recordDryRun _ _ _ _ _ _ _ st) as [st2 [record|e]] eqn:Hcall.
    2:{ apply recordDryRun_Throw in Hcall as ->. intros [= <- _ _]. by left. }
    pose proof Hcall as Heffect.
    apply recordDryRun_effect in Heffect as (lc & _ & _ & Hlc & _).
    pose proof (recordDryRun_record _ _ _ _ _ _ _ _ _ _ lc Hcall Hlc) as Hmeta.
    rewrite Hmeta. cbn [approvedAt expiresAt default].
    unfold formatIso.
    destruct (valid_time (now world)) eqn:Hnow; simpl.
    + destruct (valid_time (now world + DEFAULT_APPROVAL_TTL_MS)) eqn:Hexp; simpl; [done|].
      intros [= <- <- <-]. right. split; [done|]. eexists _, _, record.
      split; [done|]. split; [done|]. split; [by eexists|done].
    + intros [= <- <- <-]. right. split; [done|]. eexists _, _, record.
      split; [done|]. split; [done|]. split; [by eexists|done].
  - (* confirm *)
    destruct (created world) as [id|m] eqn:Hcreated; [|intros [= <- _ _]; by left].
    destruct (recordConfirm _ _ _ _ _ _ _ st) as [st2 [record|e]] eqn:Hcall.
    2:{ pose proof (recordConfirm_effect action_id (context_sessionId context) "odoo.create"
                      payload (JObject [("id", id)]) (Some actor) (later world) st) as Heff.
        destruct (lifecycles st !! action_id) as [lc|].
        - destruct Heff as (c & _ & Heff). rewrite Heff in Hcall. done.
        - rewrite Heff in Hcall. injection Hcall as <- _. intros [= <- _ _]. by left. }
    intros Hreply. right.
    assert (Hmessage : message = "Failed to execute create: Invalid time value").
    { injection Hreply as _ Hreply _. revert Hreply.
      destruct (formatIso_cases (approvedAt (metadata record))) as [[x1 ->]|[-> _]];
        [|by intros [= <-]].
      destruct (formatIso_cases (expiresAt (metadata record))) as [[x2 ->]|[-> _]];
        [|by intros [= <-]].
      destruct (valid_time (default (timestamp record) (confirmedAt (metadata record))));
        [|by intros [= <-]].
      destruct (formatIso_cases (approvedAt (metadata d))) as [[x4 ->]|[-> _]];
        [|by intros [= <-]].
      destruct (formatIso_cases (expiresAt (metadata d))) as [[x5 ->]|[-> _]];
        [|by intros [= <-]].
      done. }
    injection Hreply as <- _ <-.
    split; [done|]. eexists _, _, record. split; [done|]. split; [done|].
    by exists id.
Qed.

(** The connector creates only what was approved.  Whenever
    [createTool.execute] calls [odooConnector.create], the mode is confirm,
    the model is writable, the values are an object with at least one
    property and only fields of the model, and the store holds, under the
    action identifier of the input, a lifecycle of this session, this tool
    and this payload with an approved dry_run that has not expired and no
    confirm stage; and that call is the only one made. *)
Theorem create_only_when_approved (input : CreateInput number)
    (context : ToolExecutionContext number) (world : World number)
    (st st' : Store number) (reply : Reply number) (calls : list (RemoteCall number))
    (model : string) (values : value number) :
  execute toISOString input context world st = (st', reply, calls) →
  Create model values ∈ calls →
  calls = [Create model values]
  ∧ input_mode input = "confirm"
  ∧ model = input_model input
  ∧ model ∈ WRITABLE_MODELS
  ∧ (∃ entries allowedFields w,
       values = JObject entries ∧ entries ≠ []
       ∧ property model ALLOWED_MODELS = Some (allowedFields, w)
       ∧ Forall (λ e, e.1 ∈ allowedFields) entries)
  ∧ ∃ action_id lc d,
      input_action_id input = Some (JString action_id)
      ∧ lifecycles st !! action_id = Some lc
      ∧ lc_sessionId lc = context_sessionId context
      ∧ lc_tool lc = "odoo.create"
      ∧ signature lc =
          computeSignature (context_sessionId context) "odoo.create"
            (JObject [("model", JString model); ("values", values)])
      ∧ dryRun lc = Some d
      ∧ truthy (approvedBy (metadata d)) = true
      ∧ expired (expiresAt (metadata d)) (now world) = false
      ∧ confirm lc = None.
Proof.
  unfold execute, start.
  destruct (assertModelAllowed _;; _) as [v|m] eqn:Hchecks;
    [|by intros [= _ _ <-] ?%elem_of_nil].
  apply checks_Ok in Hchecks as (Hw & Hm & Hv).
  destruct (input_mode input =? "plan")%string eqn:Hplan.
  { destruct (recordPlan _ _ _ _ _ _ _ st) as [st1 [record|e]];
      by intros [= _ _ <-] ?%elem_of_nil. }
  destruct (input_mode input =? "dry_run")%string eqn:Hdry.
  { destruct (resume _ _ _ _ _) as [st1 reply0].
    intros [= _ _ <-] Hin%list_elem_of_singleton; done. }
  assert (Hmode : input_mode input = "confirm").
  { apply String.eqb_neq in Hplan, Hdry.
    unfold EXECUTION_MODES in Hm.
    apply elem_of_cons in Hm as [?|Hm]; [done|].
    apply elem_of_cons in Hm as [?|Hm]; [done|].
    by apply list_elem_of_singleton in Hm. }
  destruct (filled (input_action_id input)) as [action_id|] eqn:Hid;
    [|by intros [= _ _ <-] ?%elem_of_nil].
  assert (Haid : input_action_id input = Some (JString action_id)).
  { unfold filled in Hid. destruct (input_action_id input) as [[| | |s| |]|]; try done.
    destruct (0 <? String.length s)%nat; [|done]. by injection Hid as ->. }
  destruct (validateConfirm _ _ _ _ _ st) as [st1 [d|e]] eqn:Hval;
    [|by intros [= _ _ <-] ?%elem_of_nil].
  apply validateConfirm_Return in Hval
    as (-> & lc & Hlc & Htool & Hsid & Hsig & Hd & Happr & Hexp & Hconf).
  assert (Hcalled : calls = [Create (input_model input) v] → Create model values ∈ calls →
            calls = [Create model values] ∧ model = input_model input ∧ values = v).
  { intros -> [= -> ->]%list_elem_of_singleton. done. }
  intros Hexec Hin.
  assert (Hlist : calls = [Create (input_model input) v]).
  { destruct (resume _ _ _ _ _) as [st2 reply0]. by injection Hexec as _ _ <-. }
  destruct (Hcalled Hlist Hin) as (-> & -> & ->).
  split; [done|]. split; [done|]. split; [done|]. split; [done|].
  apply sanitizeValues_Ok in Hv as (entries & allowedFields & w & _ & Hprop & -> & Hne & Hall).
  split; [by eexists _, allowedFields, w|].
  exists action_id, lc, d. done.
Qed.

Lemma filled_Some (x : option (value number)) (s : string) : filled x = Some s → s ≠ "".
Proof.
  unfold filled. destruct x as [[| | |s0| |]|]; try done.
  destruct s0; simpl; [done|]. by intros [= <-].
Qed.

(** The actor is never empty in a session with an identifier. *)
Lemma resolveActor_filled (context : ToolExecutionContext number) :
  context_sessionId context ≠ "" → truthy (Some (resolveActor context)) = true.
Proof.
  intros Hsid. apply truthy_Some. unfold resolveActor.
  destruct (context_clientInfo context) as [[| | |info| |info]|]; try done.
  - destruct info; simpl; done.
  - destruct (filled (property "name" info)) eqn:H1; [by apply filled_Some in H1|].
    destruct (filled (property "id" info)) eqn:H2; [by apply filled_Some in H2|].
    destruct (filled (property "login" info)) eqn:H3; [by apply filled_Some in H3|].
    done.
Qed.

(** The whole flow of [odoo.create], each execution run to its end before
    the next one starts and with no other call on the store in between.
    For a writable model and values with at least one field of the model,
    in a session with an identifier, with clock readings that are valid
    dates: plan, then dry_run, then confirm within the five minutes of the
    approval, all with the same model and values, succeed one after the
    other under the identifier drawn by the plan; the connector is asked to
    create exactly once, with the sanitized values, and only by the
    confirm; and a confirm started after the first has finished is refused
    without calling the connector and without changing the store. *)
Theorem create_flow (model : string) (values sanitized id : value number)
    (context : ToolExecutionContext number) (w1 w2 w3 w4 : World number)
    (st : Store number) :
  model ∈ WRITABLE_MODELS →
  sanitizeValues model (Some values) = Ok sanitized →
  context_sessionId context ≠ "" →
  uuid w1 ≠ "" →
  (now w3 ≤ now w2 + DEFAULT_APPROVAL_TTL_MS)%Z →
  created w3 = Ok id →
  valid_time (now w2) = true →
  valid_time (now w2 + DEFAULT_APPROVAL_TTL_MS) = true →
  valid_time (later w3) = true →
  let input := λ mode action_id,
    {| input_model := model; input_values := Some values; input_mode := mode;
       input_action_id := action_id |} in
  let actor := Some (resolveActor context) in
  let approved_at := Some (toISOString (now w2)) in
  let expires_at := Some (toISOString (now w2 + DEFAULT_APPROVAL_TTL_MS)%Z) in
  ∃ st1 st2 st3 summary1 summary2,
    execute toISOString (input "plan" None) context w1 st
      = (st1, PlanReply summary1 (uuid w1) actor, [])
    ∧ execute toISOString (input "dry_run" None) context w2 st1
      = (st2, DryRunReply summary2 (uuid w1) actor actor approved_at expires_at,
         [CheckAccessRights model "create"])
    ∧ execute toISOString (input "confirm" (Some (JString (uuid w1)))) context w3 st2
      = (st3,
         ConfirmReply id (uuid w1) actor actor approved_at expires_at
           actor (Some (toISOString (later w3))) actor approved_at expires_at,
         [Create model sanitized])
    ∧ execute toISOString (input "confirm" (Some (JString (uuid w1)))) context w4 st3
      = (st3,
         ErrorReply
           ("Failed to execute create: " +:+
            error_message
              (if expired (Some (now w2 + DEFAULT_APPROVAL_TTL_MS)%Z) (now w4)
               then ApprovalExpired else AlreadyConfirmed)),
         []).
Proof.
  intros Hw Hv Hsid Huuid Htime Hcreated Hvalid2 Hvalid2' Hvalid3. cbv zeta.
  pose proof (resolveActor_filled context Hsid) as Hactor.
  assert (Hfilled : filled (Some (JString (uuid w1)) : option (value number)) = Some (uuid w1)).
  { simpl. destruct (uuid w1); [done|]. done. }
  set (sid := context_sessionId context) in *.
  set (actor := resolveActor context) in *.
  set (payload := JObject [("model", JString model); ("values", sanitized)]).
  set (summary1 := summarizeAction "plan:create" payload).
  set (summary2 :=
         summarizeAction "dry_run:create"
           (JObject [("model", JString model); ("allowed", JBool (checkDryRunAccess w2));
                     ("values", maskRecord sanitized)])).
  (* plan *)
  destruct (recordPlan_runs sid "odoo.create" payload summary1 (Some actor) (uuid w1)
              (now w1) st) as (st1 & pr & Hplan & Hpid & Hpby & Hidx1 & Hlc1).
  (* dry_run *)
  destruct (recordDryRun_runs sid "odoo.create" payload summary2 (Some actor) None (now w2)
              st1 (uuid w1) _ Hidx1 Huuid Hlc1 (mk_is_Some _ _ eq_refl) eq_refl)
    as (d & Hdid & Hdby & Hdexp & Hdry).
  pose proof (λ lc, recordDryRun_record _ _ _ _ _ _ _ _ _ _ lc Hdry) as Hdmeta.
  rewrite Hdid in Hdmeta. specialize (Hdmeta _ Hlc1). simpl in Hdmeta. rewrite Hpby in Hdmeta.
  simpl in Hdry.
  match type of Hdry with _ = (?s, _) => set (st2 := s) in * end.
  assert (Hlc2 : lifecycles st2 !! uuid w1 =
            Some {| lc_actionId := uuid w1; lc_sessionId := sid; lc_tool := "odoo.create";
                    lc_payload := payload;
                    signature := computeSignature sid "odoo.create" payload;
                    plan := Some pr; dryRun := Some d; confirm := None |})
    by (subst st2; simpl; by rewrite lookup_insert_eq).
  (* confirm *)
  pose proof (validateConfirm_decides (uuid w1) sid "odoo.create" payload (now w3) st2 _ d
                Hlc2 eq_refl eq_refl eq_refl eq_refl eq_refl) as Hval.
  rewrite Hdmeta in Hval. cbn [approvedBy expiresAt] in Hval.
  rewrite Hactor in Hval. cbn [negb expired] in Hval.
  rewrite (proj2 (Z.ltb_ge _ _) Htime), andb_false_r in Hval.
  pose proof (recordConfirm_effect (uuid w1) sid "odoo.create" payload
                (JObject [("id", id)]) (Some actor) (later w3) st2) as Hconf.
  rewrite Hlc2 in Hconf. destruct Hconf as (c & _ & Hconf).
  pose proof (recordConfirm_record _ _ _ _ _ _ _ _ _ _ _ Hconf Hlc2) as [Hcts Hcmeta].
  simpl in Hcmeta, Hconf. rewrite Hpby, Hdmeta in Hcmeta. simpl in Hcmeta.
  match type of Hconf with _ = (?s, _) => set (st3 := s) in * end.
  assert (Hlc3 : lifecycles st3 !! uuid w1 =
            Some {| lc_actionId := uuid w1; lc_sessionId := sid; lc_tool := "odoo.create";
                    lc_payload := payload;
                    signature := computeSignature sid "odoo.create" payload;
                    plan := Some pr; dryRun := Some d; confirm := Some c |})
    by (subst st3; simpl; by rewrite lookup_insert_eq).
  (* the second confirm *)
  pose proof (validateConfirm_after_confirm (uuid w1) sid "odoo.create" payload (now w4)
                st3 _ d Hlc3 eq_refl eq_refl eq_refl eq_refl) as Hval2.
  rewrite Hdmeta in Hval2. cbn [approvedBy expiresAt] in Hval2.
  specialize (Hval2 Hactor (mk_is_Some _ _ eq_refl)).
  exists st1, st2, st3, summary1, summary2.
  unfold execute, start, resume.
  cbn [input_model input_values input_mode input_action_id].
  assert (Hplan_mode : "plan" ∈ EXECUTION_MODES) by (by apply (bool_decide_unpack _)).
  assert (Hdry_mode : "dry_run" ∈ EXECUTION_MODES) by (by apply (bool_decide_unpack _)).
  assert (Hconfirm_mode : "confirm" ∈ EXECUTION_MODES) by (by apply (bool_decide_unpack _)).
  rewrite (checks_pass model "plan" (Some values) sanitized Hw Hplan_mode Hv),
    (checks_pass model "dry_run" (Some values) sanitized Hw Hdry_mode Hv),
    (checks_pass model "confirm" (Some values) sanitized Hw Hconfirm_mode Hv).
  change ("plan" =? "plan")%string with true.
  change ("dry_run" =? "plan")%string with false.
  change ("dry_run" =? "dry_run")%string with true.
  change ("confirm" =? "plan")%string with false.
  change ("confirm" =? "dry_run")%string with false.
  cbv iota. fold sid actor payload summary1 summary2.
  rewrite Hplan, Hdry, Hfilled, Hval, Hcreated, Hconf, Hval2.
  rewrite Hpid, Hpby, Hdid, Hdmeta, Hcmeta, Hcts.
  cbn [approvedAt expiresAt requestedBy approvedBy confirmedBy confirmedAt default].
  rewrite !formatIso_valid by done. simpl.
  done.
Qed.

End CreateFacts.

(** * The statements at sample inputs *)

Section Samples.
Local Open Scope Z_scope.

(** Against C1 as worded: a dry_run recorded without an approver is not
    confirmable. *)
Lemma unapproved_dry_run_rejected :
  let st1 := planned_store in
  let dry := recordDryRun "s1" "odoo.create" sample_payload JNull None None 1001 st1 in
  returned
    (recordPlan "s1" "odoo.create" sample_payload JNull (Some "alice") "id-1" 1000
       empty_store).2 = true
  ∧ returned dry.2 = true
  ∧ (validateConfirm "id-1" "s1" "odoo.create" sample_payload 1002 dry.1).2
    = Throw NotApproved.
Proof. vm_compute. done. Qed.

Lemma plan_dry_run_confirm_sample :
  ∃ st1 st2 planRecord dryRunRecord,
    recordPlan "s1" "odoo.create" sample_payload JNull (Some "alice") "id-1" 1000 empty_store
      = (st1, Return planRecord)
    ∧ actionId planRecord = "id-1"
    ∧ recordDryRun "s1" "odoo.create" sample_payload JNull (Some "bob") None 1001 st1
      = (st2, Return dryRunRecord)
    ∧ mode dryRunRecord = StageDryRun
    ∧ validateConfirm "id-1" "s1" "odoo.create" sample_payload 301001 st2
      = (st2, Return dryRunRecord)
    ∧ (∀ P' t4,
        computeSignature "s1" "odoo.create" P'
          ≠ computeSignature "s1" "odoo.create" sample_payload →
        validateConfirm "id-1" "s1" "odoo.create" P' t4 st2 = (st2, Throw PayloadDiffers))
    ∧ error_message PayloadDiffers
      = "Confirmation payload differs from the approved dry_run.".
Proof.
  apply (plan_dry_run_confirm "s1" "odoo.create" sample_payload JNull JNull (Some "alice")
           (Some "bob") None "id-1" 1000 1001 301001 empty_store).
  - discriminate.
  - reflexivity.
  - vm_compute. discriminate.
Defined.

(** C2 (the code does not keep the claim).  Two confirms of the approved
    action "id-1" through [odoo.create], the second started while the first
    awaits the connector: both pass [validateConfirm], both ask the
    connector to create, and each records a confirm stage when the
    connector has answered.  The stage of the first is replaced by that of
    the second and the ledger has two confirm events of the action: the
    guard against a second confirm is in [validateConfirm] only, and
    [recordConfirm] does not repeat it. *)
Theorem overlapping_confirms_record_twice :
  let input := create_input "confirm" (Some (JString "id-1")) in
  let first := world 3000 (Tools.Ok (JNumber 42)) in
  let second := world 3500 (Tools.Ok (JNumber 43)) in
  ∃ pending1 pending2 st3 st4 c1 c2,
    Tools.start input create_context first create_approved_store
    = (create_approved_store,
       Tools.Awaiting pending1 (Tools.Create "res.partner" create_sanitized))
    ∧ Tools.start input create_context second create_approved_store
      = (create_approved_store,
         Tools.Awaiting pending2 (Tools.Create "res.partner" create_sanitized))
    ∧ Tools.resume sample_toISOString create_context first pending1 create_approved_store
      = (st3,
         Tools.ConfirmReply (JNumber 42) "id-1" (Some "Reviewer") (Some "Reviewer")
           (Some "2000") (Some "302000") (Some "Reviewer") (Some "3001")
           (Some "Reviewer") (Some "2000") (Some "302000"))
    ∧ Tools.resume sample_toISOString create_context second pending2 st3
      = (st4,
         Tools.ConfirmReply (JNumber 43) "id-1" (Some "Reviewer") (Some "Reviewer")
           (Some "2000") (Some "302000") (Some "Reviewer") (Some "3501")
           (Some "Reviewer") (Some "2000") (Some "302000"))
    ∧ confirm_stage "id-1" create_approved_store = None
    ∧ confirm_stage "id-1" st3 = Some c1
    ∧ result c1 = JObject [("id", JNumber 42)]
    ∧ confirm_stage "id-1" st4 = Some c2
    ∧ result c2 = JObject [("id", JNumber 43)]
    ∧ recorded_stages (events st4)
      = [(StagePlan, "id-1"); (StageDryRun, "id-1"); (StageConfirm, "id-1");
         (StageConfirm, "id-1")]
    ∧ st4 = run_calls overlapping_confirm_calls create_approved_store.
Proof.
  eexists _, _, _, _, _, _.
  split; [vm_compute; reflexivity|].
  split; [vm_compute; reflexivity|].
  split; [vm_compute; reflexivity|].
  split; [vm_compute; reflexivity|].
  split; [vm_compute; reflexivity|].
  split; [vm_compute; reflexivity|].
  split; [vm_compute; reflexivity|].
  split; [vm_compute; reflexivity|].
  split; [vm_compute; reflexivity|].
  split; [vm_compute; reflexivity|].
  vm_compute. reflexivity.
Qed.


(** Against C3 as worded: after a second plan of the same signature the
    first identifier is unknown to [validateConfirm]. *)
Lemma superseded_action_unknown :
  let st2 :=
    (recordPlan "s1" "odoo.create" sample_payload JNull (Some "alice") "id-2" 2000
       planned_store).1 in
  lifecycles st2 !! "id-1" = None
  ∧ signatureIndex st2 !! computeSignature "s1" "odoo.create" sample_payload = Some "id-2"
  ∧ (validateConfirm "id-1" "s1" "odoo.create" sample_payload 2001 st2).2
    = Throw UnknownActionRerun.
Proof. vm_compute. done. Qed.

Lemma replan_evicts_previous_sample :
  ∃ st' planRecord,
    recordPlan "s1" "odoo.create" sample_payload JNull (Some "alice") "id-2" 2000 planned_store
      = (st', Return planRecord)
    ∧ actionId planRecord = "id-2"
    ∧ signatureIndex st' !! computeSignature "s1" "odoo.create" sample_payload = Some "id-2"
    ∧ lifecycles st' !! "id-1" = None
    ∧ (∀ s t p n, validateConfirm "id-1" s t p n st' = (st', Throw UnknownActionRerun))
    ∧ error_message UnknownActionRerun = "Unknown action. Please re-run plan and dry_run.".
Proof.
  apply (replan_evicts_previous "s1" "odoo.create" sample_payload JNull (Some "alice")
           "id-2" "id-1" 2000 planned_store).
  - vm_compute. reflexivity.
  - discriminate.
  - discriminate.
Defined.

(** Against C4 as worded: with a ttl of 0, [validateConfirm] at the clock
    reading of the dry_run returns the dry_run record. *)
Lemma zero_ttl_confirmable_at_once :
  zero_ttl_dry_run.2 = Return zero_ttl_record
  ∧ expiresAt (metadata zero_ttl_record) = Some 1000
  ∧ (validateConfirm "id-1" "s1" "odoo.create" sample_payload 1000 zero_ttl_dry_run.1).2
    = Return zero_ttl_record.
Proof. vm_compute. done. Qed.

(** After the dry_run with a ttl of 0 at 1000: a confirm attempt, the plan
    and the dry_run of another payload, an event of the host and a bare
    [recordConfirm]; at 1001 the approval is still refused as expired. *)
Lemma expired_approval_rejected_sample :
  let st3 := run_steps later_steps zero_ttl_dry_run.1 in
  (∀ s t p, ∃ e,
     validateConfirm (actionId zero_ttl_record) s t p 1001 st3 = (st3, Throw e))
  ∧ (∃ lc, lifecycles zero_ttl_dry_run.1 !! actionId zero_ttl_record = Some lc
           ∧ dryRun lc = Some zero_ttl_record)
  ∧ (∀ lc, lifecycles st3 !! actionId zero_ttl_record = Some lc →
       (dryRun lc = None ∨ dryRun lc = Some zero_ttl_record)
       ∧ (dryRun lc = Some zero_ttl_record →
          ∀ p, truthy (Some "bob") = true →
               computeSignature (lc_sessionId lc) (lc_tool lc) p = signature lc →
               validateConfirm (actionId zero_ttl_record) (lc_sessionId lc) (lc_tool lc) p
                 1001 st3
               = (st3, Throw ApprovalExpired)))
  ∧ error_message ApprovalExpired
    = "Dry_run approval has expired. Please run a new dry_run.".
Proof.
  apply (expired_approval_rejected "s1" "odoo.create" sample_payload JNull (Some "bob")
           (Some 0) 1000 1001 planned_store zero_ttl_dry_run.1 zero_ttl_record later_steps).
  - vm_compute. reflexivity.
  - vm_compute. discriminate.
  - reflexivity.
  - vm_compute. repeat split; try (intros H; exact H); discriminate.
Defined.

Lemma canonical_order_independent_sample :
  stableStringify sample_payload = stableStringify sample_payload_reordered
  ∧ computeSignature "s1" "odoo.create" sample_payload
    = computeSignature "s1" "odoo.create" sample_payload_reordered.
Proof.
  apply (canonical_order_independent "s1" "odoo.create" sample_payload
           sample_payload_reordered).
  - simpl. repeat split. by apply (bool_decide_unpack _).
  - simpl. repeat split. by apply (bool_decide_unpack _).
  - apply (same_object _ [("amount", JNumber 10); ("tags", JArray [JString "a"; JNull])]).
    + repeat constructor.
    + apply perm_swap.
Defined.

Lemma encode_decode_text_sample :
  WebSocket.decodeFrame (WebSocket.encodeFrame [0x68; 0x69] 0x1) =
  WebSocket.Frame
    {| WebSocket.fin := true; WebSocket.opcode := 0x1; WebSocket.payload := [0x68; 0x69];
       WebSocket.totalLength := WebSocket.blength (WebSocket.encodeFrame [0x68; 0x69] 0x1) |}.
Proof. apply (encode_decode_text [0x68; 0x69]). reflexivity. Defined.

Lemma initialize_once_sample :
  let first := Host.handleInitialize [echo_tool] initialize_request 5 (new_session, []) in
  Host.initialized first.1 = true
  ∧ Host.clientInfo first.1 = Some (JObject [("name", JString "Reviewer")])
  ∧ Host.outbox (Host.handleInitialize [echo_tool] initialize_request 9 first).1
    = [Host.Response (JNumber 1)
         (JObject
            [("protocolVersion", JString "2024-05-22");
             ("capabilities",
               JObject [("tools", JObject [("list", JBool true); ("call", JBool true);
                                          ("streaming", JBool true)])]);
             ("tools",
               JArray [JObject [("name", JString "echo");
                                ("description", JString "Echoes its input");
                                ("inputSchema", JObject [("type", JString "object")])]])]);
       Host.ErrorResponse (JNumber 1) (-32600) "Session already initialized"].
Proof.
  pose proof (initialize_once [echo_tool] initialize_request 5 new_session []
                [(initialize_request, 9)] eq_refl) as H.
  cbv zeta in H. destruct H as (H1 & H2 & _ & _ & _ & _ & _ & H8 & _).
  split; [exact H1|]. split; [exact H2|]. exact H8.
Defined.

Lemma store_failure_atomic_sample :
  (recordDryRun "s1" "odoo.create" sample_payload JNull (Some "bob") None 7 empty_store).1
  = empty_store.
Proof.
  apply (proj1 (@store_failure_atomic Z _) "s1" "odoo.create" sample_payload JNull
           (Some "bob") None 7 empty_store _ PlanRequired).
  vm_compute. reflexivity.
Defined.

Lemma handleData_terminates_sample :
  (WebSocket.handleData (fragment_frame ++ text_frame) WebSocket.fresh).2
  ≠ WebSocket.OutOfFuel.
Proof.
  apply (handleData_terminates (fragment_frame ++ text_frame) WebSocket.fresh).
  - constructor.
  - unfold WebSocket.is_bytes. repeat constructor; lia.
Defined.

Lemma fragment_closes_sample :
  WebSocket.handleData (fragment_frame ++ text_frame) WebSocket.fresh =
  ({| WebSocket.buffer := text_frame;
      WebSocket.closed := true;
      WebSocket.written :=
        [WebSocket.encodeFrame
           (WebSocket.writeUInt16BE 1003
              ++ WebSocket.utf8 "Fragmented frames are not supported") 0x8];
      WebSocket.ended := true;
      WebSocket.emitted := [] |}, WebSocket.Returned).
Proof.
  apply (fragment_closes (fragment_frame ++ text_frame) WebSocket.fresh
           {| WebSocket.fin := false; WebSocket.opcode := 0x1;
              WebSocket.payload := [0x68; 0x65]; WebSocket.totalLength := 8 |});
    reflexivity.
Defined.


(** The end of the socket on a new connection. *)
Lemma socket_end_reported_once_sample :
  WebSocket.emitted (WebSocket.handleSocketEnd WebSocket.fresh)
  = [WebSocket.Closed 1006 (WebSocket.utf8 "Socket closed unexpectedly")].
Proof. apply (proj1 (socket_end_reported_once WebSocket.fresh eq_refl)). Defined.

(** The masked text frame "hi". *)
Lemma decoded_frame_well_formed_sample :
  0 ≤ 1 < 16
  ∧ WebSocket.is_bytes [0x68; 0x69]
  ∧ WebSocket.blength [0x68; 0x69] < 2 ^ 32
  ∧ 2 + WebSocket.blength [0x68; 0x69] ≤ 8 ≤ WebSocket.blength text_frame.
Proof.
  apply (decoded_frame_well_formed text_frame
           {| WebSocket.fin := true; WebSocket.opcode := 1;
              WebSocket.payload := [0x68; 0x69]; WebSocket.totalLength := 8 |}).
  - unfold WebSocket.is_bytes. repeat constructor; lia.
  - reflexivity.
Defined.

(** "hi" as a text frame, masked with the key 01 02 03 04. *)
Lemma masked_frame_decodes_sample :
  WebSocket.decodeFrame text_frame
  = WebSocket.Frame {| WebSocket.fin := true; WebSocket.opcode := 1;
                       WebSocket.payload := [0x68; 0x69]; WebSocket.totalLength := 8 |}.
Proof.
  apply (masked_frame_decodes [0x68; 0x69] [0x01; 0x02; 0x03; 0x04] 1).
  - reflexivity.
  - reflexivity.
Defined.

(** The text "hi", a ping, the text null and a second ping in one chunk:
    "hi" is answered and the first ping gets its pong; the listener throws
    on null, and the second ping stays in the buffer without a pong. *)
Lemma frames_handled_in_order_sample :
  WebSocket.handleData_heard ascii_toString sample_on_message sample_on_close
    [0x81; 0x02; 0x68; 0x69; 0x89; 0x01; 0x07; 0x81; 0x04; 0x6e; 0x75; 0x6c; 0x6c;
     0x89; 0x01; 0x08] () WebSocket.fresh
  = ((), {| WebSocket.buffer := [0x89; 0x01; 0x08]; WebSocket.closed := false;
            WebSocket.written := [[0x81; 0x02; 0x68; 0x69]; [0x8A; 0x01; 0x07]];
            WebSocket.ended := false;
            WebSocket.emitted := [WebSocket.Message [0x68; 0x69];
                                  WebSocket.Message null_text] |}, WebSocket.Threw).
Proof.
  destruct (frames_handled_in_order ascii_toString sample_on_message sample_on_close
              [(0x1, [0x68; 0x69]); (0x9, [0x07]); (0x1, null_text); (0x9, [0x08])]
              () WebSocket.fresh) as (l' & c' & hs & left & threw & Hrun & Hdata & _).
  - reflexivity.
  - unfold WebSocket.is_bytes, null_text.
    repeat (apply Forall_cons; split); try apply Forall_nil; simpl;
      repeat split; try lia; try reflexivity; repeat constructor; lia.
  - vm_compute in Hrun. injection Hrun as <- <- <- <-. exact Hdata.
Defined.

(** A normal closure of a fresh connection, then a close with a code that
    does not fit sixteen bits. *)
Lemma close_is_final_sample :
  let c' := WebSocket.close 1000 "bye" WebSocket.fresh in
  WebSocket.close_throws 1000 WebSocket.fresh = false
  ∧ WebSocket.closed c' = true
  ∧ (WebSocket.closed WebSocket.fresh = false →
     length (WebSocket.written c') = S (length (WebSocket.written WebSocket.fresh)))
  ∧ (∀ data code' reason',
      WebSocket.send data c' = c' ∧ WebSocket.close code' reason' c' = c'
      ∧ WebSocket.close_throws code' c' = false
      ∧ WebSocket.handleSocketEnd c' = c')
  ∧ ∀ code', ¬ (0 ≤ code' < 65536)%Z → WebSocket.closed WebSocket.fresh = false →
      WebSocket.close_throws code' WebSocket.fresh = true
      ∧ WebSocket.close code' "bye" WebSocket.fresh = WebSocket.fresh.
Proof.
  apply (close_is_final 1000 "bye" WebSocket.fresh). lia.
Defined.

(** A normal closure with a reason. *)
Lemma close_frame_round_trip_sample :
  ∃ frame payload0,
    WebSocket.written (WebSocket.close 1000 "bye" WebSocket.fresh) = [frame]
    ∧ WebSocket.decodeFrame frame =
        WebSocket.Frame {| WebSocket.fin := true; WebSocket.opcode := 0x8;
                           WebSocket.payload := payload0;
                           WebSocket.totalLength := WebSocket.blength frame |}
    ∧ WebSocket.decodeCloseFrame payload0 = (1000, WebSocket.utf8 "bye")
    ∧ WebSocket.handleData frame WebSocket.fresh =
        ({| WebSocket.buffer := []; WebSocket.closed := true; WebSocket.written := [];
            WebSocket.ended := true;
            WebSocket.emitted := [WebSocket.Closed 1000 (WebSocket.utf8 "bye")] |},
         WebSocket.Returned).
Proof.
  apply (close_frame_round_trip 1000 "bye" WebSocket.fresh WebSocket.fresh).
  - reflexivity.
  - lia.
  - reflexivity.
  - reflexivity.
Defined.

(** The unmasked text frame "hi" without its last byte. *)
Lemma incomplete_frame_is_null_sample :
  WebSocket.decodeFrame [0x81; 0x02; 0x68] = WebSocket.Null.
Proof.
  apply (incomplete_frame_is_null [0x68; 0x69] 0x1 3).
  - reflexivity.
  - simpl. lia.
Defined.

(** The confirm event of [overlapped_steps], the fourth of the ledger: it
    names no approver, and the dry_run by bob is before it.  The confirm
    event of [audit_steps], where the confirm is made at once: it names
    bob. *)
Lemma confirmations_are_audited_sample :
  (∃ m, events (run_steps overlapped_steps (new_store [])) !! 3%nat
        = Some (ActionRecorded StageConfirm "id-1" "s1" "odoo.create" sample_payload
                  (JNumber 7) m 2002)
        ∧ approvedBy m = None)
  ∧ (∃ j k s1 t1 p1 r1 m1 ts1 s0 t0 p0 r0 m0 ts0,
       (k < j < 3)%nat
       ∧ events (run_steps overlapped_steps (new_store [])) !! j
         = Some (ActionRecorded StageDryRun "id-1" s1 t1 p1 r1 m1 ts1)
       ∧ truthy (approvedBy m1) = true
       ∧ events (run_steps overlapped_steps (new_store [])) !! k
         = Some (ActionRecorded StagePlan "id-1" s0 t0 p0 r0 m0 ts0))
  ∧ ∃ j k s1 t1 p1 r1 m1 ts1 s0 t0 p0 r0 m0 ts0,
      (k < j < 3)%nat
      ∧ events (run_steps audit_steps (new_store [])) !! j
        = Some (ActionRecorded StageDryRun "id-1" s1 t1 p1 r1 m1 ts1)
      ∧ approvedBy m1 = Some "bob"
      ∧ events (run_steps audit_steps (new_store [])) !! k
        = Some (ActionRecorded StagePlan "id-1" s0 t0 p0 r0 m0 ts0).
Proof.
  split; [eexists; split; vm_compute; reflexivity|].
  split.
  - edestruct (confirmations_are_audited overlapped_steps [] 3 "id-1") as [Hbefore _].
    + constructor.
    + vm_compute. repeat split. apply list_elem_of_here.
    + vm_compute. reflexivity.
    + exact Hbefore.
  - edestruct (confirmations_are_audited audit_steps [] 3 "id-1") as [_ Haudit].
    + constructor.
    + vm_compute. repeat split.
    + vm_compute. reflexivity.
    + apply Haudit. repeat constructor.
Defined.

(** A dry_run for a payload that was not planned, after a plan and a
    dry_run of another. *)
Lemma signature_index_sound_sample :
  match recordDryRun "s1" "odoo.create" other_payload JNull (Some "bob") None 3000
          (run_steps (take 3 audit_steps) (new_store [])) with
  | (_, Throw e) => e = PlanRequired ∨ e = SessionMismatch
  | (_, Return d) =>
      ∃ lc, lifecycles (run_steps (take 3 audit_steps) (new_store [])) !! actionId d = Some lc
            ∧ confirm lc = None
  end.
Proof.
  apply (proj2 (signature_index_sound (take 3 audit_steps) [] ltac:(by vm_compute))).
Defined.

(** An unapproved dry_run after an approved one. *)
Lemma latest_dry_run_decides_sample :
  ∃ st3 d2,
    recordDryRun "s1" "odoo.create" sample_payload JNull None None 1002 approved_store
    = (st3, Return d2)
    ∧ actionId d2 = "id-1"
    ∧ validateConfirm "id-1" "s1" "odoo.create" sample_payload 1003 st3
      = (st3, Throw NotApproved).
Proof.
  apply (latest_dry_run_decides "s1" "odoo.create" sample_payload JNull JNull JNull
           (Some "alice") (Some "bob") None None None "id-1" 1000 1001 1002 1003 empty_store).
  discriminate.
Defined.

(** A dry_run after the confirm of the approved action. *)
Lemma confirmed_action_needs_new_plan_sample :
  ∃ st' c,
    recordConfirm "id-1" "s1" "odoo.create" sample_payload (JNumber 7) (Some "carol") 2001
      approved_store = (st', Return c)
    ∧ ∀ r' by' ttl now3,
        recordDryRun "s1" "odoo.create" sample_payload r' by' ttl now3 st'
        = (st', Throw PlanRequired).
Proof.
  eapply (confirmed_action_needs_new_plan "id-1" "s1" "odoo.create" sample_payload
            (JNumber 7) (Some "carol") 2000 2001 approved_store).
  vm_compute. reflexivity.
Defined.

(** A confirm with the properties of the payload in another order. *)
Lemma confirm_bound_to_planner_sample :
  "s1" = "s1" ∧ "odoo.create" = "odoo.create"
  ∧ computeSignature "s1" "odoo.create" sample_payload_reordered
    = computeSignature "s1" "odoo.create" sample_payload.
Proof.
  eapply (confirm_bound_to_planner "s1" "odoo.create" sample_payload JNull (Some "alice")
            "id-1" 1000 empty_store
            [Invoke (CallRecordDryRun "s1" "odoo.create" sample_payload JNull (Some "bob")
                       None 1001)]
            "s1" "odoo.create" sample_payload_reordered 1002).
  - repeat constructor. intros [].
  - vm_compute. reflexivity.
Defined.

(** The connector fails during the confirm of an approved creation: the
    store is as it was.  A dry_run at the last valid time value: the expiry
    is not a valid date, the reply is the error of [toISOString], and the
    dry_run stage is recorded all the same. *)
Lemma failed_execution_changes_nothing_sample :
  (Tools.execute sample_toISOString (create_input "confirm" (Some (JString "id-1")))
     create_context (world 3000 (Tools.Thrown "timeout")) create_approved_store).1.1
  = create_approved_store
  ∧ let planned :=
      (Tools.execute sample_toISOString (create_input "plan" None) create_context
         (world 1000 (Tools.Ok JNull)) empty_store).1.1 in
    let run :=
      Tools.execute sample_toISOString (create_input "dry_run" None) create_context
        (world Tools.MAX_TIME_VALUE (Tools.Ok JNull)) planned in
    run.1.2 = Tools.ErrorReply "Failed to execute create: Invalid time value"
    ∧ length (events planned) = 1%nat
    ∧ length (events run.1.1) = 2%nat.
Proof.
  split; [|by vm_compute].
  edestruct (failed_execution_changes_nothing sample_toISOString
               (create_input "confirm" (Some (JString "id-1"))) create_context
               (world 3000 (Tools.Thrown "timeout")) create_approved_store)
    as [Hsame|[Hmessage _]].
  - vm_compute. reflexivity.
  - exact Hsame.
  - discriminate Hmessage.
Defined.

(** The confirm of an approved creation. *)
Lemma create_only_when_approved_sample :
  Tools.input_mode (create_input "confirm" (Some (JString "id-1"))) = "confirm"
  ∧ "res.partner" ∈ Tools.WRITABLE_MODELS
  ∧ ∃ lc d, lifecycles create_approved_store !! "id-1" = Some lc
            ∧ dryRun lc = Some d
            ∧ truthy (approvedBy (metadata d)) = true.
Proof.
  edestruct (create_only_when_approved sample_toISOString
               (create_input "confirm" (Some (JString "id-1"))) create_context
               (world 3000 (Tools.Ok (JNumber 42))) create_approved_store)
    as (_ & Hmode & Hmodel & Hw & _ & action_id & lc & d & Hid & Hlc & _ & _ & _ & Hd & Ha & _).
  - vm_compute. reflexivity.
  - apply list_elem_of_here.
  - injection Hid as <-. subst. eauto 10.
Defined.

(** The flow for a partner, with a field that is not of the model. *)
Lemma create_flow_sample :
  ∃ st1 st2 st3 summary1 summary2,
    Tools.execute sample_toISOString (create_input "plan" None) create_context
      (world 1000 (Tools.Ok JNull)) empty_store
      = (st1, Tools.PlanReply summary1 "id-1" (Some "Reviewer"), [])
    ∧ Tools.execute sample_toISOString (create_input "dry_run" None) create_context
        (world 2000 (Tools.Ok JNull)) st1
      = (st2,
         Tools.DryRunReply summary2 "id-1" (Some "Reviewer") (Some "Reviewer")
           (Some "2000") (Some "302000"),
         [Tools.CheckAccessRights "res.partner" "create"])
    ∧ Tools.execute sample_toISOString (create_input "confirm" (Some (JString "id-1")))
        create_context (world 3000 (Tools.Ok (JNumber 42))) st2
      = (st3,
         Tools.ConfirmReply (JNumber 42) "id-1" (Some "Reviewer") (Some "Reviewer")
           (Some "2000") (Some "302000") (Some "Reviewer") (Some "3001")
           (Some "Reviewer") (Some "2000") (Some "302000"),
         [Tools.Create "res.partner" create_sanitized])
    ∧ Tools.execute sample_toISOString (create_input "confirm" (Some (JString "id-1")))
        create_context (world 4000 (Tools.Ok (JNumber 43))) st3
      = (st3, Tools.ErrorReply "Failed to execute create: Action already confirmed.", []).
Proof.
  apply (create_flow sample_toISOString "res.partner" create_values create_sanitized
           (JNumber 42) create_context (world 1000 (Tools.Ok JNull))
           (world 2000 (Tools.Ok JNull)) (world 3000 (Tools.Ok (JNumber 42)))
           (world 4000 (Tools.Ok (JNumber 43))) empty_store).
  - by apply (bool_decide_unpack _).
  - reflexivity.
  - discriminate.
  - discriminate.
  - vm_compute. discriminate.
  - reflexivity.
  - reflexivity.
  - reflexivity.
  - reflexivity.
Defined.

(** A call of a registered tool in an initialised session, and its end
    with an array. *)
Lemma request_answered_once_sample :
  ∃ state invocation final,
    Dispatch.handleIncomingMessage [echo_tool] "" (Some call_message) 2 ready_peer
    = Dispatch.Returned state (Some invocation)
    ∧ Dispatch.sent
        (Dispatch.complete invocation (Dispatch.Resolved (JArray [JNumber 1; JNumber 2])) 3
           state)
      = (Dispatch.sent state ++
         [Dispatch.Notification "tools/stream"
            (JObject [("invocationId", JString "2"); ("chunk", JNumber 1)]);
          Dispatch.Notification "tools/stream"
            (JObject [("invocationId", JString "2"); ("chunk", JNumber 2)]);
          final])%list
    ∧ Dispatch.answers final = Some (JNumber 2).
Proof.
  destruct (Dispatch.handleIncomingMessage [echo_tool] "" (Some call_message) 2 ready_peer)
    as [state [invocation|]|] eqn:Hcall; [|by vm_compute in Hcall..].
  destruct (request_answered_once [echo_tool] "" (Some call_message) 2 ready_peer state
              (Some invocation) Hcall) as (_ & _ & Hcomplete).
  destruct (Hcomplete (Dispatch.Resolved (JArray [JNumber 1; JNumber 2])) 3 state)
    as (final & Hsent & Hfinal).
  exists state, invocation, final. split; [done|]. split; [|done].
  vm_compute in Hcall. injection Hcall as <- <-. exact Hsent.
Defined.


(** The payload and the payload with its properties in the other order,
    with the safe integers as exact numbers. *)
Lemma signature_determines_payload_sample :
  same_tree sample_payload sample_payload_reordered.
Proof.
  destruct (signature_determines_payload safe_integer
              (λ n m _ _, decimal_inj n m) (λ n _, decimal_text n)
              "s1" "odoo.create" sample_payload sample_payload_reordered)
    as [Hsame _].
  - simpl. repeat split; by apply (bool_decide_unpack _).
  - simpl. repeat split; by apply (bool_decide_unpack _).
  - simpl. repeat split.
  - simpl. repeat split.
  - apply Hsame. by vm_compute.
Defined.

End Samples.
